(** * 3d-physicsengine: the simulation core, embedded and verified

    The development follows the C++ sources of the physics core:
    [Vector3] (Vector3.h), [PhysicsBody] (PhysicsBody.h), [Ball] (Ball.h)
    and [PhysicsWorld] (PhysicsWorld.h).

    Numbers.  Every [float] of the source is an IEEE-754 binary32 value.
    It is modelled by [spec_float] at precision 24 and maximal exponent
    128, with the operations of [SpecFloat] (round to nearest, ties to
    even; infinities, signed zeros and NaN as in the standard).  The
    build uses [-O2] without fast-math, so each C++ operator on floats
    is one correctly rounded binary32 operation; no fused multiply-add
    and no wider intermediate precision is assumed.  Division by zero
    does not trap: it gives an infinity or NaN.

    State.  Member functions that mutate [*this] become functions that
    return the new record.  The vector of owned bodies is a [list]; a
    body reached through a pointer is read with [!!] and written back
    with [<[i:=_]>].  The C library's [rand()] is an oracle: a stream of
    integers together with the number of calls made so far.

    Around the core.  The second half of the embedding follows
    [InputHandler] (InputHandler.h), [Camera] (Camera.h), [Console]
    (Console.h) and [Game] (Game.h).  A [double] is a binary64 value,
    modelled like [float] at precision 53.  [std::map] and
    [std::unordered_map] are [gmap], [std::set] is [gset], and
    [std::string] is [string].  The functions stored in a
    [std::function] are named by a constructor and run by an
    interpreter ([Console.invoke], [Game.command], [Game.dispatch]).
    The libm functions [cos] and [sin], the random engine behind
    [std::uniform_real_distribution] and the window system are
    parameters of the sections that use them; OpenGL drawing
    ([Renderer]) is not embedded. *)

From Stdlib Require Import ZArith Bool Lia String Ascii.
From Stdlib Require Import Floats.SpecFloat.
From Stdlib Require Import DecimalString.
From stdpp Require Import base option list strings gmap.

Local Open Scope Z_scope.

(** ** binary32 arithmetic *)

Module F32.

Definition prec : Z := 24.
Definition emax : Z := 128.

Definition float : Type := spec_float.

Definition add : float -> float -> float := SFadd prec emax.
Definition sub : float -> float -> float := SFsub prec emax.
Definition mul : float -> float -> float := SFmul prec emax.
Definition div : float -> float -> float := SFdiv prec emax.
Definition sqrt : float -> float := SFsqrt prec emax.
Definition opp : float -> float := SFopp.

(** [a < b], [a <= b] and [a > b] of C++; all are false on NaN. *)
Definition ltb : float -> float -> bool := SFltb.
Definition leb : float -> float -> bool := SFleb.
Definition gtb (a b : float) : bool := SFltb b a.

(** Conversion of an [int] to [float]. *)
Definition of_int (z : Z) : float := binary_normalize prec emax z 0 false.

(** A decimal literal [n/d] with [n] and [d] exactly representable: the
    correctly rounded quotient is the float nearest to the decimal. *)
Definition dec (n d : Z) : float := div (of_int n) (of_int d).

(** [std::min(a, b)] is [(b < a) ? b : a]; [std::max(a, b)] is
    [(a < b) ? b : a]. *)
Definition min (a b : float) : float := if ltb b a then b else a.
Definition max (a b : float) : float := if ltb a b then b else a.

Definition zero : float := S754_zero false.
Definition one : float := Eval vm_compute in of_int 1.

Definition is_nan (a : float) : bool :=
  match a with S754_nan => true | _ => false end.

(** Zero or a finite non-zero number: neither NaN nor an infinity. *)
Definition is_finite (a : float) : bool :=
  match a with S754_zero _ | S754_finite _ _ _ => true | _ => false end.

Definition is_zero (a : float) : bool :=
  match a with S754_zero _ => true | _ => false end.

(** Well-formed binary32 datum (canonical mantissa and exponent). *)
Definition valid (a : float) : bool := valid_binary prec emax a.

End F32.

Declare Scope f32_scope.
Delimit Scope f32_scope with f32.
Bind Scope f32_scope with F32.float.
Infix "+" := F32.add : f32_scope.
Infix "-" := F32.sub : f32_scope.
Infix "*" := F32.mul : f32_scope.
Infix "/" := F32.div : f32_scope.
Notation "- x" := (F32.opp x) : f32_scope.
Infix "<?" := F32.ltb : f32_scope.
Infix "<=?" := F32.leb : f32_scope.
Infix ">?" := F32.gtb (at level 70) : f32_scope.

(** The float literals of the sources. *)
Module Lit.
Definition f0_0001 : F32.float := Eval vm_compute in F32.dec 1 10000.
Definition f0_01 : F32.float := Eval vm_compute in F32.dec 1 100.
Definition f0_1 : F32.float := Eval vm_compute in F32.dec 1 10.
Definition f0_25 : F32.float := Eval vm_compute in F32.dec 1 4.
Definition f0_3 : F32.float := Eval vm_compute in F32.dec 3 10.
Definition f0_5 : F32.float := Eval vm_compute in F32.dec 1 2.
Definition f0_7 : F32.float := Eval vm_compute in F32.dec 7 10.
Definition f0_8 : F32.float := Eval vm_compute in F32.dec 8 10.
Definition f0_95 : F32.float := Eval vm_compute in F32.dec 95 100.
Definition f0_999 : F32.float := Eval vm_compute in F32.dec 999 1000.
Definition f2 : F32.float := Eval vm_compute in F32.of_int 2.
Definition f9_81 : F32.float := Eval vm_compute in F32.dec 981 100.
Definition f10 : F32.float := Eval vm_compute in F32.of_int 10.
Definition f15 : F32.float := Eval vm_compute in F32.of_int 15.
Definition f60 : F32.float := Eval vm_compute in F32.of_int 60.
Definition f1 : F32.float := Eval vm_compute in F32.of_int 1.
Definition f3 : F32.float := Eval vm_compute in F32.of_int 3.
Definition f5 : F32.float := Eval vm_compute in F32.of_int 5.
Definition f8 : F32.float := Eval vm_compute in F32.of_int 8.
Definition f45 : F32.float := Eval vm_compute in F32.of_int 45.
Definition f89 : F32.float := Eval vm_compute in F32.of_int 89.
Definition f90 : F32.float := Eval vm_compute in F32.of_int 90.
Definition f120 : F32.float := Eval vm_compute in F32.of_int 120.
Definition f180 : F32.float := Eval vm_compute in F32.of_int 180.
Definition f1000 : F32.float := Eval vm_compute in F32.of_int 1000.
End Lit.

(** ** Vector3.h *)

Module Vector3.

Record Vector3 : Type := mk { x : F32.float; y : F32.float; z : F32.float }.

Local Open Scope f32_scope.

(** [operator+], [operator-], [operator*] and [operator/]. *)
Definition add (a b : Vector3) : Vector3 :=
  mk (x a + x b) (y a + y b) (z a + z b).
Definition sub (a b : Vector3) : Vector3 :=
  mk (x a - x b) (y a - y b) (z a - z b).
Definition scale (a : Vector3) (scalar : F32.float) : Vector3 :=
  mk (x a * scalar) (y a * scalar) (z a * scalar).
Definition divide (a : Vector3) (scalar : F32.float) : Vector3 :=
  mk (x a / scalar) (y a / scalar) (z a / scalar).

Definition dot (a b : Vector3) : F32.float :=
  x a * x b + y a * y b + z a * z b.

Definition magnitude (a : Vector3) : F32.float :=
  F32.sqrt (x a * x a + y a * y a + z a * z a).

Definition ZERO : Vector3 := mk F32.zero F32.zero F32.zero.

Definition normalized (a : Vector3) : Vector3 :=
  let mag := magnitude a in
  if mag >? Lit.f0_0001 then divide a mag else mk F32.zero F32.zero F32.zero.

Definition set_x (v : F32.float) (a : Vector3) : Vector3 := mk v (y a) (z a).
Definition set_y (v : F32.float) (a : Vector3) : Vector3 := mk (x a) v (z a).
Definition set_z (v : F32.float) (a : Vector3) : Vector3 := mk (x a) (y a) v.

(** [cross] and [magnitudeSquared]. *)
Definition cross (a b : Vector3) : Vector3 :=
  mk (y a * z b - z a * y b) (z a * x b - x a * z b) (x a * y b - y a * x b).

Definition magnitudeSquared (a : Vector3) : F32.float :=
  x a * x a + y a * y a + z a * z a.

(** [isZero(float epsilon = 0.0001f)]. *)
Definition isZero (epsilon : F32.float) (a : Vector3) : bool :=
  magnitude a <? epsilon.

End Vector3.

Abbreviation Vector3 := Vector3.Vector3.

(** ** PhysicsBody.h *)

Module PhysicsBody.

Record PhysicsBody : Type := mk {
  position : Vector3;
  velocity : Vector3;
  acceleration : Vector3;
  force : Vector3;
  mass : F32.float;
  restitution : F32.float;
  friction : F32.float;
  radius : F32.float;
  isStatic : bool;
  isActive : bool
}.

Local Open Scope f32_scope.

Definition set_position (v : Vector3) (b : PhysicsBody) : PhysicsBody :=
  mk v (velocity b) (acceleration b) (force b) (mass b) (restitution b)
     (friction b) (radius b) (isStatic b) (isActive b).
Definition set_velocity (v : Vector3) (b : PhysicsBody) : PhysicsBody :=
  mk (position b) v (acceleration b) (force b) (mass b) (restitution b)
     (friction b) (radius b) (isStatic b) (isActive b).
Definition set_acceleration (v : Vector3) (b : PhysicsBody) : PhysicsBody :=
  mk (position b) (velocity b) v (force b) (mass b) (restitution b)
     (friction b) (radius b) (isStatic b) (isActive b).
Definition set_force (v : Vector3) (b : PhysicsBody) : PhysicsBody :=
  mk (position b) (velocity b) (acceleration b) v (mass b) (restitution b)
     (friction b) (radius b) (isStatic b) (isActive b).
Definition set_restitution (v : F32.float) (b : PhysicsBody) : PhysicsBody :=
  mk (position b) (velocity b) (acceleration b) (force b) (mass b) v
     (friction b) (radius b) (isStatic b) (isActive b).
Definition set_friction (v : F32.float) (b : PhysicsBody) : PhysicsBody :=
  mk (position b) (velocity b) (acceleration b) (force b) (mass b)
     (restitution b) v (radius b) (isStatic b) (isActive b).
Definition set_isStatic (v : bool) (b : PhysicsBody) : PhysicsBody :=
  mk (position b) (velocity b) (acceleration b) (force b) (mass b)
     (restitution b) (friction b) (radius b) v (isActive b).
Definition set_isActive (v : bool) (b : PhysicsBody) : PhysicsBody :=
  mk (position b) (velocity b) (acceleration b) (force b) (mass b)
     (restitution b) (friction b) (radius b) (isStatic b) v.

(** [PhysicsBody(const Vector3& pos, float m, float r)]: the arguments
    are stored as given. *)
Definition create (pos : Vector3) (m r : F32.float) : PhysicsBody :=
  mk pos Vector3.ZERO Vector3.ZERO Vector3.ZERO m Lit.f0_7 Lit.f0_5 r false true.

(** [PhysicsBody()]. *)
Definition default : PhysicsBody :=
  mk Vector3.ZERO Vector3.ZERO Vector3.ZERO Vector3.ZERO
     F32.one Lit.f0_7 Lit.f0_5 Lit.f0_5 false true.

Definition applyForce (f : Vector3) (b : PhysicsBody) : PhysicsBody :=
  if negb (isStatic b) then set_force (Vector3.add (force b) f) b else b.

Definition applyImpulse (impulse : Vector3) (b : PhysicsBody) : PhysicsBody :=
  if negb (isStatic b)
  then set_velocity (Vector3.add (velocity b) (Vector3.divide impulse (mass b))) b
  else b.

(** The constant added to the acceleration: [Vector3(0, -9.81f, 0)]. *)
Definition gravityConstant : Vector3 :=
  Vector3.mk F32.zero (- Lit.f9_81) F32.zero.

(** [update(float deltaTime)], one explicit Euler step. *)
Definition update (deltaTime : F32.float) (b : PhysicsBody) : PhysicsBody :=
  if negb (isActive b) || isStatic b then b
  else
    let b := set_acceleration (Vector3.divide (force b) (mass b)) b in
    let b := set_acceleration (Vector3.add (acceleration b) gravityConstant) b in
    let b := set_velocity
               (Vector3.add (velocity b) (Vector3.scale (acceleration b) deltaTime)) b in
    let b := set_velocity (Vector3.scale (velocity b) Lit.f0_999) b in
    let b := set_position
               (Vector3.add (position b) (Vector3.scale (velocity b) deltaTime)) b in
    set_force Vector3.ZERO b.

Definition getInverseMass (b : PhysicsBody) : F32.float :=
  if isStatic b then F32.zero else F32.one / mass b.

Definition isCollidingWith (b other : PhysicsBody) : bool :=
  if negb (isActive b) || negb (isActive other) then false
  else
    let distance := Vector3.magnitude (Vector3.sub (position b) (position other)) in
    distance <? radius b + radius other.

Definition setStatic (static_state : bool) (b : PhysicsBody) : PhysicsBody :=
  let b := set_isStatic static_state b in
  if isStatic b
  then set_force Vector3.ZERO
         (set_acceleration Vector3.ZERO (set_velocity Vector3.ZERO b))
  else b.

Definition setRestitution (rest : F32.float) (b : PhysicsBody) : PhysicsBody :=
  set_restitution (F32.max F32.zero (F32.min F32.one rest)) b.

Definition setFriction (frict : F32.float) (b : PhysicsBody) : PhysicsBody :=
  set_friction (F32.max F32.zero (F32.min F32.one frict)) b.

Definition getDistanceTo (b other : PhysicsBody) : F32.float :=
  Vector3.magnitude (Vector3.sub (position b) (position other)).

End PhysicsBody.

Abbreviation PhysicsBody := PhysicsBody.PhysicsBody.

(** ** Ball.h *)

Module Ball.

(** [class Ball : public PhysicsBody]: [body] is the base-class part. *)
Record Ball : Type := mk {
  body : PhysicsBody;
  color : Vector3;
  isHeld : bool;
  spinDamping : F32.float;
  ballId : Z
}.

Local Open Scope f32_scope.

Definition set_body (pb : PhysicsBody) (b : Ball) : Ball :=
  mk pb (color b) (isHeld b) (spinDamping b) (ballId b).
Definition set_isHeld (h : bool) (b : Ball) : Ball :=
  mk (body b) (color b) h (spinDamping b) (ballId b).

(** [Ball(const Vector3& pos)] and [Ball(const Vector3& pos, const
    Vector3& col)].  The identifier is the incremented static counter;
    the one-argument constructor draws the colour from a random device,
    here it is the argument [col] in both cases. *)
Definition create (pos col : Vector3) (id : Z) : Ball :=
  let pb := PhysicsBody.create pos Lit.f0_5 Lit.f0_25 in
  let pb := PhysicsBody.set_restitution Lit.f0_8 pb in
  let pb := PhysicsBody.set_friction Lit.f0_3 pb in
  mk pb col false Lit.f0_95 id.

Definition setHeld (held : bool) (b : Ball) : Ball :=
  let b := set_isHeld held b in
  if held
  then set_body
         (PhysicsBody.set_force Vector3.ZERO
            (PhysicsBody.set_acceleration Vector3.ZERO
               (PhysicsBody.set_velocity Vector3.ZERO (body b)))) b
  else b.

Definition throwBall (throwVelocity : Vector3) (b : Ball) : Ball :=
  if isHeld b then
    let b := set_isHeld false b in
    let pb := PhysicsBody.set_velocity throwVelocity (body b) in
    let v := PhysicsBody.velocity pb in
    set_body (PhysicsBody.set_velocity (Vector3.set_y (Vector3.y v + Lit.f2) v) pb) b
  else b.

(** [update(float deltaTime) override]. *)
Definition update (deltaTime : F32.float) (b : Ball) : Ball :=
  if isHeld b then b
  else
    let pb := PhysicsBody.update deltaTime (body b) in
    let pb := PhysicsBody.set_velocity
                (Vector3.scale (PhysicsBody.velocity pb) (spinDamping b)) pb in
    let pb :=
      if Vector3.y (PhysicsBody.position pb) <? PhysicsBody.radius pb then
        let pb := PhysicsBody.set_position
                    (Vector3.set_y (PhysicsBody.radius pb) (PhysicsBody.position pb)) pb in
        if Vector3.y (PhysicsBody.velocity pb) <? F32.zero then
          PhysicsBody.set_velocity
            (Vector3.set_y
               (- Vector3.y (PhysicsBody.velocity pb) * PhysicsBody.restitution pb)
               (PhysicsBody.velocity pb)) pb
        else pb
      else pb in
    set_body pb b.

Definition isMoving (b : Ball) : bool :=
  Vector3.magnitude (PhysicsBody.velocity (body b)) >? Lit.f0_1.

Definition getKineticEnergy (b : Ball) : F32.float :=
  Lit.f0_5 * PhysicsBody.mass (body b)
  * Vector3.magnitudeSquared (PhysicsBody.velocity (body b)).

Definition resetToPosition (safePosition : Vector3) (b : Ball) : Ball :=
  let pb := PhysicsBody.set_position safePosition (body b) in
  let pb := PhysicsBody.set_velocity Vector3.ZERO pb in
  let pb := PhysicsBody.set_acceleration Vector3.ZERO pb in
  let pb := PhysicsBody.set_force Vector3.ZERO pb in
  set_isHeld false (set_body pb b).

End Ball.

Abbreviation Ball := Ball.Ball.

(** ** PhysicsWorld.h *)

Module PhysicsWorld.

(** An element of [std::vector<std::unique_ptr<PhysicsBody>>]: the
    pointee is a plain [PhysicsBody] or a [Ball]; [dynamic_cast<Ball*>]
    and virtual dispatch look at the constructor. *)
Inductive Body : Type :=
| OfPhysicsBody (pb : PhysicsBody)
| OfBall (b : Ball).

(** The base-class part of a body, and its replacement. *)
Definition base (o : Body) : PhysicsBody :=
  match o with
  | OfPhysicsBody pb => pb
  | OfBall b => Ball.body b
  end.

Definition set_base (pb : PhysicsBody) (o : Body) : Body :=
  match o with
  | OfPhysicsBody _ => OfPhysicsBody pb
  | OfBall b => OfBall (Ball.set_body pb b)
  end.

Definition is_ball (o : Body) : bool :=
  match o with OfBall _ => true | OfPhysicsBody _ => false end.

(** The virtual call [body->update(dt)]. *)
Definition body_update (dt : F32.float) (o : Body) : Body :=
  match o with
  | OfPhysicsBody pb => OfPhysicsBody (PhysicsBody.update dt pb)
  | OfBall b => OfBall (Ball.update dt b)
  end.

(** [float worldBounds[6]], by index 0 to 5. *)
Record Bounds : Type := mkBounds {
  minX : F32.float; maxX : F32.float;
  minY : F32.float; maxY : F32.float;
  minZ : F32.float; maxZ : F32.float
}.

Record PhysicsWorld : Type := mk {
  bodies : list Body;
  gravity : Vector3;
  worldBounds : Bounds;
  timeStep : F32.float;
  maxSubsteps : Z
}.

Definition set_bodies (bs : list Body) (w : PhysicsWorld) : PhysicsWorld :=
  mk bs (gravity w) (worldBounds w) (timeStep w) (maxSubsteps w).

Local Open Scope f32_scope.

(** [PhysicsWorld()]. *)
Definition create : PhysicsWorld :=
  mk [] (Vector3.mk F32.zero (- Lit.f9_81) F32.zero)
     (mkBounds (- Lit.f15) Lit.f15 F32.zero Lit.f10 (- Lit.f15) Lit.f15)
     (F32.one / Lit.f60) 4.

Definition addBody (o : Body) (w : PhysicsWorld) : PhysicsWorld :=
  set_bodies (bodies w ++ [o]) w.

(** [createBall(position)]; the colour and the identifier come from
    the constructor's random device and static counter. *)
Definition createBall (position col : Vector3) (id : Z) (w : PhysicsWorld)
  : PhysicsWorld :=
  set_bodies (bodies w ++ [OfBall (Ball.create position col id)]) w.

Definition setWorldBounds (b : Bounds) (w : PhysicsWorld) : PhysicsWorld :=
  mk (bodies w) (gravity w) b (timeStep w) (maxSubsteps w).

Definition setGravity (g : Vector3) (w : PhysicsWorld) : PhysicsWorld :=
  mk (bodies w) g (worldBounds w) (timeStep w) (maxSubsteps w).

Definition clear (w : PhysicsWorld) : PhysicsWorld := set_bodies [] w.

(** [removeBody(body)].  The pointer is the index at which the body is
    stored when the call is made: [remove_if] keeps the elements whose
    address differs from it, in their order. *)
Definition removeBody (body : nat) (w : PhysicsWorld) : PhysicsWorld :=
  set_bodies (snd <$> filter (fun p => p.1 <> body) (imap pair (bodies w))) w.

(** [getBodies()]: the raw pointers, in the order of the vector. *)
Definition getBodies (w : PhysicsWorld) : list nat := seq 0 (length (bodies w)).

(** [getBalls()]: the pointers for which [dynamic_cast<Ball*>] succeeds,
    each given with the ball it points to. *)
Definition getBalls (w : PhysicsWorld) : list (nat * Ball) :=
  omap (fun p => match p.2 with OfBall b => Some (p.1, b) | OfPhysicsBody _ => None end)
       (imap pair (bodies w)).

Definition getBodyCount (w : PhysicsWorld) : nat := length (bodies w).

Section Rand.

(** The C library: the value of [RAND_MAX] and the sequence of values
    that successive calls of [rand()] return. *)
Variable RAND_MAX : Z.
Variable rand : nat -> Z.

(** [((float)rand() / RAND_MAX - 0.5f) * randomFactor] for the call
    number [k]. *)
Definition randomComponent (k : nat) : F32.float :=
  (F32.of_int (rand k) / F32.of_int RAND_MAX - Lit.f0_5) * Lit.f0_1.

(** [resolveCollision(bodyA, bodyB)].  The third component of the
    state is the number of [rand()] calls made so far.  The three calls
    in the constructor arguments of [randomOffset] are taken from left
    to right; C++ leaves their order open. *)
Definition resolveCollision (bodyA bodyB : Body) (calls : nat)
  : Body * Body * nat :=
  let a := base bodyA in
  let b := base bodyB in
  let normal :=
    Vector3.normalized (Vector3.sub (PhysicsBody.position a) (PhysicsBody.position b)) in
  let relativeVelocity :=
    Vector3.sub (PhysicsBody.velocity a) (PhysicsBody.velocity b) in
  let velocityAlongNormal := Vector3.dot relativeVelocity normal in
  if velocityAlongNormal >? F32.zero then (bodyA, bodyB, calls)
  else
    let restitution :=
      F32.min (PhysicsBody.restitution a) (PhysicsBody.restitution b) in
    let impulseScalar := - (F32.one + restitution) * velocityAlongNormal in
    let impulseScalar :=
      impulseScalar / (PhysicsBody.getInverseMass a + PhysicsBody.getInverseMass b) in
    let impulse := Vector3.scale normal impulseScalar in
    let a := PhysicsBody.applyImpulse
               (Vector3.scale impulse (PhysicsBody.getInverseMass a)) a in
    let b := PhysicsBody.applyImpulse
               (Vector3.scale impulse (- PhysicsBody.getInverseMass b)) b in
    let penetrationDepth :=
      (PhysicsBody.radius a + PhysicsBody.radius b)
      - Vector3.magnitude (Vector3.sub (PhysicsBody.position a) (PhysicsBody.position b)) in
    let '(a, b) :=
      if penetrationDepth >? F32.zero then
        let correctionPercent := Lit.f0_8 in
        let correctionSlop := Lit.f0_01 in
        let correction :=
          Vector3.scale normal
            (correctionPercent * F32.max (penetrationDepth - correctionSlop) F32.zero
             / (PhysicsBody.getInverseMass a + PhysicsBody.getInverseMass b)) in
        (PhysicsBody.set_position
           (Vector3.add (PhysicsBody.position a)
              (Vector3.scale correction (PhysicsBody.getInverseMass a))) a,
         PhysicsBody.set_position
           (Vector3.sub (PhysicsBody.position b)
              (Vector3.scale correction (PhysicsBody.getInverseMass b))) b)
      else (a, b) in
    if is_ball bodyA && is_ball bodyB then
      let randomOffset :=
        Vector3.mk (randomComponent calls) (randomComponent (S calls))
                   (randomComponent (S (S calls))) in
      (set_base (PhysicsBody.set_velocity
                   (Vector3.add (PhysicsBody.velocity a) randomOffset) a) bodyA,
       set_base (PhysicsBody.set_velocity
                   (Vector3.sub (PhysicsBody.velocity b) randomOffset) b) bodyB,
       S (S (S calls)))
    else (set_base a bodyA, set_base b bodyB, calls).

(** The body of the inner loop of [handleCollisions] for the pair of
    indices [i], [j]. *)
Definition collidePair (i j : nat) (st : list Body * nat) : list Body * nat :=
  match st.1 !! i, st.1 !! j with
  | Some bodyA, Some bodyB =>
      if PhysicsBody.isCollidingWith (base bodyA) (base bodyB) then
        let '(bodyA', bodyB', calls) := resolveCollision bodyA bodyB st.2 in
        (<[j := bodyB']> (<[i := bodyA']> st.1), calls)
      else st
  | _, _ => st
  end.

(** [for (j = i + 1; j < size; ++j)]. *)
Definition collideRow (size i : nat) (st : list Body * nat) : list Body * nat :=
  foldl (fun st j => collidePair i j st) st (seq (S i) (size - S i)).

(** [handleCollisions()]: [for (i = 0; i < size; ++i)] around the
    inner loop. *)
Definition handleCollisions (st : list Body * nat) : list Body * nat :=
  let size := length st.1 in
  foldl (fun st i => collideRow size i st) st (seq 0 size).

(** One axis of [handleWorldBoundaries]: the new coordinate, the new
    velocity component and whether the velocity was reflected. *)
Definition boundAxis (lo hi radius restitution p v : F32.float)
  : F32.float * F32.float * bool :=
  if p - radius <? lo then
    if v <? F32.zero then (lo + radius, - v * restitution, true)
    else (lo + radius, v, false)
  else if p + radius >? hi then
    if v >? F32.zero then (hi - radius, - v * restitution, true)
    else (hi - radius, v, false)
  else (p, v, false).

(** The loop body of [handleWorldBoundaries] for one body. *)
Definition boundBody (wb : Bounds) (o : Body) : Body :=
  let b := base o in
  if PhysicsBody.isStatic b then o
  else
    let r := PhysicsBody.radius b in
    let e := PhysicsBody.restitution b in
    let p := PhysicsBody.position b in
    let v := PhysicsBody.velocity b in
    let '(px, vx, cx) := boundAxis (minX wb) (maxX wb) r e (Vector3.x p) (Vector3.x v) in
    let '(py, vy, cy) := boundAxis (minY wb) (maxY wb) r e (Vector3.y p) (Vector3.y v) in
    let '(pz, vz, cz) := boundAxis (minZ wb) (maxZ wb) r e (Vector3.z p) (Vector3.z v) in
    let collided := cx || cy || cz in
    let '(vx, vz) :=
      if (py <=? minY wb + r + Lit.f0_1) && collided
      then (vx * (F32.one - PhysicsBody.friction b),
            vz * (F32.one - PhysicsBody.friction b))
      else (vx, vz) in
    set_base
      (PhysicsBody.set_velocity (Vector3.mk vx vy vz)
         (PhysicsBody.set_position (Vector3.mk px py pz) b)) o.

Definition handleWorldBoundaries (wb : Bounds) (bs : list Body) : list Body :=
  boundBody wb <$> bs.

(** The body of the [while] loop of [update]: one substep of length
    [currentStep]. *)
Definition substep (wb : Bounds) (currentStep : F32.float)
    (st : list Body * nat) : list Body * nat :=
  let st := (body_update currentStep <$> st.1, st.2) in
  let st := handleCollisions st in
  (handleWorldBoundaries wb st.1, st.2).

(** The [while] loop of [update]; [left] is [maxSubsteps - substeps],
    the number of substeps still allowed. *)
Fixpoint updateLoop (wb : Bounds) (timeStep : F32.float) (left : nat)
    (remainingTime : F32.float) (st : list Body * nat) : list Body * nat :=
  match left with
  | O => st
  | S left' =>
      if remainingTime >? F32.zero then
        let currentStep := F32.min remainingTime timeStep in
        updateLoop wb timeStep left' (remainingTime - currentStep)
          (substep wb currentStep st)
      else st
  end.

(** [update(float deltaTime)]. *)
Definition update (deltaTime : F32.float) (ws : PhysicsWorld * nat)
  : PhysicsWorld * nat :=
  let w := ws.1 in
  let st := updateLoop (worldBounds w) (timeStep w) (Z.to_nat (maxSubsteps w))
              deltaTime (bodies w, ws.2) in
  (set_bodies st.1 w, st.2).

End Rand.

End PhysicsWorld.

Abbreviation PhysicsWorld := PhysicsWorld.PhysicsWorld.

(** ** binary64 arithmetic, for the [double] values *)

Module F64.

Definition prec : Z := 53.
Definition emax : Z := 1024.

Definition float : Type := spec_float.

Definition sub : float -> float -> float := SFsub prec emax.
Definition mul : float -> float -> float := SFmul prec emax.
Definition div : float -> float -> float := SFdiv prec emax.

Definition zero : float := S754_zero false.

Definition is_finite (a : float) : bool :=
  match a with S754_zero _ | S754_finite _ _ _ => true | _ => false end.

(** The conversion of a [float] to [double] is exact; the conversion
    of a [double] to [float] rounds to nearest. *)
Definition of_f32 (a : F32.float) : float :=
  match a with
  | S754_finite s m e => binary_round prec emax s m e
  | _ => a
  end.

Definition to_f32 (a : float) : F32.float :=
  match a with
  | S754_finite s m e => binary_round F32.prec F32.emax s m e
  | _ => a
  end.

(** [M_PI], the double nearest to pi. *)
Definition M_PI : float := S754_finite false 7074237752028440 (-51).

End F64.

(** ** InputHandler.h *)

Module InputHandler.

(** The action codes of GLFW. *)
Definition GLFW_RELEASE : Z := 0.
Definition GLFW_PRESS : Z := 1.

(** The window handle and the four stored callbacks are left out: the
    window is only passed to GLFW, and a stored callback is applied
    by the owner that has set it (see [Game.dispatch]). *)
Record InputHandler : Type := mk {
  keyStates : gmap Z bool;
  previousKeyStates : gmap Z bool;
  keysPressed : gset Z;
  keysReleased : gset Z;
  mouseX : F64.float;
  mouseY : F64.float;
  lastMouseX : F64.float;
  lastMouseY : F64.float;
  mouseDeltaX : F64.float;
  mouseDeltaY : F64.float;
  firstMouse : bool;
  mouseGrabbed : bool
}.

Definition set_keyStates (m : gmap Z bool) (h : InputHandler) : InputHandler :=
  mk m (previousKeyStates h) (keysPressed h) (keysReleased h)
     (mouseX h) (mouseY h) (lastMouseX h) (lastMouseY h)
     (mouseDeltaX h) (mouseDeltaY h) (firstMouse h) (mouseGrabbed h).

(** [InputHandler(GLFWwindow* win)]. *)
Definition create : InputHandler :=
  mk ∅ ∅ ∅ ∅ F64.zero F64.zero F64.zero F64.zero F64.zero F64.zero true false.

(** [m[key]] of [std::map<int, bool>]: the value stored for the key;
    a key that is missing is first inserted with the value [false]. *)
Definition subscript (key : Z) (m : gmap Z bool) : bool * gmap Z bool :=
  match m !! key with
  | Some v => (v, m)
  | None => (false, <[key := false]> m)
  end.

(** The body of the loop of [update] for one entry of [keyStates];
    the state is [previousKeyStates], [keysPressed], [keysReleased]. *)
Definition updateKey (st : gmap Z bool * gset Z * gset Z) (pair : Z * bool)
  : gmap Z bool * gset Z * gset Z :=
  let '(previous, pressed, released) := st in
  let key := pair.1 in
  let currentState := pair.2 in
  let '(previousState, previous) := subscript key previous in
  if currentState && negb previousState then (previous, {[key]} ∪ pressed, released)
  else if negb currentState && previousState then (previous, pressed, {[key]} ∪ released)
  else (previous, pressed, released).

(** [update()].  The loop visits the entries of [keyStates]. *)
Definition update (h : InputHandler) : InputHandler :=
  let '(previous, pressed, released) :=
    foldl updateKey (keyStates h, ∅, ∅) (map_to_list (keyStates h)) in
  let '(deltaX, deltaY) :=
    if mouseGrabbed h
    then (F64.sub (mouseX h) (lastMouseX h), F64.sub (lastMouseY h) (mouseY h))
    else (F64.zero, F64.zero) in
  mk (keyStates h) previous pressed released
     (mouseX h) (mouseY h) (mouseX h) (mouseY h)
     deltaX deltaY (firstMouse h) (mouseGrabbed h).

Definition isKeyPressed (key : Z) (h : InputHandler) : bool :=
  match keyStates h !! key with
  | Some v => v
  | None => false
  end.

Definition wasKeyPressed (key : Z) (h : InputHandler) : bool :=
  bool_decide (key ∈ keysPressed h).

Definition wasKeyReleased (key : Z) (h : InputHandler) : bool :=
  bool_decide (key ∈ keysReleased h).

Definition getMousePosition (h : InputHandler) : F64.float * F64.float :=
  (mouseX h, mouseY h).

Definition getMouseDelta (h : InputHandler) : F64.float * F64.float :=
  (mouseDeltaX h, mouseDeltaY h).

(** [setMouseGrab(grab)]; the call of [glfwSetInputMode] shows or
    hides the cursor and has no effect on the members. *)
Definition setMouseGrab (grab : bool) (h : InputHandler) : InputHandler :=
  mk (keyStates h) (previousKeyStates h) (keysPressed h) (keysReleased h)
     (mouseX h) (mouseY h) (lastMouseX h) (lastMouseY h)
     (mouseDeltaX h) (mouseDeltaY h) (firstMouse h) grab.

Definition isMouseGrabbed (h : InputHandler) : bool := mouseGrabbed h.

Definition toggleMouseGrab (h : InputHandler) : InputHandler :=
  setMouseGrab (negb (mouseGrabbed h)) h.

Definition resetMouseDelta (h : InputHandler) : InputHandler :=
  mk (keyStates h) (previousKeyStates h) (keysPressed h) (keysReleased h)
     (mouseX h) (mouseY h) (lastMouseX h) (lastMouseY h)
     F64.zero F64.zero true (mouseGrabbed h).

(** [keyCallbackImpl], up to the call of the stored callback. *)
Definition keyCallbackImpl (key scancode action mods : Z) (h : InputHandler)
  : InputHandler :=
  if action =? GLFW_PRESS then set_keyStates (<[key := true]> (keyStates h)) h
  else if action =? GLFW_RELEASE then set_keyStates (<[key := false]> (keyStates h)) h
  else h.

(** [mouseCallbackImpl], up to the call of the stored callback. *)
Definition mouseCallbackImpl (xpos ypos : F64.float) (h : InputHandler)
  : InputHandler :=
  if firstMouse h
  then mk (keyStates h) (previousKeyStates h) (keysPressed h) (keysReleased h)
          xpos ypos xpos ypos (mouseDeltaX h) (mouseDeltaY h) false (mouseGrabbed h)
  else mk (keyStates h) (previousKeyStates h) (keysPressed h) (keysReleased h)
          xpos ypos (lastMouseX h) (lastMouseY h)
          (mouseDeltaX h) (mouseDeltaY h) (firstMouse h) (mouseGrabbed h).

End InputHandler.

Abbreviation InputHandler := InputHandler.InputHandler.

(** ** Camera.h *)

Module Camera.

Record Camera : Type := mk {
  position : Vector3;
  front : Vector3;
  up : Vector3;
  right : Vector3;
  worldUp : Vector3;
  yaw : F32.float;
  pitch : F32.float;
  fov : F32.float;
  nearPlane : F32.float;
  farPlane : F32.float;
  movementSpeed : F32.float;
  mouseSensitivity : F32.float;
  maxPitch : F32.float;
  minPitch : F32.float
}.

Local Open Scope f32_scope.

Definition set_position (v : Vector3) (c : Camera) : Camera :=
  mk v (front c) (up c) (right c) (worldUp c) (yaw c) (pitch c) (fov c)
     (nearPlane c) (farPlane c) (movementSpeed c) (mouseSensitivity c)
     (maxPitch c) (minPitch c).
Definition set_fov (v : F32.float) (c : Camera) : Camera :=
  mk (position c) (front c) (up c) (right c) (worldUp c) (yaw c) (pitch c) v
     (nearPlane c) (farPlane c) (movementSpeed c) (mouseSensitivity c)
     (maxPitch c) (minPitch c).
Definition set_orientation (y p : F32.float) (c : Camera) : Camera :=
  mk (position c) (front c) (up c) (right c) (worldUp c) y p (fov c)
     (nearPlane c) (farPlane c) (movementSpeed c) (mouseSensitivity c)
     (maxPitch c) (minPitch c).

Section Libm.

(** The C library: [cos] and [sin] on [double]. *)
Variable cos : F64.float -> F64.float.
Variable sin : F64.float -> F64.float.

(** [a * M_PI / 180.0f], computed in [double]. *)
Definition radians (a : F32.float) : F64.float :=
  F64.div (F64.mul (F64.of_f32 a) F64.M_PI) (F64.of_f32 Lit.f180).

(** [updateCameraVectors()]. *)
Definition updateCameraVectors (c : Camera) : Camera :=
  let newFront :=
    Vector3.mk
      (F64.to_f32 (F64.mul (cos (radians (yaw c))) (cos (radians (pitch c)))))
      (F64.to_f32 (sin (radians (pitch c))))
      (F64.to_f32 (F64.mul (sin (radians (yaw c))) (cos (radians (pitch c))))) in
  let front := Vector3.normalized newFront in
  let right := Vector3.normalized (Vector3.cross front (worldUp c)) in
  let up := Vector3.normalized (Vector3.cross right front) in
  mk (position c) front up right (worldUp c) (yaw c) (pitch c) (fov c)
     (nearPlane c) (farPlane c) (movementSpeed c) (mouseSensitivity c)
     (maxPitch c) (minPitch c).

(** [Camera(pos, worldUp, yaw, pitch)]; the defaults of the arguments
    are [(0, 2, 10)], [(0, 1, 0)], [-90] and [0]. *)
Definition create (pos worldUp : Vector3) (yaw pitch : F32.float) : Camera :=
  updateCameraVectors
    (mk pos Vector3.ZERO Vector3.ZERO Vector3.ZERO worldUp yaw pitch
        Lit.f45 Lit.f0_1 Lit.f1000 Lit.f5 Lit.f0_1 Lit.f89 (- Lit.f89)).

(** [processMouseMovement(xOffset, yOffset, constrainPitch)]. *)
Definition processMouseMovement (xOffset yOffset : F32.float)
    (constrainPitch : bool) (c : Camera) : Camera :=
  let xOffset := xOffset * mouseSensitivity c in
  let yOffset := yOffset * mouseSensitivity c in
  let yaw := yaw c + xOffset in
  let pitch := pitch c + yOffset in
  let pitch :=
    if constrainPitch then
      let pitch := if pitch >? maxPitch c then maxPitch c else pitch in
      if pitch <? minPitch c then minPitch c else pitch
    else pitch in
  updateCameraVectors (set_orientation yaw pitch c).

(** [setOrientation(newYaw, newPitch)]. *)
Definition setOrientation (newYaw newPitch : F32.float) (c : Camera) : Camera :=
  let pitch := if newPitch >? maxPitch c then maxPitch c else newPitch in
  let pitch := if pitch <? minPitch c then minPitch c else pitch in
  updateCameraVectors (set_orientation newYaw pitch c).

End Libm.

(** [processKeyboard(direction, deltaTime)]. *)
Definition processKeyboard (direction : ascii) (deltaTime : F32.float)
    (c : Camera) : Camera :=
  let velocity := movementSpeed c * deltaTime in
  if Ascii.eqb direction "W" then
    set_position (Vector3.add (position c) (Vector3.scale (front c) velocity)) c
  else if Ascii.eqb direction "S" then
    set_position (Vector3.sub (position c) (Vector3.scale (front c) velocity)) c
  else if Ascii.eqb direction "A" then
    set_position (Vector3.sub (position c) (Vector3.scale (right c) velocity)) c
  else if Ascii.eqb direction "D" then
    set_position (Vector3.add (position c) (Vector3.scale (right c) velocity)) c
  else if Ascii.eqb direction "Q" then
    set_position (Vector3.add (position c) (Vector3.scale (worldUp c) velocity)) c
  else if Ascii.eqb direction "E" then
    set_position (Vector3.sub (position c) (Vector3.scale (worldUp c) velocity)) c
  else c.

(** [processMouseScroll(yOffset)]. *)
Definition processMouseScroll (yOffset : F32.float) (c : Camera) : Camera :=
  let fov := fov c - yOffset in
  let fov := if fov <? Lit.f1 then Lit.f1 else fov in
  let fov := if fov >? Lit.f120 then Lit.f120 else fov in
  set_fov fov c.

Definition getPosition (c : Camera) : Vector3 := position c.
Definition getFront (c : Camera) : Vector3 := front c.
Definition getFOV (c : Camera) : F32.float := fov c.

(** [setFOV(newFOV)]. *)
Definition setFOV (newFOV : F32.float) (c : Camera) : Camera :=
  let fov := newFOV in
  let fov := if fov <? Lit.f1 then Lit.f1 else fov in
  let fov := if fov >? Lit.f120 then Lit.f120 else fov in
  set_fov fov c.

End Camera.

Abbreviation Camera := Camera.Camera.

(** ** Console.h *)

Module Console.

(** The conversion of an [int] to [size_t] in a comparison with
    [size()]. *)
Definition size_t_of_int (z : Z) : Z := z mod 2 ^ 64.

(** [std::to_string] of an integer. *)
Definition to_string (z : Z) : string := NilZero.string_of_int (Z.to_int z).

(** [isspace] in the classic locale. *)
Definition isspace (a : ascii) : bool :=
  let n := nat_of_ascii a in
  ((9 <=? n) && (n <=? 13))%nat || (n =? 32)%nat.

(** [while (iss >> token) tokens.push_back(token)]: each extraction
    skips white space and reads up to the next white space or the end
    of the line; [token] holds the characters read so far. *)
Fixpoint extractTokens (token : string) (s : string) : list string :=
  match s with
  | EmptyString =>
      match token with EmptyString => [] | _ => [token] end
  | String a s' =>
      if isspace a then
        match token with
        | EmptyString => extractTokens EmptyString s'
        | _ => token :: extractTokens EmptyString s'
        end
      else extractTokens (token +:+ String a EmptyString) s'
  end.

(** [parseCommand(commandLine)]. *)
Definition parseCommand (commandLine : string) : list string :=
  extractTokens EmptyString commandLine.

Section Callbacks.

(** The callbacks registered from outside, and the state [Env] that
    they capture besides the console. *)
Variable H : Type.
Variable Env : Type.

(** A value of the map [commands]: one of the three lambdas of the
    constructor, or a callback registered from outside. *)
Inductive Callback : Type :=
| Help
| Clear
| History
| External (h : H).

Record Console : Type := mk {
  history : list string;
  currentInput : string;
  isVisible : bool;
  isActive : bool;
  maxHistorySize : Z;
  historyIndex : Z;
  commands : gmap string Callback;
  outputMessages : list string;
  maxOutputMessages : Z
}.

Definition set_history (v : list string) (c : Console) : Console :=
  mk v (currentInput c) (isVisible c) (isActive c) (maxHistorySize c)
     (historyIndex c) (commands c) (outputMessages c) (maxOutputMessages c).
Definition set_currentInput (v : string) (c : Console) : Console :=
  mk (history c) v (isVisible c) (isActive c) (maxHistorySize c)
     (historyIndex c) (commands c) (outputMessages c) (maxOutputMessages c).
Definition set_historyIndex (v : Z) (c : Console) : Console :=
  mk (history c) (currentInput c) (isVisible c) (isActive c) (maxHistorySize c)
     v (commands c) (outputMessages c) (maxOutputMessages c).
Definition set_commands (v : gmap string Callback) (c : Console) : Console :=
  mk (history c) (currentInput c) (isVisible c) (isActive c) (maxHistorySize c)
     (historyIndex c) v (outputMessages c) (maxOutputMessages c).
Definition set_outputMessages (v : list string) (c : Console) : Console :=
  mk (history c) (currentInput c) (isVisible c) (isActive c) (maxHistorySize c)
     (historyIndex c) (commands c) v (maxOutputMessages c).

(** [addOutput(message)]. *)
Definition addOutput (message : string) (c : Console) : Console :=
  let out := outputMessages c ++ [message] in
  let out :=
    if Z.of_nat (length out) >? size_t_of_int (maxOutputMessages c)
    then drop 1 out else out in
  set_outputMessages out c.

(** [clearOutput()]. *)
Definition clearOutput (c : Console) : Console :=
  addOutput "Console cleared" (set_outputMessages [] c).

(** [registerCommand(command, callback)]. *)
Definition registerCommand (command : string) (callback : Callback)
    (c : Console) : Console :=
  set_commands (<[command := callback]> (commands c)) c.

(** [showHelp()]. *)
Definition showHelp (c : Console) : Console :=
  foldl (fun c message => addOutput message c) c
    ["Available commands:";
     "  summon <number> - Summon the specified number of balls";
     "  clear - Clear console output";
     "  help - Show this help message";
     "  history - Show command history";
     "";
     "Controls:";
     "  WASD - Move camera";
     "  Mouse - Look around";
     "  E - Pick up/drop balls";
     "  F - Throw held ball";
     "  ~ - Toggle console";
     "  ESC - Exit game"].

(** [showHistory()]. *)
Definition showHistory (c : Console) : Console :=
  match history c with
  | [] => addOutput "No command history" c
  | _ =>
      foldl (fun c' i =>
               addOutput ("  " +:+ to_string (Z.of_nat i + 1) +:+ ": "
                          +:+ default EmptyString (history c' !! i)) c')
            (addOutput "Command history:" c)
            (seq 0 (length (history c)))
  end.

(** [Console()]. *)
Definition create : Console :=
  let c := mk [] EmptyString false false 100 (-1) ∅ [] 50 in
  let c := registerCommand "help" Help c in
  let c := registerCommand "clear" Clear c in
  let c := registerCommand "history" History c in
  let c := addOutput "Physics Engine Console" c in
  let c := addOutput "Type 'help' for available commands" c in
  addOutput "Press ~ to toggle console" c.

(** [toggle()] and [setVisible(visible)]. *)
Definition setVisible (visible : bool) (c : Console) : Console :=
  if visible
  then mk (history c) EmptyString true true (maxHistorySize c) (-1)
          (commands c) (outputMessages c) (maxOutputMessages c)
  else mk (history c) (currentInput c) false false (maxHistorySize c)
          (historyIndex c) (commands c) (outputMessages c) (maxOutputMessages c).

Definition toggle (c : Console) : Console := setVisible (negb (isVisible c)) c.

Definition getVisible (c : Console) : bool := isVisible c.
Definition getActive (c : Console) : bool := isActive c.
Definition getCurrentInput (c : Console) : string := currentInput c.
Definition getOutputMessages (c : Console) : list string := outputMessages c.
Definition getHistory (c : Console) : list string := history c.

(** [navigateHistory(direction)].  The index is an [int] and the size
    a [size_t]; the comparisons between them are made where the index
    is not negative. *)
Definition navigateHistory (direction : Z) (c : Console) : Console :=
  match history c with
  | [] => c
  | _ =>
      let size := Z.of_nat (length (history c)) in
      let load (c : Console) : Console :=
        if (0 <=? historyIndex c) && (historyIndex c <? size)
        then set_currentInput
               (default EmptyString (history c !! Z.to_nat (historyIndex c))) c
        else c in
      if direction <? 0 then
        if historyIndex c <? 0 then load (set_historyIndex (size - 1) c)
        else if historyIndex c >? 0 then load (set_historyIndex (historyIndex c - 1) c)
        else load c
      else
        if 0 <=? historyIndex c then
          let c := set_historyIndex (historyIndex c + 1) c in
          if size <=? historyIndex c
          then set_currentInput EmptyString (set_historyIndex (-1) c)
          else load c
        else load c
  end.

(** [processSpecialKey(key)]: 265 and 264 are the arrow keys. *)
Definition processSpecialKey (key : Z) (c : Console) : Console :=
  if negb (isActive c) then c
  else if key =? 265 then navigateHistory (-1) c
  else if key =? 264 then navigateHistory 1 c
  else c.

(** A call of a registered callback: the new state and, when the
    callback throws a [std::exception], its [what()]. *)
Variable external : H -> list string -> Console * Env -> Console * Env * option string.

Definition invoke (callback : Callback) (args : list string) (st : Console * Env)
  : Console * Env * option string :=
  match callback with
  | Help => ((showHelp st.1, st.2), None)
  | Clear => ((clearOutput st.1, st.2), None)
  | History => ((showHistory st.1, st.2), None)
  | External h => external h args st
  end.

(** [executeCommand(commandLine)]. *)
Definition executeCommand (commandLine : string) (st : Console * Env) : Console * Env :=
  match commandLine with
  | EmptyString => st
  | _ =>
      let c := st.1 in
      let c :=
        if bool_decide (history c = []) || negb (bool_decide (last (history c) = Some commandLine))
        then
          let h := history c ++ [commandLine] in
          let h :=
            if Z.of_nat (length h) >? size_t_of_int (maxHistorySize c)
            then drop 1 h else h in
          set_history h c
        else c in
      let c := addOutput ("> " +:+ commandLine) c in
      match parseCommand commandLine with
      | [] => (c, st.2)
      | command :: args =>
          match commands c !! command with
          | Some callback =>
              let '(st', thrown) := invoke callback args (c, st.2) in
              match thrown with
              | Some what => (addOutput ("Error executing command: " +:+ what) st'.1, st'.2)
              | None => st'
              end
          | None =>
              (addOutput "Type 'help' for available commands"
                 (addOutput ("Unknown command: " +:+ command) c), st.2)
          end
      end
  end.

(** [processChar(c)]; the characters 8 and 127 erase, 13 and 10
    execute, 32 to 126 are appended. *)
Definition processChar (ch : ascii) (st : Console * Env) : Console * Env :=
  let n := nat_of_ascii ch in
  if negb (isActive st.1) then st
  else if (n =? 8)%nat || (n =? 127)%nat then
    match currentInput st.1 with
    | EmptyString => st
    | _ =>
        (set_currentInput
           (substring 0 (String.length (currentInput st.1) - 1) (currentInput st.1))
           st.1, st.2)
    end
  else if (n =? 13)%nat || (n =? 10)%nat then
    let st := executeCommand (currentInput st.1) st in
    (set_historyIndex (-1) (set_currentInput EmptyString st.1), st.2)
  else if (32 <=? n)%nat && (n <=? 126)%nat then
    (set_historyIndex (-1)
       (set_currentInput (currentInput st.1 +:+ String ch EmptyString) st.1), st.2)
  else st.

End Callbacks.

End Console.

Arguments Console.Console : clear implicits.
Arguments Console.mk {H}.
Arguments Console.history {H}.
Arguments Console.currentInput {H}.
Arguments Console.isVisible {H}.
Arguments Console.isActive {H}.
Arguments Console.maxHistorySize {H}.
Arguments Console.historyIndex {H}.
Arguments Console.commands {H}.
Arguments Console.outputMessages {H}.
Arguments Console.maxOutputMessages {H}.
Arguments Console.Help {H}.
Arguments Console.Clear {H}.
Arguments Console.History {H}.
Arguments Console.External {H}.
Arguments Console.set_history {H}.
Arguments Console.set_currentInput {H}.
Arguments Console.set_historyIndex {H}.
Arguments Console.set_commands {H}.
Arguments Console.set_outputMessages {H}.
Arguments Console.addOutput {H}.
Arguments Console.clearOutput {H}.
Arguments Console.registerCommand {H}.
Arguments Console.showHelp {H}.
Arguments Console.showHistory {H}.
Arguments Console.create {H}.
Arguments Console.setVisible {H}.
Arguments Console.toggle {H}.
Arguments Console.getVisible {H}.
Arguments Console.getActive {H}.
Arguments Console.getCurrentInput {H}.
Arguments Console.getOutputMessages {H}.
Arguments Console.getHistory {H}.
Arguments Console.navigateHistory {H}.
Arguments Console.processSpecialKey {H}.
Arguments Console.invoke {H Env}.
Arguments Console.executeCommand {H Env}.
Arguments Console.processChar {H Env}.

Abbreviation Console := Console.Console.

(** ** Game.h *)

Module Game.

(** The key codes of GLFW. *)
Definition GLFW_KEY_SPACE : Z := 32.
Definition GLFW_KEY_A : Z := 65.
Definition GLFW_KEY_D : Z := 68.
Definition GLFW_KEY_E : Z := 69.
Definition GLFW_KEY_F : Z := 70.
Definition GLFW_KEY_P : Z := 80.
Definition GLFW_KEY_S : Z := 83.
Definition GLFW_KEY_W : Z := 87.
Definition GLFW_KEY_GRAVE_ACCENT : Z := 96.
Definition GLFW_KEY_ESCAPE : Z := 256.
Definition GLFW_KEY_LEFT_SHIFT : Z := 340.

(** The three lambdas of [setupConsoleCommands]. *)
Inductive Command : Type :=
| Summon
| ClearBalls
| PhysicsInfo.

(** The members of [Game] other than the window and the renderer.
    The console is a separate object, since its callbacks capture the
    game: a state of the program is a pair of a console and a game.
    The last four members are the state of the libraries: the numbers
    of calls of [rand()], of values drawn from [randomGenerator] and
    of calls of [Ball::generateRandomColor], and the static counter
    [Ball::ballCount]. *)
Record Game : Type := mk {
  physicsWorld : PhysicsWorld;
  camera : Camera;
  inputHandler : InputHandler;
  isRunning : bool;
  isPaused : bool;
  heldBall : option nat;
  pickupRange : F32.float;
  throwForce : F32.float;
  deltaTime : F32.float;
  targetFrameTime : F32.float;
  randCalls : nat;
  draws : nat;
  colorCalls : nat;
  ballCount : Z
}.

Definition State : Type := Console Command * Game.

Definition set_physicsWorld (v : PhysicsWorld) (g : Game) : Game :=
  mk v (camera g) (inputHandler g) (isRunning g) (isPaused g) (heldBall g)
     (pickupRange g) (throwForce g) (deltaTime g) (targetFrameTime g)
     (randCalls g) (draws g) (colorCalls g) (ballCount g).
Definition set_camera (v : Camera) (g : Game) : Game :=
  mk (physicsWorld g) v (inputHandler g) (isRunning g) (isPaused g) (heldBall g)
     (pickupRange g) (throwForce g) (deltaTime g) (targetFrameTime g)
     (randCalls g) (draws g) (colorCalls g) (ballCount g).
Definition set_inputHandler (v : InputHandler) (g : Game) : Game :=
  mk (physicsWorld g) (camera g) v (isRunning g) (isPaused g) (heldBall g)
     (pickupRange g) (throwForce g) (deltaTime g) (targetFrameTime g)
     (randCalls g) (draws g) (colorCalls g) (ballCount g).
Definition set_isRunning (v : bool) (g : Game) : Game :=
  mk (physicsWorld g) (camera g) (inputHandler g) v (isPaused g) (heldBall g)
     (pickupRange g) (throwForce g) (deltaTime g) (targetFrameTime g)
     (randCalls g) (draws g) (colorCalls g) (ballCount g).
Definition set_isPaused (v : bool) (g : Game) : Game :=
  mk (physicsWorld g) (camera g) (inputHandler g) (isRunning g) v (heldBall g)
     (pickupRange g) (throwForce g) (deltaTime g) (targetFrameTime g)
     (randCalls g) (draws g) (colorCalls g) (ballCount g).
Definition set_heldBall (v : option nat) (g : Game) : Game :=
  mk (physicsWorld g) (camera g) (inputHandler g) (isRunning g) (isPaused g) v
     (pickupRange g) (throwForce g) (deltaTime g) (targetFrameTime g)
     (randCalls g) (draws g) (colorCalls g) (ballCount g).
Definition set_deltaTime (v : F32.float) (g : Game) : Game :=
  mk (physicsWorld g) (camera g) (inputHandler g) (isRunning g) (isPaused g)
     (heldBall g) (pickupRange g) (throwForce g) v (targetFrameTime g)
     (randCalls g) (draws g) (colorCalls g) (ballCount g).

Local Open Scope f32_scope.

(** A write through a [Ball*]: the ball stored at the index is
    replaced by its image. *)
Definition withBall (ball : nat) (f : Ball -> Ball) (w : PhysicsWorld)
  : PhysicsWorld :=
  match PhysicsWorld.bodies w !! ball with
  | Some (PhysicsWorld.OfBall b) =>
      PhysicsWorld.set_bodies
        (<[ball := PhysicsWorld.OfBall (f b)]> (PhysicsWorld.bodies w)) w
  | _ => w
  end.

(** [findNearestBall()]. *)
Definition findNearestBall (g : Game) : option nat :=
  let cameraPos := Camera.getPosition (camera g) in
  let balls := PhysicsWorld.getBalls (physicsWorld g) in
  (foldl (fun (st : option nat * F32.float) (ball : nat * Ball) =>
            let '(nearestBall, nearestDistance) := st in
            if Ball.isHeld ball.2 then (nearestBall, nearestDistance)
            else
              let distance :=
                Vector3.magnitude
                  (Vector3.sub (PhysicsBody.position (Ball.body ball.2)) cameraPos) in
              if distance <? nearestDistance then (Some ball.1, distance)
              else (nearestBall, nearestDistance))
         (None, pickupRange g) balls).1.

(** [updatePlayer(dt)]. *)
Definition updatePlayer (dt : F32.float) (g : Game) : Game :=
  let g :=
    if InputHandler.wasKeyPressed GLFW_KEY_E (inputHandler g) then
      match heldBall g with
      | Some ball =>
          set_heldBall None
            (set_physicsWorld (withBall ball (Ball.setHeld false) (physicsWorld g)) g)
      | None =>
          match findNearestBall g with
          | Some nearestBall =>
              let g := set_heldBall (Some nearestBall) g in
              set_physicsWorld
                (withBall nearestBall (Ball.setHeld true) (physicsWorld g)) g
          | None => g
          end
      end
    else g in
  if InputHandler.wasKeyPressed GLFW_KEY_F (inputHandler g) then
    match heldBall g with
    | Some ball =>
        let throwVelocity :=
          Vector3.scale (Camera.getFront (camera g)) (throwForce g) in
        set_heldBall None
          (set_physicsWorld
             (withBall ball (Ball.throwBall throwVelocity) (physicsWorld g)) g)
    | None => g
    end
  else g.

Section Libraries.

(** The C library ([rand], [cos], [sin]) and the C++ library: the
    value that the [k]-th draw from [randomGenerator] gives through a
    [uniform_real_distribution<float>(a, b)], and the colour that the
    [k]-th call of [Ball::generateRandomColor] produces. *)
Variable RAND_MAX : Z.
Variable rand : nat -> Z.
Variable cos : F64.float -> F64.float.
Variable sin : F64.float -> F64.float.
Variable uniform : nat -> F32.float -> F32.float -> F32.float.
Variable randomColor : nat -> Vector3.

(** The callback registered for [physics_info]; its body is not
    embedded. *)
Variable physicsInfo : list string -> State -> State * option string.

(** [updateCamera(dt)]. *)
Definition updateCamera (dt : F32.float) (st : State) : Game :=
  let g := st.2 in
  if Console.getActive st.1 then g
  else
    let move (key : Z) (direction : ascii) (g : Game) : Game :=
      if InputHandler.isKeyPressed key (inputHandler g)
      then set_camera (Camera.processKeyboard direction dt (camera g)) g
      else g in
    let g := move GLFW_KEY_W "W"%char g in
    let g := move GLFW_KEY_S "S"%char g in
    let g := move GLFW_KEY_A "A"%char g in
    let g := move GLFW_KEY_D "D"%char g in
    let g := move GLFW_KEY_SPACE "Q"%char g in
    let g := move GLFW_KEY_LEFT_SHIFT "E"%char g in
    if InputHandler.isMouseGrabbed (inputHandler g) then
      let '(deltaX, deltaY) := InputHandler.getMouseDelta (inputHandler g) in
      set_camera
        (Camera.processMouseMovement cos sin (F64.to_f32 deltaX) (F64.to_f32 deltaY)
           true (camera g)) g
    else g.

(** [update(dt)]. *)
Definition update (dt : F32.float) (st : State) : Game :=
  let g := st.2 in
  if isPaused g then g
  else
    let g := updateCamera dt st in
    let g := updatePlayer dt g in
    let ws := PhysicsWorld.update RAND_MAX rand dt (physicsWorld g, randCalls g) in
    let g := mk ws.1 (camera g) (inputHandler g) (isRunning g) (isPaused g)
                (heldBall g) (pickupRange g) (throwForce g) (deltaTime g)
                (targetFrameTime g) ws.2 (draws g) (colorCalls g) (ballCount g) in
    match heldBall g with
    | Some ball =>
        let cameraPos := Camera.getPosition (camera g) in
        let cameraFront := Camera.getFront (camera g) in
        set_physicsWorld
          (withBall ball
             (fun b =>
                Ball.set_body
                  (PhysicsBody.set_position
                     (Vector3.add cameraPos (Vector3.scale cameraFront Lit.f2))
                     (Ball.body b)) b)
             (physicsWorld g)) g
    | None => g
    end.

(** One turn of the loop of [summonBalls].  The three arguments of
    the position and the two of the velocity are drawn from left to
    right; C++ leaves their order open. *)
Definition summonBall (cameraPos : Vector3) (g : Game) : Game :=
  let k := draws g in
  let position :=
    Vector3.mk
      (Vector3.x cameraPos + uniform k (- Lit.f5) Lit.f5)
      (uniform (k + 1) Lit.f2 Lit.f8)
      (Vector3.z cameraPos + uniform (k + 2) (- Lit.f5) Lit.f5) in
  let id := (ballCount g + 1)%Z in
  let col := randomColor (colorCalls g) in
  let ball := length (PhysicsWorld.bodies (physicsWorld g)) in
  let w := PhysicsWorld.createBall position col id (physicsWorld g) in
  let velocity :=
    Vector3.mk (uniform (k + 3) (- Lit.f2) Lit.f2) F32.zero
               (uniform (k + 4) (- Lit.f2) Lit.f2) in
  let w :=
    withBall ball
      (fun b => Ball.set_body (PhysicsBody.set_velocity velocity (Ball.body b)) b) w in
  mk w (camera g) (inputHandler g) (isRunning g) (isPaused g) (heldBall g)
     (pickupRange g) (throwForce g) (deltaTime g) (targetFrameTime g)
     (randCalls g) (k + 5) (S (colorCalls g)) id.

(** [summonBalls(count)]. *)
Definition summonBalls (count : Z) (g : Game) : Game :=
  let cameraPos := Camera.getPosition (camera g) in
  Nat.iter (Z.to_nat count) (summonBall cameraPos) g.

(** [std::stoi(str)]: white space, an optional sign, then decimal
    digits; [None] stands for the exception thrown when there is no
    digit or when the value is not an [int]. *)
Definition isdigit (a : ascii) : bool :=
  let n := nat_of_ascii a in ((48 <=? n) && (n <=? 57))%nat.

Fixpoint skipSpaces (s : string) : string :=
  match s with
  | String a s' => if Console.isspace a then skipSpaces s' else s
  | EmptyString => s
  end.

Fixpoint readDigits (acc : Z) (s : string) : Z :=
  match s with
  | String a s' =>
      if isdigit a then readDigits (10 * acc + (Z.of_nat (nat_of_ascii a) - 48))%Z s'
      else acc
  | EmptyString => acc
  end.

Definition stoi (str : string) : option Z :=
  let s := skipSpaces str in
  let '(negative, s) :=
    match s with
    | String "-"%char s' => (true, s')
    | String "+"%char s' => (false, s')
    | _ => (false, s)
    end in
  match s with
  | String a _ =>
      if isdigit a then
        let v := readDigits 0 s in
        let v := if negative then (- v)%Z else v in
        if ((- 2 ^ 31 <=? v) && (v <=? 2 ^ 31 - 1))%Z then Some v else None
      else None
  | EmptyString => None
  end.

(** The lambda registered for [summon]. *)
Definition summonCommand (args : list string) (st : State) : State :=
  match args with
  | [] => (Console.addOutput "Usage: summon <number>" st.1, st.2)
  | arg :: _ =>
      match stoi arg with
      | Some count =>
          if (count <=? 0)%Z then
            (Console.addOutput "Number must be positive" st.1, st.2)
          else if (count >? 100)%Z then
            (Console.addOutput "Maximum 100 balls at once" st.1, st.2)
          else
            (Console.addOutput
               ("Summoned " +:+ Console.to_string count +:+ " balls") st.1,
             summonBalls count st.2)
      | None => (Console.addOutput ("Invalid number: " +:+ arg) st.1, st.2)
      end
  end.

(** The lambda registered for [clear_balls]. *)
Definition clearBallsCommand (args : list string) (st : State) : State :=
  (Console.addOutput "Cleared all balls" st.1,
   set_heldBall None (set_physicsWorld (PhysicsWorld.clear (physicsWorld st.2)) st.2)).

(** What the console calls for a registered command. *)
Definition command (h : Command) (args : list string) (st : State)
  : State * option string :=
  match h with
  | Summon => (summonCommand args st, None)
  | ClearBalls => (clearBallsCommand args st, None)
  | PhysicsInfo => physicsInfo args st
  end.

(** The key callback of [setupInputCallbacks]. *)
Definition keyCallback (key scancode action mods : Z) (st : State) : State :=
  if (action =? InputHandler.GLFW_PRESS)%Z then
    if (key =? GLFW_KEY_ESCAPE)%Z then (st.1, set_isRunning false st.2)
    else if (key =? GLFW_KEY_GRAVE_ACCENT)%Z then
      let console := Console.toggle st.1 in
      let h := InputHandler.setMouseGrab (negb (Console.getActive console))
                 (inputHandler st.2) in
      let h := if Console.getActive console then InputHandler.resetMouseDelta h else h in
      (console, set_inputHandler h st.2)
    else if (key =? GLFW_KEY_P)%Z then (st.1, set_isPaused (negb (isPaused st.2)) st.2)
    else st
  else st.

(** The scroll callback of [setupInputCallbacks]. *)
Definition scrollCallback (xoffset yoffset : F64.float) (st : State) : State :=
  if negb (Console.getActive st.1)
  then (st.1, set_camera (Camera.processMouseScroll (F64.to_f32 yoffset) (camera st.2)) st.2)
  else st.

(** What [glfwPollEvents] delivers to the static callbacks. *)
Inductive Event : Type :=
| KeyEvent (key scancode action mods : Z)
| CursorPosEvent (xpos ypos : F64.float)
| MouseButtonEvent (button action mods : Z)
| ScrollEvent (xoffset yoffset : F64.float).

(** One event: the [...Impl] function of the input handler, which
    ends by calling the callback that the game has stored (none for
    the cursor position and the mouse buttons). *)
Definition dispatch (st : State) (e : Event) : State :=
  match e with
  | KeyEvent key scancode action mods =>
      keyCallback key scancode action mods
        (st.1, set_inputHandler
                 (InputHandler.keyCallbackImpl key scancode action mods (inputHandler st.2))
                 st.2)
  | CursorPosEvent xpos ypos =>
      (st.1, set_inputHandler
               (InputHandler.mouseCallbackImpl xpos ypos (inputHandler st.2)) st.2)
  | MouseButtonEvent _ _ _ => st
  | ScrollEvent xoffset yoffset => scrollCallback xoffset yoffset st
  end.

(** One turn of the loop of [Run]: [elapsed] is the time measured
    since the last frame, [events] what [glfwPollEvents] delivers.
    Rendering reads the state and does not change it. *)
Definition frame (elapsed : F32.float) (events : list Event) (st : State) : State :=
  let dt := if elapsed >? Lit.f0_1 then Lit.f0_1 else elapsed in
  let st := (st.1, set_deltaTime dt st.2) in
  let st := foldl dispatch st events in
  let st := (st.1, set_inputHandler (InputHandler.update (inputHandler st.2)) st.2) in
  (st.1, update dt st).

(** The loop of [Run] over the frames that have happened so far; each
    comes with the value of [glfwWindowShouldClose] at its start. *)
Fixpoint runLoop (frames : list (bool * F32.float * list Event)) (st : State) : State :=
  match frames with
  | [] => st
  | (shouldClose, elapsed, events) :: frames' =>
      if isRunning st.2 && negb shouldClose
      then runLoop frames' (frame elapsed events st)
      else st
  end.

Definition Run (frames : list (bool * F32.float * list Event)) (st : State) : State :=
  runLoop frames (st.1, set_isRunning true st.2).

(** [Game()] followed by a successful [Initialize()]. *)
Definition Initialize : State :=
  let camera :=
    Camera.create cos sin (Vector3.mk F32.zero Lit.f3 Lit.f8)
      (Vector3.mk F32.zero F32.one F32.zero) (- Lit.f90) F32.zero in
  let console := Console.create in
  let h := InputHandler.setMouseGrab true InputHandler.create in
  let console := Console.registerCommand "summon" (Console.External Summon) console in
  let console := Console.registerCommand "clear_balls" (Console.External ClearBalls) console in
  let console := Console.registerCommand "physics_info" (Console.External PhysicsInfo) console in
  let g := mk PhysicsWorld.create camera h false false None
              Lit.f3 Lit.f15 F32.zero (F32.one / Lit.f60) 0 0 0 0 in
  (console, summonBalls 5 g).

End Libraries.

End Game.

Abbreviation Game := Game.Game.

(** * Properties *)

(** ** binary32: zeros, finite values and NaN *)

Module F32Facts.

Import F32.
Local Open Scope f32_scope.

(** *** Rounding never invents a NaN *)

Lemma iter_pos_invariant {A : Type} (P : A -> Prop) (f : A -> A) :
  (forall a, P a -> P (f a)) ->
  forall (n : positive) (a : A), P a -> P (SpecFloat.iter_pos f n a).
Proof.
  intros Hf. induction n as [n IH|n IH|]; intros a Ha; simpl; auto.
Qed.

Lemma shr_1_nonneg (mrs : shr_record) : 0 <= shr_m mrs -> 0 <= shr_m (shr_1 mrs).
Proof.
  destruct mrs as [m r s]. simpl.
  destruct m as [|[p|p|]|p]; simpl; lia.
Qed.

Lemma shr_record_of_loc_m (m : Z) (l : location) :
  shr_m (shr_record_of_loc m l) = m.
Proof. destruct l as [|[| |]]; reflexivity. Qed.

Lemma shr_fexp_nonneg (m e : Z) (l : location) :
  0 <= m -> 0 <= shr_m (fst (shr_fexp prec emax m e l)).
Proof.
  intros Hm. unfold shr_fexp, shr.
  destruct (fexp prec emax (Zdigits2 m + e) - e)%Z as [|p|p]; simpl;
    try (rewrite shr_record_of_loc_m; exact Hm).
  apply (iter_pos_invariant (fun r => 0 <= shr_m r)).
  - exact shr_1_nonneg.
  - rewrite shr_record_of_loc_m. exact Hm.
Qed.

Lemma round_nearest_even_nonneg (m : Z) (l : location) :
  0 <= m -> 0 <= round_nearest_even m l.
Proof.
  intros Hm. destruct l as [|[| |]]; simpl; try lia.
  destruct (Z.even m); lia.
Qed.

Lemma binary_round_aux_not_nan (s : bool) (m e : Z) (l : location) :
  0 <= m -> is_nan (binary_round_aux prec emax s m e l) = false.
Proof.
  intros Hm. unfold binary_round_aux.
  pose proof (shr_fexp_nonneg m e l Hm) as H1.
  destruct (shr_fexp prec emax m e l) as [mrs' e'] eqn:E1. simpl in H1.
  pose proof (shr_fexp_nonneg
                (round_nearest_even (shr_m mrs') (loc_of_shr_record mrs'))
                e' loc_Exact (round_nearest_even_nonneg _ _ H1)) as H2.
  destruct (shr_fexp prec emax _ e' loc_Exact) as [mrs'' e''] eqn:E2.
  simpl in H2.
  destruct (shr_m mrs'') as [|p|p]; [reflexivity| |lia].
  destruct (e'' <=? emax - prec)%Z; reflexivity.
Qed.

Lemma binary_normalize_not_nan (m e : Z) (s : bool) :
  is_nan (binary_normalize prec emax m e s) = false.
Proof.
  destruct m as [|p|p]; simpl; [reflexivity| |];
    unfold binary_round;
    destruct (shl_align _ _ _) as [mz ez];
    apply binary_round_aux_not_nan; lia.
Qed.

Lemma add_finite_not_nan (a b : float) :
  is_finite a = true -> is_finite b = true -> is_nan (a + b) = false.
Proof.
  destruct a as [sa|sa| |sa ma ea], b as [sb|sb| |sb mb eb];
    try discriminate; intros _ _.
  - destruct sa, sb; reflexivity.
  - reflexivity.
  - reflexivity.
  - apply binary_normalize_not_nan.
Qed.

Lemma sub_finite_not_nan (a b : float) :
  is_finite a = true -> is_finite b = true -> is_nan (a - b) = false.
Proof.
  destruct a as [sa|sa| |sa ma ea], b as [sb|sb| |sb mb eb];
    try discriminate; intros _ _.
  - destruct sa, sb; reflexivity.
  - reflexivity.
  - reflexivity.
  - apply binary_normalize_not_nan.
Qed.

(** *** Comparisons with zero *)

Lemma leb_zero_not_gtb (a : float) :
  (a <=? zero) = true -> (a >? zero) = false.
Proof. destruct a as [s|s| |s m e]; try destruct s; vm_compute; congruence. Qed.

(** *** Arithmetic with a zero operand *)

Lemma finite_not_nan (a : float) : is_finite a = true -> is_nan a = false.
Proof. destruct a; simpl; congruence. Qed.

Lemma zero_finite (a : float) : is_zero a = true -> is_finite a = true.
Proof. destruct a; simpl; congruence. Qed.

Lemma opp_finite (a : float) : is_finite (- a) = is_finite a.
Proof. destruct a; reflexivity. Qed.

Lemma mul_zero_r (a z : float) :
  is_finite a = true -> is_zero z = true -> is_zero (a * z) = true.
Proof. destruct a, z; simpl; congruence. Qed.

Lemma mul_zero_l (z a : float) :
  is_zero z = true -> is_finite a = true -> is_zero (z * a) = true.
Proof. destruct a, z; simpl; congruence. Qed.

Lemma add_zero_zero (a b : float) :
  is_zero a = true -> is_zero b = true -> is_zero (a + b) = true.
Proof. destruct a as [[]| | |], b as [[]| | |]; simpl; congruence. Qed.

Lemma add_zero_r (a z : float) :
  is_finite a = true -> is_zero z = true -> is_finite (a + z) = true.
Proof. destruct a as [[]| | |], z as [[]| | |]; simpl; congruence. Qed.

Lemma sub_zero_r (a z : float) :
  is_finite a = true -> is_zero z = true -> is_finite (a - z) = true.
Proof. destruct a as [[]| | |], z as [[]| | |]; simpl; congruence. Qed.

(** A zero divided by a positive number or by [+inf] is a zero. *)
Lemma div_zero_pos (z d : float) :
  is_zero z = true -> (zero <? d) = true -> is_zero (z / d) = true.
Proof.
  destruct z as [sz| | |]; try discriminate. intros _.
  destruct d as [sd|[]| |[] md ed]; unfold ltb, zero, div, SFltb; simpl; congruence.
Qed.

(** A zero divided by anything but a zero or a NaN is a zero. *)
Lemma div_zero_nonzero (z d : float) :
  is_zero z = true -> is_zero d = false -> is_nan d = false ->
  is_zero (z / d) = true.
Proof.
  destruct z as [sz| | |]; try discriminate. intros _.
  destruct d as [sd|sd| |sd md ed]; simpl; congruence.
Qed.

(** When [1 / m] is finite, [m] is neither zero nor NaN, and a zero
    divided by [m] is a zero. *)
Lemma div_zero_inv_finite (z m : float) :
  is_zero z = true -> is_finite (one / m) = true -> is_zero (z / m) = true.
Proof.
  destruct z as [sz| | |]; try discriminate. intros _.
  destruct m as [sm|sm| |sm mm em]; unfold one; simpl; intros H;
    first [discriminate H | reflexivity].
Qed.

Lemma gtb_zero_of_zero (z : float) : is_zero z = true -> (z >? zero) = false.
Proof. destruct z; simpl; try discriminate. reflexivity. Qed.

(** A finite value minus itself is [+0]. *)
Lemma sub_diag (a : float) : is_finite a = true -> a - a = zero.
Proof.
  destruct a as [[]| | |s m e]; try discriminate; intros _; try reflexivity.
  unfold sub, SFsub. rewrite Z.min_id.
  unfold shl_align. rewrite Z.sub_diag. reflexivity.
Qed.

(** If a difference is finite, both operands are. *)
Lemma sub_finite_operands (a b : float) :
  is_finite (a - b) = true -> is_finite a = true /\ is_finite b = true.
Proof.
  destruct a as [[]|[]| |], b as [[]|[]| |]; simpl; intros H;
    try discriminate; auto.
Qed.

End F32Facts.

(** ** binary32: rounding of positive significands

    [SFsub] on two finite numbers aligns the significands, subtracts
    them as integers and rounds the result with [binary_round].  The
    lemmas below bound that rounding from below: the result is never
    smaller than the exact integer cut down to its 24 leading bits. *)

Module Rounding.

Lemma digits2_pos_size (p : positive) : digits2_pos p = Pos.size p.
Proof. induction p as [p IH|p IH|]; simpl; congruence. Qed.

Lemma digits2_log2 (p : positive) : Z.pos (digits2_pos p) = Z.log2 (Z.pos p) + 1.
Proof.
  rewrite digits2_pos_size.
  destruct p as [p|p|]; simpl; lia.
Qed.

(** [2^(d-1) <= p < 2^d] for [d] the number of binary digits of [p]. *)
Lemma digits2_bounds (p : positive) :
  2 ^ (Z.pos (digits2_pos p) - 1) <= Z.pos p < 2 ^ Z.pos (digits2_pos p).
Proof.
  rewrite digits2_log2.
  replace (Z.log2 (Z.pos p) + 1 - 1) with (Z.log2 (Z.pos p)) by lia.
  replace (Z.log2 (Z.pos p) + 1) with (Z.succ (Z.log2 (Z.pos p))) by lia.
  apply Z.log2_spec. lia.
Qed.

Lemma digits2_unique (p : positive) (d : Z) :
  2 ^ (d - 1) <= Z.pos p < 2 ^ d -> Z.pos (digits2_pos p) = d.
Proof.
  intros H. rewrite digits2_log2.
  assert (0 < d).
  { destruct (Z_lt_le_dec 0 d) as [|Hd]; [assumption|].
    destruct H as [_ H]. destruct d; try lia. 
    rewrite Z.pow_neg_r in H by lia. lia. }
  rewrite (Z.log2_unique (Z.pos p) (d - 1)); [lia|lia|].
  replace (Z.succ (d - 1)) with d by lia. exact H.
Qed.

Lemma shr_1_div2 (r : shr_record) : 0 <= shr_m r -> shr_m (shr_1 r) = shr_m r / 2.
Proof.
  destruct r as [m rr ss]. simpl. intros Hm.
  destruct m as [|[p|p|]|p]; try lia; simpl.
  - reflexivity.
  - rewrite Pos2Z.inj_xI. apply (Z.div_unique _ _ _ 1); lia.
  - rewrite Pos2Z.inj_xO. apply (Z.div_unique _ _ _ 0); lia.
  - reflexivity.
Qed.

Lemma iter_shr_1_nonneg (p : positive) (r : shr_record) :
  0 <= shr_m r -> 0 <= shr_m (SpecFloat.iter_pos shr_1 p r).
Proof.
  apply (F32Facts.iter_pos_invariant (fun r => 0 <= shr_m r)).
  exact F32Facts.shr_1_nonneg.
Qed.

Lemma iter_shr_1_div (p : positive) :
  forall r : shr_record,
    0 <= shr_m r -> shr_m (SpecFloat.iter_pos shr_1 p r) = shr_m r / 2 ^ Z.pos p.
Proof.
  induction p as [p IH|p IH|]; intros r Hr; simpl SpecFloat.iter_pos.
  - rewrite IH by (apply iter_shr_1_nonneg, F32Facts.shr_1_nonneg, Hr).
    rewrite IH by (apply F32Facts.shr_1_nonneg, Hr).
    rewrite shr_1_div2 by exact Hr.
    rewrite !Z.div_div by lia.
    f_equal. rewrite <- Z.pow_add_r by lia.
    rewrite <- (Z.pow_succ_r 2) by lia. f_equal. lia.
  - rewrite IH by (apply iter_shr_1_nonneg, Hr).
    rewrite IH by exact Hr.
    rewrite Z.div_div by lia.
    f_equal. rewrite <- Z.pow_add_r by lia. f_equal. lia.
  - rewrite shr_1_div2 by exact Hr. reflexivity.
Qed.

Lemma fexp_normal (x : Z) : -125 <= x -> fexp 24 128 x = x - 24.
Proof. intros H. unfold fexp, emin. lia. Qed.

Lemma round_nearest_even_bounds (q : Z) (l : location) :
  q <= round_nearest_even q l <= q + 1.
Proof.
  destruct l as [|[| |]]; simpl; try lia. destruct (Z.even q); lia.
Qed.

Lemma shr_fexp_exact_id (m : positive) (e : Z) :
  Z.pos (digits2_pos m) = 24 -> -149 <= e ->
  shr_fexp 24 128 (Z.pos m) e loc_Exact
  = ({| shr_m := Z.pos m; shr_r := false; shr_s := false |}, e).
Proof.
  intros Hd He. unfold shr_fexp. cbn [Zdigits2]. rewrite Hd.
  rewrite fexp_normal by lia.
  replace (24 + e - 24 - e) with 0 by lia. reflexivity.
Qed.

(** The result of rounding an integer significand of at least 24 bits:
    an infinity, or a normal number whose magnitude is not below the
    significand cut down to its 24 leading bits. *)
Lemma binary_round_lower (s : bool) (M : positive) (e : Z) :
  24 <= Z.pos (digits2_pos M) -> -149 <= e ->
  binary_round 24 128 s M e = S754_infinity s
  \/ exists (m' : positive) (e' : Z),
       binary_round 24 128 s M e = S754_finite s m' e'
       /\ Z.pos (digits2_pos m') = 24
       /\ e <= e'
       /\ Z.pos M / 2 ^ (Z.pos (digits2_pos M) - 24)
          * 2 ^ (Z.pos (digits2_pos M) - 24) <= Z.pos m' * 2 ^ (e' - e).
Proof.
  intros Hd He.
  set (d := Z.pos (digits2_pos M)) in *.
  set (sh := d - 24).
  pose proof (digits2_bounds M) as HM. fold d in HM.
  unfold binary_round. fold d.
  rewrite fexp_normal by lia.
  assert (Hal : shl_align M e (d + e - 24) = (M, e)).
  { unfold shl_align. replace (d + e - 24 - e) with sh by lia.
    destruct sh eqn:Es; try reflexivity. lia. }
  rewrite Hal. unfold binary_round_aux.
  destruct (Z.eq_dec sh 0) as [Hs0|Hs0].
  - (* exactly 24 bits: nothing is shifted out *)
    assert (Hd24 : Z.pos (digits2_pos M) = 24) by (fold d; lia).
    rewrite (shr_fexp_exact_id M e Hd24 He). cbn [shr_m loc_of_shr_record round_nearest_even].
    rewrite (shr_fexp_exact_id M e Hd24 He). cbn [shr_m].
    destruct (e <=? 128 - 24) eqn:El; [right | left; reflexivity].
    exists M, e. repeat split; try assumption; try lia.
    rewrite Hs0, Z.sub_diag. simpl. rewrite Z.div_1_r. lia.
  - assert (Hs : 0 < sh) by lia.
    destruct sh as [|p|p] eqn:Es; try lia.
    assert (Hshr : shr_fexp 24 128 (Z.pos M) e loc_Exact
                   = (SpecFloat.iter_pos shr_1 p
                        {| shr_m := Z.pos M; shr_r := false; shr_s := false |},
                      e + Z.pos p)).
    { unfold shr_fexp. cbn [Zdigits2]. fold d. rewrite fexp_normal by lia.
      replace (d + e - 24 - e) with (Z.pos p) by lia. reflexivity. }
    rewrite Hshr.
    set (mrs := SpecFloat.iter_pos shr_1 p _).
    assert (Hq : shr_m mrs = Z.pos M / 2 ^ Z.pos p)
      by (unfold mrs; rewrite iter_shr_1_div by (simpl; lia); reflexivity).
    set (q := Z.pos M / 2 ^ Z.pos p) in *.
    assert (Hpow : 2 ^ d = 2 ^ Z.pos p * 2 ^ 24).
    { rewrite <- Z.pow_add_r by lia. f_equal. lia. }
    assert (Hpow1 : 2 ^ (d - 1) = 2 ^ Z.pos p * 2 ^ 23).
    { rewrite <- Z.pow_add_r by lia. f_equal. lia. }
    assert (H2p : 0 < 2 ^ Z.pos p) by (apply Z.pow_pos_nonneg; lia).
    assert (E23 : 2 ^ 23 = 8388608) by reflexivity.
    assert (E24 : 2 ^ 24 = 16777216) by reflexivity.
    assert (Hqb : 2 ^ 23 <= q < 2 ^ 24).
    { unfold q. split.
      - apply Z.div_le_lower_bound; lia.
      - apply Z.div_lt_upper_bound; lia. }
    pose proof (round_nearest_even_bounds (shr_m mrs) (loc_of_shr_record mrs)) as Hr.
    set (q' := round_nearest_even (shr_m mrs) (loc_of_shr_record mrs)) in *.
    rewrite Hq in Hr.
    assert (Hq'pos : 0 < q') by lia.
    destruct q' as [|pq|pq] eqn:Eq'; try lia.
    assert (Hmul : q * 2 ^ Z.pos p <= Z.pos pq * 2 ^ Z.pos p) by nia.
    destruct (Z_lt_le_dec (Z.pos pq) (2 ^ 24)) as [Hlt|Hge].
    + assert (Hd' : Z.pos (digits2_pos pq) = 24)
        by (apply digits2_unique; change (24 - 1) with 23; lia).
      rewrite (shr_fexp_exact_id pq (e + Z.pos p) Hd') by lia. cbn [shr_m].
      destruct (e + Z.pos p <=? 128 - 24) eqn:El; [right | left; reflexivity].
      exists pq, (e + Z.pos p). repeat split; try assumption; try lia.
      replace (e + Z.pos p - e) with (Z.pos p) by lia. exact Hmul.
    + assert (Hpq : Z.pos pq = 2 ^ 24) by lia.
      assert (Epq : pq = 16777216%positive) by lia.
      subst pq.
      assert (Hshr2 : shr_fexp 24 128 16777216 (e + Z.pos p) loc_Exact
                      = ({| shr_m := 8388608; shr_r := false; shr_s := false |},
                         e + Z.pos p + 1)).
      { unfold shr_fexp. change (Zdigits2 16777216) with 25.
        rewrite fexp_normal by lia.
        replace (25 + (e + Z.pos p) - 24 - (e + Z.pos p)) with 1 by lia.
        reflexivity. }
      rewrite Hshr2. cbn [shr_m].
      destruct (e + Z.pos p + 1 <=? 128 - 24) eqn:El; [right | left; reflexivity].
      exists 8388608%positive, (e + Z.pos p + 1).
      split; [reflexivity|]. split; [reflexivity|]. split; [lia|].
      replace (e + Z.pos p + 1 - e) with (Z.succ (Z.pos p)) by lia.
      rewrite Z.pow_succ_r by lia. lia.
Qed.

Lemma iter_xO_pow (m d : positive) : Z.pos (Pos.iter xO m d) = Z.pos m * 2 ^ Z.pos d.
Proof.
  induction d as [|d IH] using Pos.peano_ind.
  - simpl. lia.
  - rewrite Pos.iter_succ, Pos2Z.inj_xO, IH, Pos2Z.inj_succ, Z.pow_succ_r by lia. lia.
Qed.

(** A positive integer cut down to its 24 leading bits. *)
Definition leading24 (M : Z) : Z :=
  M / 2 ^ (Z.log2 M + 1 - 24) * 2 ^ (Z.log2 M + 1 - 24).

Lemma leading24_mono (M1 M2 : Z) :
  2 ^ 23 <= M1 -> M1 <= M2 -> leading24 M1 <= leading24 M2.
Proof.
  intros H1 H12. unfold leading24.
  assert (E23 : 2 ^ 23 = 8388608) by reflexivity.
  assert (Hl1 : 23 <= Z.log2 M1).
  { rewrite <- (Z.log2_pow2 23) by lia. apply Z.log2_le_mono. lia. }
  assert (Hl : Z.log2 M1 <= Z.log2 M2) by (apply Z.log2_le_mono; lia).
  set (s1 := Z.log2 M1 + 1 - 24). set (s2 := Z.log2 M2 + 1 - 24).
  assert (Hp1 : 0 < 2 ^ s1) by (apply Z.pow_pos_nonneg; lia).
  assert (Hp2 : 0 < 2 ^ s2) by (apply Z.pow_pos_nonneg; lia).
  destruct (Z.eq_dec s1 s2) as [E|NE].
  - rewrite <- E. apply Z.mul_le_mono_nonneg_r; [lia|].
    apply Z.div_le_mono; lia.
  - assert (Hlt : Z.log2 M1 < Z.log2 M2) by lia.
    pose proof (Z.log2_spec M1 ltac:(lia)) as [_ Hu1].
    pose proof (Z.log2_spec M2 ltac:(lia)) as [Hl2 _].
    assert (Hmid : 2 ^ Z.succ (Z.log2 M1) <= 2 ^ Z.log2 M2)
      by (apply Z.pow_le_mono_r; lia).
    assert (Hdec : 2 ^ Z.log2 M2 = 2 ^ 23 * 2 ^ s2).
    { rewrite <- Z.pow_add_r by lia. f_equal. lia. }
    assert (Hq2 : 2 ^ 23 <= M2 / 2 ^ s2).
    { apply Z.div_le_lower_bound; lia. }
    pose proof (Z.mul_div_le M1 (2 ^ s1) Hp1) as Hle1.
    nia.
Qed.

Lemma leading24_digits (M : positive) :
  leading24 (Z.pos M)
  = Z.pos M / 2 ^ (Z.pos (digits2_pos M) - 24) * 2 ^ (Z.pos (digits2_pos M) - 24).
Proof. unfold leading24. rewrite digits2_log2. reflexivity. Qed.

Lemma shl_align_down (m : positive) (e e' : Z) :
  e' <= e -> Z.pos (shl_align m e e').1 = Z.pos m * 2 ^ (e - e').
Proof.
  intros H. unfold shl_align.
  destruct (e' - e) as [|d|d] eqn:E; cbn [fst].
  - replace (e - e') with 0 by lia. lia.
  - lia.
  - rewrite iter_xO_pow. f_equal. f_equal. lia.
Qed.

Lemma fexp_subnormal (x : Z) : x <= -125 -> fexp 24 128 x = -149.
Proof. intros H. unfold fexp, emin. lia. Qed.

(** A significand of at most 24 bits at the least exponent is kept as
    it is. *)
Lemma shr_fexp_exact_low (m : positive) :
  Z.pos (digits2_pos m) <= 24 ->
  shr_fexp 24 128 (Z.pos m) (-149) loc_Exact
  = ({| shr_m := Z.pos m; shr_r := false; shr_s := false |}, -149).
Proof.
  intros Hd. unfold shr_fexp. cbn [Zdigits2].
  rewrite fexp_subnormal by lia. reflexivity.
Qed.

(** Rounding a non-zero significand whose exponent is at least the
    least one never gives a zero: the result is an infinity or a finite
    non-zero number, of the same sign. *)
Lemma binary_round_nonzero (s : bool) (M : positive) (e : Z) :
  -149 <= e ->
  binary_round 24 128 s M e = S754_infinity s
  \/ exists (m' : positive) (e' : Z),
       binary_round 24 128 s M e = S754_finite s m' e'.
Proof.
  intros He.
  set (d := Z.pos (digits2_pos M)).
  pose proof (digits2_bounds M) as HM. fold d in HM.
  assert (Hd0 : 0 < d) by (unfold d; lia).
  destruct (Z_lt_le_dec d 24) as [Hlt|Hge].
  - destruct (Z_lt_le_dec (d + e) (-125)) as [Hsub|Hnor].
    + (* the result is subnormal and exact *)
      unfold binary_round. fold d. rewrite fexp_subnormal by lia.
      assert (Hal : exists mz, shl_align M e (-149) = (mz, -149)
                               /\ Z.pos mz = Z.pos M * 2 ^ (e + 149)).
      { unfold shl_align. destruct (-149 - e) as [|k|k] eqn:Ek; try lia.
        - exists M. replace e with (-149) by lia. split; [reflexivity|]. simpl. lia.
        - exists (Pos.iter xO M k). split; [reflexivity|].
          rewrite iter_xO_pow. f_equal. f_equal. lia. }
      destruct Hal as (mz & -> & Hmz).
      assert (Hdz : Z.pos (digits2_pos mz) <= 24).
      { pose proof (digits2_bounds mz) as [Hl _].
        assert (Hu : Z.pos mz < 2 ^ 24).
        { rewrite Hmz.
          assert (0 < 2 ^ (e + 149)) by (apply Z.pow_pos_nonneg; lia).
          assert (2 ^ d * 2 ^ (e + 149) <= 2 ^ 24).
          { rewrite <- Z.pow_add_r by lia. apply Z.pow_le_mono_r; lia. }
          nia. }
        destruct (Z_lt_le_dec 24 (Z.pos (digits2_pos mz))) as [Hbig|]; [|assumption].
        assert (2 ^ 24 <= 2 ^ (Z.pos (digits2_pos mz) - 1))
          by (apply Z.pow_le_mono_r; lia).
        lia. }
      unfold binary_round_aux.
      rewrite (shr_fexp_exact_low mz Hdz).
      cbn [shr_m loc_of_shr_record round_nearest_even].
      rewrite (shr_fexp_exact_low mz Hdz). cbn [shr_m].
      right. eauto.
    + (* the significand is shifted up to 24 bits, exactly *)
      unfold binary_round. fold d. rewrite fexp_normal by lia.
      unfold shl_align.
      destruct (d + e - 24 - e) as [|k|k] eqn:Ek; try lia.
      set (mz := Pos.iter xO M k).
      assert (Hmz : Z.pos mz = Z.pos M * 2 ^ Z.pos k) by apply iter_xO_pow.
      assert (Hdz : Z.pos (digits2_pos mz) = 24).
      { apply digits2_unique. rewrite Hmz.
        assert (E1 : 2 ^ (24 - 1) = 2 ^ (d - 1) * 2 ^ Z.pos k).
        { rewrite <- Z.pow_add_r by lia. f_equal. lia. }
        assert (E2 : 2 ^ 24 = 2 ^ d * 2 ^ Z.pos k).
        { rewrite <- Z.pow_add_r by lia. f_equal. lia. }
        assert (0 < 2 ^ Z.pos k) by (apply Z.pow_pos_nonneg; lia).
        rewrite E1, E2. nia. }
      unfold binary_round_aux.
      rewrite (shr_fexp_exact_id mz _ Hdz) by lia.
      cbn [shr_m loc_of_shr_record round_nearest_even].
      rewrite (shr_fexp_exact_id mz _ Hdz) by lia. cbn [shr_m].
      destruct (_ <=? _); eauto.
  - destruct (binary_round_lower s M e Hge He)
      as [->|(m' & e' & -> & _)]; eauto.
Qed.

Lemma digits_at_least_24 (M : positive) :
  2 ^ 23 <= Z.pos M -> 24 <= Z.pos (digits2_pos M).
Proof.
  intros HM. pose proof (digits2_bounds M) as [_ Hu].
  destruct (Z_lt_le_dec (Z.pos (digits2_pos M)) 24) as [Hlt|]; [|assumption].
  assert (2 ^ Z.pos (digits2_pos M) <= 2 ^ 23) by (apply Z.pow_le_mono_r; lia).
  lia.
Qed.


End Rounding.

(** ** binary32: magnitudes across a rounded addition or subtraction

    [reaches s u U x] records that [x] has the sign [s] and a magnitude
    of at least [U * 2^u]; it is carried through one rounded operation
    by cutting the exact integer result down to its 24 leading bits. *)

Module Magnitude.

Import Rounding.

(** [x] is the infinity of sign [s], or a normal number of sign [s]
    and of magnitude at least [U * 2^u]. *)
Definition reaches (s : bool) (u U : Z) (x : F32.float) : Prop :=
  x = S754_infinity s
  \/ exists (m : positive) (e : Z),
       x = S754_finite s m e
       /\ Z.pos (digits2_pos m) = 24 /\ u <= e /\ U <= Z.pos m * 2 ^ (e - u).

(** [x] lies strictly beyond [c] on the side of the sign [s]: below
    [c] for the negative sign, above it for the positive one. *)
Definition beyond (s : bool) (c x : F32.float) : bool :=
  if s then F32.ltb x c else F32.ltb c x.

(** [x] lies on the inner side of [c], or at [c]. *)
Definition within (s : bool) (c x : F32.float) : bool :=
  if s then F32.leb c x else F32.leb x c.

Lemma shifted_lt (m mc : positive) (e ec u : Z) :
  Z.pos (digits2_pos m) = 24 -> Z.pos (digits2_pos mc) = 24 ->
  u <= e -> e < ec ->
  Z.pos m * 2 ^ (e - u) < Z.pos mc * 2 ^ (ec - u).
Proof.
  intros Hd Hdc Hu He.
  pose proof (digits2_bounds m) as [_ Hm]. rewrite Hd in Hm.
  pose proof (digits2_bounds mc) as [Hmc _]. rewrite Hdc in Hmc.
  change (24 - 1) with 23 in Hmc.
  assert (E23 : 2 ^ 23 = 8388608) by reflexivity.
  assert (E24 : 2 ^ 24 = 16777216) by reflexivity.
  assert (Hp : 0 < 2 ^ (e - u)) by (apply Z.pow_pos_nonneg; lia).
  assert (Hs : 2 * 2 ^ (e - u) <= 2 ^ (ec - u)).
  { rewrite <- Z.pow_succ_r by lia. apply Z.pow_le_mono_r; lia. }
  nia.
Qed.

Lemma reaches_beyond (s : bool) (u U : Z) (x : F32.float) (mc : positive) (ec : Z) :
  reaches s u U x ->
  Z.pos (digits2_pos mc) = 24 -> u <= ec -> Z.pos mc * 2 ^ (ec - u) < U ->
  beyond s (S754_finite s mc ec) x = true.
Proof.
  intros [->|(m & e & -> & Hd & He & HU)] Hdc Hec HcU;
    [destruct s; reflexivity|].
  assert (Hcmp : ec < e \/ (ec = e /\ (mc < m)%positive)).
  { destruct (Z.lt_trichotomy ec e) as [H|[H|H]]; [auto| |].
    - right. split; [exact H|]. subst ec.
      assert (0 < 2 ^ (e - u)) by (apply Z.pow_pos_nonneg; lia). nia.
    - pose proof (shifted_lt m mc e ec u Hd Hdc He H). lia. }
  unfold beyond, F32.ltb, SFltb, SFcompare.
  destruct s.
  - destruct Hcmp as [H|[-> H]].
    + rewrite (proj2 (Z.compare_gt_iff e ec)) by lia. reflexivity.
    + rewrite Z.compare_refl, Pos.compare_cont_spec. cbn [Pos.switch_Eq].
      rewrite (proj2 (Pos.compare_gt_iff m mc)) by lia. reflexivity.
  - destruct Hcmp as [H|[-> H]].
    + rewrite (proj2 (Z.compare_lt_iff ec e)) by lia. reflexivity.
    + rewrite Z.compare_refl, Pos.compare_cont_spec. cbn [Pos.switch_Eq].
      rewrite (proj2 (Pos.compare_lt_iff mc m)) by lia. reflexivity.
Qed.

(** A valid number with exponent above the least one has 24 bits. *)
Lemma valid_normal_digits (s : bool) (m : positive) (e : Z) :
  F32.valid (S754_finite s m e) = true -> -149 < e ->
  Z.pos (digits2_pos m) = 24.
Proof.
  unfold F32.valid, valid_binary, bounded, canonical_mantissa.
  intros [Hc _]%andb_prop He. apply Z.eqb_eq in Hc.
  unfold fexp, emin, F32.prec, F32.emax in Hc. lia.
Qed.


(** A valid number that is not on the inner side of the normal number
    [c] is at least one unit in the last place of [c] beyond it. *)
Lemma reaches_of_not_within (s : bool) (u : Z) (x : F32.float)
    (mc : positive) (ec : Z) :
  F32.valid x = true -> F32.is_nan x = false ->
  Z.pos (digits2_pos mc) = 24 -> -149 < u -> u <= ec ->
  within s (S754_finite s mc ec) x = false ->
  reaches s u ((Z.pos mc + 1) * 2 ^ (ec - u)) x.
Proof.
  intros Hv Hnan Hdc Hu Hec Hw.
  assert (Hp : 0 < 2 ^ (ec - u)) by (apply Z.pow_pos_nonneg; lia).
  assert (Hgoal : forall (m : positive) (e : Z),
             F32.valid (S754_finite s m e) = true ->
             ec < e \/ (ec = e /\ (mc < m)%positive) ->
             reaches s u ((Z.pos mc + 1) * 2 ^ (ec - u)) (S754_finite s m e)).
  { intros m e Hvm Hcmp. right. exists m, e.
    assert (Hd : Z.pos (digits2_pos m) = 24)
      by (apply (valid_normal_digits s m e Hvm); lia).
    repeat split; try assumption; try lia.
    destruct Hcmp as [H|[<- H]].
    - pose proof (digits2_bounds mc) as [_ Hmc]. rewrite Hdc in Hmc.
      pose proof (digits2_bounds m) as [Hm _]. rewrite Hd in Hm.
      change (24 - 1) with 23 in Hm.
      assert (E23 : 2 ^ 23 = 8388608) by reflexivity.
      assert (E24 : 2 ^ 24 = 16777216) by reflexivity.
      assert (Hs : 2 * 2 ^ (ec - u) <= 2 ^ (e - u)).
      { rewrite <- Z.pow_succ_r by lia. apply Z.pow_le_mono_r; lia. }
      nia.
    - nia. }
  unfold within, F32.leb, SFleb, SFcompare in Hw.
  destruct s, x as [sx|sx| |sx m e]; try discriminate Hnan;
    try destruct sx; try discriminate Hw; try (left; reflexivity).
  - apply Hgoal; [exact Hv|].
    destruct (Z.compare_spec ec e) as [E|E|E]; try discriminate Hw; [|auto].
    right. split; [exact E|].
    rewrite Pos.compare_cont_spec in Hw. cbn [Pos.switch_Eq] in Hw.
    destruct (Pos.compare_spec mc m) as [E'|E'|E']; try discriminate Hw. exact E'.
  - apply Hgoal; [exact Hv|].
    destruct (Z.compare_spec e ec) as [E|E|E]; try discriminate Hw; [|auto].
    right. split; [symmetry; exact E|].
    rewrite Pos.compare_cont_spec in Hw. cbn [Pos.switch_Eq] in Hw.
    destruct (Pos.compare_spec m mc) as [E'|E'|E']; try discriminate Hw. exact E'.
Qed.

Lemma reaches_positive (u U : Z) (x : F32.float) :
  reaches false u U x -> F32.gtb x F32.zero = true.
Proof. intros [->|(m & e & -> & _)]; reflexivity. Qed.

(** A number above the positive normal number [c] is not NaN and is
    not on the inner side of [c]. *)
Lemma ltb_not_within (x : F32.float) (mc : positive) (ec : Z) :
  F32.ltb (S754_finite false mc ec) x = true ->
  F32.is_nan x = false /\ within false (S754_finite false mc ec) x = false.
Proof.
  unfold within, F32.ltb, F32.leb, SFltb, SFleb, SFcompare.
  destruct x as [sx|[]| |[] m e]; try discriminate; intros H;
    (split; [reflexivity|]); try reflexivity.
  rewrite (Z.compare_antisym ec e).
  destruct (ec ?= e); cbn [CompOpp]; try discriminate H; try reflexivity.
  rewrite Pos.compare_cont_spec in *. cbn [Pos.switch_Eq] in *.
  rewrite (Pos.compare_antisym mc m).
  destruct (mc ?= m)%positive; cbn [CompOpp]; try discriminate H; reflexivity.
Qed.


(** The rounded value of an integer significand [M >= U >= 2^23] at
    exponent [u] reaches the 24 leading bits of [U]. *)
Lemma reaches_binary_round (s : bool) (u U : Z) (M : positive) :
  -149 <= u -> 2 ^ 23 <= U -> U <= Z.pos M ->
  reaches s u (leading24 U) (binary_round 24 128 s M u).
Proof.
  intros Hu HU HM.
  destruct (binary_round_lower s M u (digits_at_least_24 M ltac:(lia)) Hu)
    as [->|(m' & e' & -> & Hd' & He' & Hlow)]; [left; reflexivity|].
  right. exists m', e'. repeat split; try assumption.
  rewrite <- leading24_digits in Hlow.
  etransitivity; [|exact Hlow]. apply leading24_mono; lia.
Qed.


(** One step inwards from a positive number, by less than its size. *)
Lemma reaches_inward (u U : Z) (x : F32.float) (mr : positive) :
  reaches false u U x -> -149 <= u -> Z.pos mr + 2 ^ 23 <= U ->
  reaches false u (leading24 (U - Z.pos mr)) (F32.sub x (S754_finite false mr u)).
Proof.
  intros [->|(m & e & -> & Hd & He & HU)] Hu HT; [left; reflexivity|].
  pose proof (shl_align_down m e u He) as Ha.
  pose proof (shl_align_down mr u u ltac:(lia)) as Hb.
  rewrite Z.sub_diag in Hb.
  unfold F32.sub, SFsub.
  rewrite Z.min_r by lia. cbn [cond_Zopp].
  set (a := Z.pos (shl_align m e u).1) in *.
  set (b := Z.pos (shl_align mr u u).1) in *.
  unfold F32.prec, F32.emax.
  destruct (a - b) as [|M|M] eqn:EM; try lia.
  cbn [binary_normalize]. apply reaches_binary_round; lia.
Qed.

(** The difference stays positive as long as the number is larger. *)
Lemma inward_positive (u U : Z) (x : F32.float) (mr : positive) :
  reaches false u U x -> -149 <= u -> Z.pos mr < U ->
  F32.gtb (F32.sub x (S754_finite false mr u)) F32.zero = true.
Proof.
  intros [->|(m & e & -> & Hd & He & HU)] Hu HT; [reflexivity|].
  pose proof (shl_align_down m e u He) as Ha.
  pose proof (shl_align_down mr u u ltac:(lia)) as Hb.
  rewrite Z.sub_diag in Hb.
  unfold F32.sub, SFsub.
  rewrite Z.min_r by lia. cbn [cond_Zopp].
  set (a := Z.pos (shl_align m e u).1) in *.
  set (b := Z.pos (shl_align mr u u).1) in *.
  unfold F32.prec, F32.emax.
  destruct (a - b) as [|M|M] eqn:EM; try lia.
  cbn [binary_normalize].
  destruct (binary_round_nonzero false M u Hu) as [->|(m' & e' & ->)]; reflexivity.
Qed.



End Magnitude.

(** ** Vector3: zero and finite vectors *)

Module Vector3Facts.

Import Vector3.
Local Open Scope f32_scope.

(** No component is NaN. *)
Definition no_nan (a : Vector3) : bool :=
  negb (F32.is_nan (x a)) && negb (F32.is_nan (y a)) && negb (F32.is_nan (z a)).

(** Every component is a number: neither NaN nor infinite. *)
Definition finite (a : Vector3) : bool :=
  F32.is_finite (x a) && F32.is_finite (y a) && F32.is_finite (z a).

Definition all_zero (a : Vector3) : bool :=
  F32.is_zero (x a) && F32.is_zero (y a) && F32.is_zero (z a).

Lemma finite_no_nan (a : Vector3) : finite a = true -> no_nan a = true.
Proof.
  unfold finite, no_nan.
  intros [[Hx Hy]%andb_prop Hz]%andb_prop.
  rewrite !F32Facts.finite_not_nan by assumption. reflexivity.
Qed.

Lemma scale_zero_l (n : Vector3) (k : F32.float) :
  all_zero n = true -> F32.is_finite k = true -> all_zero (scale n k) = true.
Proof.
  unfold all_zero, scale. simpl.
  intros [[Hx Hy]%andb_prop Hz]%andb_prop Hk.
  rewrite !F32Facts.mul_zero_l by assumption. reflexivity.
Qed.

Lemma divide_zero (a : Vector3) (m : F32.float) :
  all_zero a = true -> F32.is_finite (F32.one / m) = true ->
  all_zero (divide a m) = true.
Proof.
  unfold all_zero, divide. simpl.
  intros [[Hx Hy]%andb_prop Hz]%andb_prop Hm.
  rewrite !F32Facts.div_zero_inv_finite by assumption. reflexivity.
Qed.

Lemma vadd_zero_r (a c : Vector3) :
  finite a = true -> all_zero c = true -> finite (add a c) = true.
Proof.
  unfold finite, all_zero, add. simpl.
  intros [[Hx Hy]%andb_prop Hz]%andb_prop [[Cx Cy]%andb_prop Cz]%andb_prop.
  rewrite !F32Facts.add_zero_r by assumption. reflexivity.
Qed.

Lemma vsub_zero_r (a c : Vector3) :
  finite a = true -> all_zero c = true -> finite (sub a c) = true.
Proof.
  unfold finite, all_zero, sub. simpl.
  intros [[Hx Hy]%andb_prop Hz]%andb_prop [[Cx Cy]%andb_prop Cz]%andb_prop.
  rewrite !F32Facts.sub_zero_r by assumption. reflexivity.
Qed.

Lemma add_no_nan (a c : Vector3) :
  finite a = true -> finite c = true -> no_nan (add a c) = true.
Proof.
  unfold finite, no_nan, add. simpl.
  intros [[Hx Hy]%andb_prop Hz]%andb_prop [[Cx Cy]%andb_prop Cz]%andb_prop.
  rewrite !F32Facts.add_finite_not_nan by assumption. reflexivity.
Qed.

Lemma sub_no_nan (a c : Vector3) :
  finite a = true -> finite c = true -> no_nan (sub a c) = true.
Proof.
  unfold finite, no_nan, sub. simpl.
  intros [[Hx Hy]%andb_prop Hz]%andb_prop [[Cx Cy]%andb_prop Cz]%andb_prop.
  rewrite !F32Facts.sub_finite_not_nan by assumption. reflexivity.
Qed.

Lemma vsub_diag (a : Vector3) : finite a = true -> sub a a = ZERO.
Proof.
  unfold finite, sub, ZERO.
  intros [[Hx Hy]%andb_prop Hz]%andb_prop.
  rewrite !F32Facts.sub_diag by assumption. reflexivity.
Qed.

Lemma vsub_finite_operands (a c : Vector3) :
  finite (sub a c) = true -> finite a = true /\ finite c = true.
Proof.
  unfold finite, sub. simpl.
  intros [[Hx Hy]%andb_prop Hz]%andb_prop.
  apply F32Facts.sub_finite_operands in Hx as [-> ->].
  apply F32Facts.sub_finite_operands in Hy as [-> ->].
  apply F32Facts.sub_finite_operands in Hz as [-> ->].
  auto.
Qed.

(** The dot product with the zero vector is a zero. *)
Lemma dot_zero_r (a n : Vector3) :
  finite a = true -> all_zero n = true -> F32.is_zero (dot a n) = true.
Proof.
  unfold finite, all_zero, dot.
  intros [[Hx Hy]%andb_prop Hz]%andb_prop [[Nx Ny]%andb_prop Nz]%andb_prop.
  repeat apply F32Facts.add_zero_zero; apply F32Facts.mul_zero_r; assumption.
Qed.

(** [normalized] of the zero vector takes the fallback branch. *)
Lemma normalized_ZERO : normalized ZERO = ZERO.
Proof. reflexivity. Qed.

Lemma magnitude_ZERO : magnitude ZERO = F32.zero.
Proof. reflexivity. Qed.

End Vector3Facts.

(** ** PhysicsBody: the integration step *)

Module PhysicsBodyFacts.

Import PhysicsBody.
Local Open Scope f32_scope.

(** The integration step in the words of the specification (4.1):
    [acceleration = force / mass + gravityConstant],
    [velocity += acceleration * dt], [velocity *= 0.999],
    [position += velocity * dt], [force = ZERO]; nothing happens to an
    inactive or static body. *)
Definition integrate (dt : F32.float) (b : PhysicsBody) : PhysicsBody :=
  if negb (isActive b) || isStatic b then b
  else
    let acceleration' :=
      Vector3.add (Vector3.divide (force b) (mass b))
                  (Vector3.mk F32.zero (- Lit.f9_81) F32.zero) in
    let velocity' :=
      Vector3.scale (Vector3.add (velocity b) (Vector3.scale acceleration' dt))
                    Lit.f0_999 in
    let position' := Vector3.add (position b) (Vector3.scale velocity' dt) in
    mk position' velocity' acceleration' Vector3.ZERO
       (mass b) (restitution b) (friction b) (radius b) (isStatic b) (isActive b).

(** C4.  [PhysicsBody::update] is the integration step of the
    specification: on an active, non-static body the acceleration is
    [force / mass + (0, -9.81, 0)], the velocity is advanced by
    [acceleration * dt] and then multiplied by 0.999, the position is
    advanced by the new velocity times [dt], and the force is cleared;
    an inactive or static body is returned unchanged. *)
Theorem update_is_integrate (dt : F32.float) (b : PhysicsBody) :
  update dt b = integrate dt b.
Proof.
  unfold update, integrate.
  destruct (negb (isActive b) || isStatic b); reflexivity.
Qed.

Lemma update_isActive (dt : F32.float) (b : PhysicsBody) :
  isActive (update dt b) = isActive b.
Proof. unfold update. destruct (negb (isActive b) || isStatic b); reflexivity. Qed.

Lemma isCollidingWith_inactive (a b : PhysicsBody) :
  isActive a = false \/ isActive b = false -> isCollidingWith a b = false.
Proof.
  unfold isCollidingWith. intros [-> | ->]; [reflexivity|].
  rewrite orb_true_r. reflexivity.
Qed.

End PhysicsBodyFacts.

(** ** Construction *)

Module Construction.

Import PhysicsWorld.
Local Open Scope f32_scope.

(** A body constructed with mass [-1] and radius [0]. *)
Definition weightless : Body :=
  OfPhysicsBody (PhysicsBody.create Vector3.ZERO (- F32.one) F32.zero).

(** C9, as stated, fails: the constructor takes a negative mass and a
    zero radius without any error, and [addBody] puts the body into the
    world. *)
Lemma nonpositive_mass_enters_world :
  bodies (addBody weightless create) = [weightless]
  /\ (PhysicsBody.mass (base weightless) <=? F32.zero) = true
  /\ (PhysicsBody.radius (base weightless) <=? F32.zero) = true.
Proof. vm_compute. auto. Qed.

(** C9, amended.  The constructor performs no validation and no
    clamping: mass and radius are stored exactly as passed, whatever
    their sign.  [createBall] passes the constants 0.5 and 0.25, so a
    ball spawned through it has a positive mass and a positive radius. *)
Theorem construction_stores_arguments :
  (forall (pos : Vector3) (m r : F32.float),
      PhysicsBody.mass (PhysicsBody.create pos m r) = m
      /\ PhysicsBody.radius (PhysicsBody.create pos m r) = r)
  /\ (forall (pos col : Vector3) (id : Z) (w : PhysicsWorld),
        exists b : Ball,
          bodies (createBall pos col id w) = bodies w ++ [OfBall b]
          /\ PhysicsBody.mass (Ball.body b) = Lit.f0_5
          /\ PhysicsBody.radius (Ball.body b) = Lit.f0_25
          /\ (PhysicsBody.mass (Ball.body b) >? F32.zero) = true
          /\ (PhysicsBody.radius (Ball.body b) >? F32.zero) = true).
Proof.
  split.
  - intros pos m r. split; reflexivity.
  - intros pos col id w. exists (Ball.create pos col id).
    repeat split; reflexivity.
Qed.

End Construction.

(** ** The substep loop *)

Module LoopFacts.

Import PhysicsWorld.
Local Open Scope f32_scope.

(** The lengths of the substeps that [update] executes, in order. *)
Fixpoint substepSizes (timeStep : F32.float) (left : nat)
    (remainingTime : F32.float) : list F32.float :=
  match left with
  | O => []
  | S left' =>
      if remainingTime >? F32.zero then
        let currentStep := F32.min remainingTime timeStep in
        currentStep :: substepSizes timeStep left' (remainingTime - currentStep)
      else []
  end.

Section WithRand.

Variable RAND_MAX : Z.
Variable rand : nat -> Z.

Lemma set_bodies_same (w : PhysicsWorld) : set_bodies (bodies w) w = w.
Proof. destruct w; reflexivity. Qed.

(** [update] executes exactly the substeps listed by [substepSizes],
    in order. *)
Lemma updateLoop_substepSizes (wb : Bounds) (ts : F32.float) (left : nat) :
  forall (remaining : F32.float) (st : list Body * nat),
    updateLoop RAND_MAX rand wb ts left remaining st
    = foldl (fun st h => substep RAND_MAX rand wb h st) st
            (substepSizes ts left remaining).
Proof.
  induction left as [|left IH]; intros remaining st; simpl.
  - reflexivity.
  - destruct (remaining >? F32.zero); simpl; [apply IH | reflexivity].
Qed.

(** C10.  For every world and every [dt <= 0] the loop of [update]
    is not entered: the list of executed substeps is empty and the
    world (all bodies, hence every position, velocity, acceleration
    and force) and the [rand()] state are returned as they were. *)
Theorem update_nonpositive_dt (w : PhysicsWorld) (calls : nat) (dt : F32.float) :
  (dt <=? F32.zero) = true ->
  substepSizes (timeStep w) (Z.to_nat (maxSubsteps w)) dt = []
  /\ update RAND_MAX rand dt (w, calls) = (w, calls).
Proof.
  intros Hdt. apply F32Facts.leb_zero_not_gtb in Hdt.
  assert (Hs : substepSizes (timeStep w) (Z.to_nat (maxSubsteps w)) dt = []).
  { destruct (Z.to_nat (maxSubsteps w)); simpl; [reflexivity|].
    rewrite Hdt. reflexivity. }
  split; [exact Hs|].
  unfold update. rewrite updateLoop_substepSizes. simpl.
  rewrite Hs. simpl. rewrite set_bodies_same. reflexivity.
Qed.

End WithRand.

Lemma update_nonpositive_dt_witness :
  (- F32.one <=? F32.zero) = true
  /\ update 32767 (fun _ => 0) (- F32.one)
       (addBody (OfPhysicsBody PhysicsBody.default) create, 0%nat)
     = (addBody (OfPhysicsBody PhysicsBody.default) create, 0%nat).
Proof.
  split; [reflexivity|].
  apply (update_nonpositive_dt 32767 (fun _ => 0)
           (addBody (OfPhysicsBody PhysicsBody.default) create) 0 (- F32.one)).
  reflexivity.
Defined.

End LoopFacts.

(** ** The substep cap of [update] *)

Module SubstepCap.

Import Rounding Magnitude PhysicsWorld LoopFacts.

(** [1.0f / 60.0f], the time step of every world: [8947849 * 2^-29]. *)
Definition stepMantissa : positive := 8947849.
Definition stepValue : F32.float := S754_finite false stepMantissa (-29).

Local Open Scope f32_scope.

(** A remaining time above the time step gives a full substep. *)
Lemma substepSizes_full (U : Z) (left : nat) (remaining : F32.float) :
  reaches false (-29) U remaining -> (Z.pos stepMantissa < U)%Z ->
  substepSizes stepValue (S left) remaining
  = stepValue :: substepSizes stepValue left (remaining - stepValue).
Proof.
  intros HU HT.
  pose proof (reaches_positive _ _ _ HU) as Hpos.
  pose proof (reaches_beyond false (-29) U remaining stepMantissa (-29) HU
                eq_refl ltac:(lia) ltac:(simpl; lia)) as Hlt.
  cbn [substepSizes]. rewrite Hpos. unfold F32.min.
  unfold beyond in Hlt. fold stepValue in Hlt. rewrite Hlt. reflexivity.
Qed.

(** Above [4 * (1/60)] the four allowed substeps all have the full
    length, and time is left over when the loop stops. *)
Lemma four_full_substeps (dt : F32.float) :
  F32.valid dt = true ->
  (F32.of_int 4 * stepValue <? dt) = true ->
  substepSizes stepValue 4 dt = [stepValue; stepValue; stepValue; stepValue]
  /\ (dt - stepValue - stepValue - stepValue - stepValue >? F32.zero) = true.
Proof.
  intros Hv Hlt.
  change (F32.of_int 4 * stepValue) with (S754_finite false stepMantissa (-27)) in Hlt.
  destruct (ltb_not_within dt stepMantissa (-27) Hlt) as [Hnan Hw].
  pose proof (reaches_of_not_within false (-29) dt stepMantissa (-27)
                Hv Hnan eq_refl ltac:(lia) ltac:(lia) Hw) as H0.
  change ((Z.pos stepMantissa + 1) * 2 ^ (-27 - -29))%Z with 35791400%Z in H0.
  pose proof (reaches_inward (-29) _ _ stepMantissa H0 ltac:(lia)
                ltac:(vm_compute; discriminate)) as H1.
  change (leading24 _) with 26843550%Z in H1.
  pose proof (reaches_inward (-29) _ _ stepMantissa H1 ltac:(lia)
                ltac:(vm_compute; discriminate)) as H2.
  change (leading24 _) with 17895700%Z in H2.
  pose proof (reaches_inward (-29) _ _ stepMantissa H2 ltac:(lia)
                ltac:(vm_compute; discriminate)) as H3.
  change (leading24 _) with 8947851%Z in H3.
  fold stepValue in H1, H2, H3.
  split.
  - rewrite (substepSizes_full _ _ _ H0) by reflexivity.
    rewrite (substepSizes_full _ _ _ H1) by reflexivity.
    rewrite (substepSizes_full _ _ _ H2) by reflexivity.
    rewrite (substepSizes_full _ _ _ H3) by reflexivity.
    reflexivity.
  - apply (inward_positive (-29) _ _ stepMantissa H3); [lia | reflexivity].
Qed.

(** The class has no member that writes [timeStep] or [maxSubsteps]:
    every operation keeps the values set by the constructor. *)
Lemma configuration_is_fixed (RAND_MAX : Z) (rand : nat -> Z) (w : PhysicsWorld) :
  (forall o, timeStep (addBody o w) = timeStep w
             /\ maxSubsteps (addBody o w) = maxSubsteps w)
  /\ (forall pos col id, timeStep (createBall pos col id w) = timeStep w
                         /\ maxSubsteps (createBall pos col id w) = maxSubsteps w)
  /\ (forall b, timeStep (setWorldBounds b w) = timeStep w
                /\ maxSubsteps (setWorldBounds b w) = maxSubsteps w)
  /\ (forall g, timeStep (setGravity g w) = timeStep w
                /\ maxSubsteps (setGravity g w) = maxSubsteps w)
  /\ (timeStep (clear w) = timeStep w /\ maxSubsteps (clear w) = maxSubsteps w)
  /\ (forall dt calls,
         timeStep (update RAND_MAX rand dt (w, calls)).1 = timeStep w
         /\ maxSubsteps (update RAND_MAX rand dt (w, calls)).1 = maxSubsteps w).
Proof. repeat split. Qed.

Section WithRand.

Variable RAND_MAX : Z.
Variable rand : nat -> Z.

(** The value of [remainingTime] after substeps of the given lengths. *)
Definition remainingAfter (dt : F32.float) (sizes : list F32.float) : F32.float :=
  foldl F32.sub dt sizes.

(** The world after the substeps of the given lengths, run in order. *)
Definition runSubsteps (w : PhysicsWorld) (calls : nat) (sizes : list F32.float)
  : PhysicsWorld * nat :=
  let st := foldl (fun st h => substep RAND_MAX rand (worldBounds w) h st)
                  (bodies w, calls) sizes in
  (set_bodies st.1 w, st.2).

(** C5.  [update(dt)] runs, in order, the substeps listed by
    [substepSizes]: one of length [min(remaining, timeStep)] for as long
    as the remaining time is positive and fewer than [maxSubsteps] have
    run.  With the time step [1/60] and the cap [4] set by the
    constructor, every [dt] above [maxSubsteps * timeStep] gives exactly
    [maxSubsteps] substeps, each of length [timeStep], and when the loop
    stops the remaining time is still positive: it is dropped, the
    simulated time [maxSubsteps * timeStep] is strictly less than [dt]. *)
Theorem update_capped (w : PhysicsWorld) (calls : nat) (dt : F32.float) :
  update RAND_MAX rand dt (w, calls)
  = runSubsteps w calls (substepSizes (timeStep w) (Z.to_nat (maxSubsteps w)) dt)
  /\ (timeStep w = timeStep create ->
      maxSubsteps w = maxSubsteps create ->
      F32.valid dt = true ->
      (F32.of_int (maxSubsteps w) * timeStep w <? dt) = true ->
      substepSizes (timeStep w) (Z.to_nat (maxSubsteps w)) dt
      = replicate (Z.to_nat (maxSubsteps w)) (timeStep w)
      /\ (remainingAfter dt (substepSizes (timeStep w) (Z.to_nat (maxSubsteps w)) dt)
          >? F32.zero) = true).
Proof.
  split.
  - unfold update, runSubsteps. cbn [fst snd].
    rewrite LoopFacts.updateLoop_substepSizes. reflexivity.
  - intros Hts Hmax Hv Hlt. rewrite Hts, Hmax in *.
    change (timeStep create) with stepValue in *.
    change (maxSubsteps create) with 4%Z in *.
    change (Z.to_nat 4) with 4%nat.
    destruct (four_full_substeps dt Hv Hlt) as [Hsizes Hrest].
    rewrite Hsizes. split; [reflexivity | exact Hrest].
Qed.

End WithRand.

(** The cap set by the constructor matters.  With the same time step
    and a cap of 20, the elapsed time [11184812 * 2^-25], just above
    [20 * timeStep], gives twenty substeps of which the last is shorter
    than the time step: the rounded subtractions have used up the
    margin. *)
Lemma larger_cap_shortens_last_substep :
  (F32.of_int 20 * stepValue <? S754_finite false 11184812 (-25)) = true
  /\ substepSizes stepValue 20 (S754_finite false 11184812 (-25))
     = replicate 19 stepValue ++ [S754_finite false 8947847 (-29)]
  /\ (S754_finite false 8947847 (-29) <? stepValue) = true.
Proof. repeat split; vm_compute; reflexivity. Qed.

(** A world with one default body, updated with [dt = 1]. *)
Definition oneBody : PhysicsWorld :=
  addBody (OfPhysicsBody PhysicsBody.default) create.

Lemma update_capped_witness :
  update 32767 (fun _ => 0%Z) F32.one (oneBody, 0%nat)
  = runSubsteps 32767 (fun _ => 0%Z) oneBody 0 (substepSizes stepValue 4 F32.one)
  /\ substepSizes stepValue 4 F32.one = replicate 4 stepValue
  /\ (remainingAfter F32.one (substepSizes stepValue 4 F32.one) >? F32.zero) = true.
Proof.
  destruct (update_capped 32767 (fun _ => 0%Z) oneBody 0 F32.one) as [Hrun Hcap].
  split; [exact Hrun|].
  apply Hcap; reflexivity.
Defined.

End SubstepCap.

(** ** Pairwise collision resolution *)

Module CollisionFacts.

Import PhysicsWorld.
Local Open Scope f32_scope.

(** Neither the velocity nor the position holds a NaN. *)
Definition nan_free (b : PhysicsBody) : bool :=
  Vector3Facts.no_nan (PhysicsBody.velocity b) && Vector3Facts.no_nan (PhysicsBody.position b).

Lemma base_set_base (pb : PhysicsBody) (o : Body) : base (set_base pb o) = pb.
Proof. destruct o; reflexivity. Qed.

Lemma applyImpulse_position (i : Vector3) (a : PhysicsBody) :
  PhysicsBody.position (PhysicsBody.applyImpulse i a) = PhysicsBody.position a.
Proof. unfold PhysicsBody.applyImpulse. destruct (PhysicsBody.isStatic a); reflexivity. Qed.

Lemma applyImpulse_radius (i : Vector3) (a : PhysicsBody) :
  PhysicsBody.radius (PhysicsBody.applyImpulse i a) = PhysicsBody.radius a.
Proof. unfold PhysicsBody.applyImpulse. destruct (PhysicsBody.isStatic a); reflexivity. Qed.

Lemma applyImpulse_getInverseMass (i : Vector3) (a : PhysicsBody) :
  PhysicsBody.getInverseMass (PhysicsBody.applyImpulse i a)
  = PhysicsBody.getInverseMass a.
Proof.
  unfold PhysicsBody.applyImpulse, PhysicsBody.getInverseMass.
  destruct (PhysicsBody.isStatic a) eqn:E; simpl; rewrite E; reflexivity.
Qed.

(** What the impulse step does to the velocity: nothing on a static
    body, otherwise the argument divided by the mass is added. *)
Lemma applyImpulse_velocity (i : Vector3) (a : PhysicsBody) :
  PhysicsBody.velocity (PhysicsBody.applyImpulse i a)
  = if PhysicsBody.isStatic a then PhysicsBody.velocity a
    else Vector3.add (PhysicsBody.velocity a) (Vector3.divide i (PhysicsBody.mass a)).
Proof. unfold PhysicsBody.applyImpulse. destruct (PhysicsBody.isStatic a); reflexivity. Qed.

(** An all-zero impulse, scaled by a finite inverse mass, leaves a
    finite velocity finite. *)
Lemma applyImpulse_zero_finite (impulse : Vector3) (k : F32.float) (a : PhysicsBody) :
  Vector3Facts.all_zero impulse = true ->
  F32.is_finite k = true ->
  F32.is_finite (PhysicsBody.getInverseMass a) = true ->
  Vector3Facts.finite (PhysicsBody.velocity a) = true ->
  Vector3Facts.finite
    (PhysicsBody.velocity (PhysicsBody.applyImpulse (Vector3.scale impulse k) a)) = true.
Proof.
  intros Hi Hk Hinv Hv. rewrite applyImpulse_velocity.
  unfold PhysicsBody.getInverseMass in Hinv.
  destruct (PhysicsBody.isStatic a); [exact Hv|].
  apply Vector3Facts.vadd_zero_r; [exact Hv|].
  apply Vector3Facts.divide_zero; [|exact Hinv].
  apply Vector3Facts.scale_zero_l; assumption.
Qed.

Section WithRand.

Variable RAND_MAX : Z.
Variable rand : nat -> Z.

(** The three components drawn for a ball-ball pair are numbers. *)
Definition randomOffsetFinite (calls : nat) : bool :=
  F32.is_finite (randomComponent RAND_MAX rand calls)
  && F32.is_finite (randomComponent RAND_MAX rand (S calls))
  && F32.is_finite (randomComponent RAND_MAX rand (S (S calls))).

(** C7, amended.  Two bodies whose centres coincide exactly, at least
    one of them movable (the combined inverse mass is not zero): the
    normal is the fallback [(0, 0, 0)] of [normalized], no division by
    the zero distance takes place, and after [resolveCollision]
    neither body has a NaN in its velocity or in its position,
    provided that nothing overflows on the way.  The side conditions
    are: the positions and the relative velocity are finite; the two
    inverse masses, [1 + restitution] and the magnitude of the
    positional correction are finite; and for a pair of balls the
    random offset is finite. *)
Theorem coincident_centers_no_nan (bodyA bodyB : Body) (calls : nat) :
  let a := base bodyA in
  let b := base bodyB in
  PhysicsBody.position a = PhysicsBody.position b ->
  Vector3Facts.finite (PhysicsBody.position a) = true ->
  Vector3Facts.finite (Vector3.sub (PhysicsBody.velocity a) (PhysicsBody.velocity b)) = true ->
  F32.is_finite
    (F32.one + F32.min (PhysicsBody.restitution a) (PhysicsBody.restitution b)) = true ->
  F32.is_zero (PhysicsBody.getInverseMass a + PhysicsBody.getInverseMass b) = false ->
  F32.is_finite (PhysicsBody.getInverseMass a) = true ->
  F32.is_finite (PhysicsBody.getInverseMass b) = true ->
  F32.is_finite
    (Lit.f0_8
     * F32.max (PhysicsBody.radius a + PhysicsBody.radius b - F32.zero - Lit.f0_01)
               F32.zero
     / (PhysicsBody.getInverseMass a + PhysicsBody.getInverseMass b)) = true ->
  (is_ball bodyA && is_ball bodyB = true -> randomOffsetFinite calls = true) ->
  nan_free (base (resolveCollision RAND_MAX rand bodyA bodyB calls).1.1) = true
  /\ nan_free (base (resolveCollision RAND_MAX rand bodyA bodyB calls).1.2) = true.
Proof.
intros a b Hpos Hfin Hrel Hrest Hinv HinvA HinvB Hcorr Hrand.
destruct (Vector3Facts.vsub_finite_operands _ _ Hrel) as [HvA HvB].
unfold resolveCollision. fold a b.
rewrite !applyImpulse_position, !applyImpulse_radius, !applyImpulse_getInverseMass.
rewrite <- Hpos, (Vector3Facts.vsub_diag _ Hfin).
rewrite Vector3Facts.normalized_ZERO, Vector3Facts.magnitude_ZERO.
set (van := Vector3.dot _ Vector3.ZERO).
assert (Hvan : F32.is_zero van = true)
  by (apply Vector3Facts.dot_zero_r; [exact Hrel | reflexivity]).
rewrite (F32Facts.gtb_zero_of_zero _ Hvan).
set (j := - (F32.one + _) * van / _).
assert (Hj : F32.is_zero j = true).
{ apply F32Facts.div_zero_nonzero;
    [| exact Hinv | apply F32Facts.add_finite_not_nan; assumption].
  apply F32Facts.mul_zero_r; [|exact Hvan].
  rewrite F32Facts.opp_finite. exact Hrest. }
set (impulse := Vector3.scale Vector3.ZERO j).
assert (Himp : Vector3Facts.all_zero impulse = true)
  by (apply Vector3Facts.scale_zero_l;
      [reflexivity | apply F32Facts.zero_finite, Hj]).
set (a1 := PhysicsBody.applyImpulse _ a).
set (b1 := PhysicsBody.applyImpulse _ b).
assert (Ha1 : Vector3Facts.finite (PhysicsBody.velocity a1) = true)
  by (apply applyImpulse_zero_finite; assumption).
assert (Hb1 : Vector3Facts.finite (PhysicsBody.velocity b1) = true)
  by (apply applyImpulse_zero_finite; try assumption;
      rewrite F32Facts.opp_finite; assumption).
assert (Hpa1 : PhysicsBody.position a1 = PhysicsBody.position a)
  by apply applyImpulse_position.
assert (Hpb1 : PhysicsBody.position b1 = PhysicsBody.position a)
  by (unfold b1; rewrite applyImpulse_position; symmetry; exact Hpos).
set (corr := Vector3.scale Vector3.ZERO (Lit.f0_8 * _ / _)).
assert (Hc : Vector3Facts.all_zero corr = true)
  by (apply Vector3Facts.scale_zero_l; [reflexivity | exact Hcorr]).
set (ab := if _ >? F32.zero then _ else (a1, b1)).
assert (Hab : Vector3Facts.finite (PhysicsBody.velocity ab.1) = true
              /\ Vector3Facts.finite (PhysicsBody.velocity ab.2) = true
              /\ Vector3Facts.finite (PhysicsBody.position ab.1) = true
              /\ Vector3Facts.finite (PhysicsBody.position ab.2) = true).
{ unfold ab. destruct (_ >? F32.zero); simpl.
  - repeat split; try assumption.
    + apply Vector3Facts.vadd_zero_r; [exact Hfin|].
      apply Vector3Facts.scale_zero_l; assumption.
    + apply Vector3Facts.vsub_zero_r; [exact Hfin|].
      apply Vector3Facts.scale_zero_l; assumption.
  - rewrite Hpa1, Hpb1. auto. }
destruct ab as [a2 b2]. simpl in Hab.
destruct Hab as (Hva & Hvb & Hpa & Hpb).
unfold nan_free.
destruct (is_ball bodyA && is_ball bodyB) eqn:Eball; simpl;
  rewrite !base_set_base; simpl.
- specialize (Hrand eq_refl). unfold randomOffsetFinite in Hrand.
  rewrite Vector3Facts.add_no_nan, Vector3Facts.sub_no_nan; try assumption.
  rewrite !Vector3Facts.finite_no_nan by assumption. auto.
- rewrite !Vector3Facts.finite_no_nan by assumption. auto.
Qed.

End WithRand.

End CollisionFacts.

(** ** Pairs of static bodies *)

Module StaticPair.

Import PhysicsWorld.
Local Open Scope f32_scope.

Definition zero_or_nan (a : F32.float) : bool :=
  match a with S754_zero _ | S754_nan => true | _ => false end.

Definition nan_or_inf (a : F32.float) : bool :=
  match a with S754_nan | S754_infinity _ => true | _ => false end.

Lemma zero_mul (a : F32.float) : zero_or_nan (F32.zero * a) = true.
Proof. destruct a; reflexivity. Qed.

Lemma zero_or_nan_add (a b : F32.float) :
  zero_or_nan a = true -> zero_or_nan b = true -> zero_or_nan (a + b) = true.
Proof. destruct a as [[]| | |], b as [[]| | |]; simpl; congruence. Qed.

Lemma zero_or_nan_not_positive (a : F32.float) :
  zero_or_nan a = true -> (a >? F32.zero) = false.
Proof. destruct a; simpl; try discriminate; reflexivity. Qed.

Lemma div_by_zero (a : F32.float) : nan_or_inf (a / F32.zero) = true.
Proof. destruct a; reflexivity. Qed.

Lemma mul_nan_or_inf (a k : F32.float) :
  nan_or_inf k = true -> nan_or_inf (a * k) = true.
Proof. destruct a, k; simpl; congruence. Qed.

Lemma nan_or_inf_times_zero (k : F32.float) :
  nan_or_inf k = true -> k * F32.zero = S754_nan.
Proof. destruct k; simpl; try discriminate; reflexivity. Qed.

Lemma add_nan (a : F32.float) : a + S754_nan = S754_nan.
Proof. destruct a; reflexivity. Qed.

Lemma sub_nan (a : F32.float) : a - S754_nan = S754_nan.
Proof. destruct a; reflexivity. Qed.

Definition NAN : Vector3 := Vector3.mk S754_nan S754_nan S754_nan.

(** A correction vector scaled by the inverse mass [0] of a static body
    is NaN in every component when its length came from a division by
    zero. *)
Lemma correction_is_nan (normal : Vector3) (k : F32.float) :
  Vector3.scale (Vector3.scale normal (k / F32.zero)) F32.zero = NAN.
Proof.
  unfold Vector3.scale, NAN. cbn [Vector3.x Vector3.y Vector3.z].
  rewrite !nan_or_inf_times_zero
    by (apply mul_nan_or_inf, div_by_zero).
  reflexivity.
Qed.

Lemma applyImpulse_static (i : Vector3) (a : PhysicsBody) :
  PhysicsBody.isStatic a = true -> PhysicsBody.applyImpulse i a = a.
Proof. unfold PhysicsBody.applyImpulse. intros ->. reflexivity. Qed.

Lemma getInverseMass_static (a : PhysicsBody) :
  PhysicsBody.isStatic a = true -> PhysicsBody.getInverseMass a = F32.zero.
Proof. unfold PhysicsBody.getInverseMass. intros ->. reflexivity. Qed.

Lemma dot_ZERO_l (n : Vector3) : zero_or_nan (Vector3.dot Vector3.ZERO n) = true.
Proof.
  unfold Vector3.dot, Vector3.ZERO. cbn [Vector3.x Vector3.y Vector3.z].
  repeat apply zero_or_nan_add; apply zero_mul.
Qed.

(** Every overlapping pair of static bodies (at rest, as [setStatic]
    leaves them) comes out of [resolveCollision] with both positions
    NaN in all components. *)
Lemma static_pair_always_nan (RAND_MAX : Z) (rand : nat -> Z)
    (bodyA bodyB : Body) (calls : nat) :
  PhysicsBody.isStatic (base bodyA) = true ->
  PhysicsBody.isStatic (base bodyB) = true ->
  PhysicsBody.velocity (base bodyA) = Vector3.ZERO ->
  PhysicsBody.velocity (base bodyB) = Vector3.ZERO ->
  (PhysicsBody.radius (base bodyA) + PhysicsBody.radius (base bodyB)
   - Vector3.magnitude
       (Vector3.sub (PhysicsBody.position (base bodyA))
                    (PhysicsBody.position (base bodyB))) >? F32.zero) = true ->
  PhysicsBody.position (base (resolveCollision RAND_MAX rand bodyA bodyB calls).1.1) = NAN
  /\ PhysicsBody.position (base (resolveCollision RAND_MAX rand bodyA bodyB calls).1.2) = NAN.
Proof.
  intros HsA HsB HvA HvB Hpen.
  unfold resolveCollision.
  rewrite !(applyImpulse_static _ _ HsA), !(applyImpulse_static _ _ HsB).
  rewrite !(getInverseMass_static _ HsA), !(getInverseMass_static _ HsB).
  rewrite HvA, HvB.
  change (Vector3.sub Vector3.ZERO Vector3.ZERO) with Vector3.ZERO.
  rewrite (zero_or_nan_not_positive _ (dot_ZERO_l _)).
  rewrite Hpen.
  change (F32.zero + F32.zero) with F32.zero.
  rewrite !correction_is_nan.
  assert (HA : Vector3.add (PhysicsBody.position (base bodyA)) NAN = NAN).
  { unfold Vector3.add, NAN. cbn [Vector3.x Vector3.y Vector3.z].
    rewrite !add_nan. reflexivity. }
  assert (HB : Vector3.sub (PhysicsBody.position (base bodyB)) NAN = NAN).
  { unfold Vector3.sub, NAN. cbn [Vector3.x Vector3.y Vector3.z].
    rewrite !sub_nan. reflexivity. }
  rewrite HA, HB.
  destruct (is_ball bodyA && is_ball bodyB); cbn [fst snd];
    rewrite !CollisionFacts.base_set_base; split; reflexivity.
Qed.

End StaticPair.

(** ** Scenarios for the pairwise resolution *)

Module CollisionScenarios.

Import PhysicsWorld.
Local Open Scope f32_scope.

Definition at_x (px : F32.float) : Vector3 := Vector3.mk px F32.zero F32.zero.

(** Two balls spawned at the same point. *)
Definition ballA : Body := OfBall (Ball.create (Vector3.mk F32.zero Lit.f2 F32.zero) Vector3.ZERO 1).
Definition ballB : Body := OfBall (Ball.create (Vector3.mk F32.zero Lit.f2 F32.zero) Vector3.ZERO 2).

Lemma coincident_centers_no_nan_witness :
  CollisionFacts.nan_free
    (base (resolveCollision 2147483647 (fun _ => 0) ballA ballB 0).1.1) = true
  /\ CollisionFacts.nan_free
       (base (resolveCollision 2147483647 (fun _ => 0) ballA ballB 0).1.2) = true.
Proof.
  apply (CollisionFacts.coincident_centers_no_nan
           2147483647 (fun _ => 0) ballA ballB 0);
    reflexivity.
Defined.

(** Two bodies at the same point that hold no NaN and no infinity:
    a speck whose mass is the least positive float, [2^-149], and a
    stone of mass 1. *)
Definition leastFloat : F32.float := S754_finite false 1 (-149).
Definition speck : PhysicsBody :=
  PhysicsBody.create (Vector3.mk F32.zero Lit.f2 F32.zero) leastFloat Lit.f0_25.
Definition stone : PhysicsBody :=
  PhysicsBody.create (Vector3.mk F32.zero Lit.f2 F32.zero) F32.one Lit.f0_25.

(** Two bodies of mass 1 at the same point that fly apart at the
    greatest finite speed, [2^128 - 2^104]. *)
Definition greatestFloat : F32.float := S754_finite false 16777215 104.
Definition rightward : PhysicsBody :=
  PhysicsBody.set_velocity (at_x greatestFloat) stone.
Definition leftward : PhysicsBody :=
  PhysicsBody.set_velocity (at_x (- greatestFloat)) stone.

Definition allNaN : Vector3 := Vector3.mk S754_nan S754_nan S754_nan.

(** C7, as stated, fails.  The centres coincide, both bodies are
    movable and hold finite numbers only, and the normal is the
    fallback [(0, 0, 0)]; yet [resolveCollision] writes NaN.  For the
    speck the inverse mass [1 / 2^-149] overflows to infinity, and the
    zero impulse and the zero correction times that infinity are NaN:
    the velocity and the position of the speck become NaN.  For the
    two fast bodies the relative velocity overflows to infinity, its
    product with the zero normal is NaN, and so are both velocities
    afterwards. *)
Lemma coincident_centers_give_nan :
  (PhysicsBody.position speck = PhysicsBody.position stone
   /\ PhysicsBody.isStatic speck = false /\ PhysicsBody.isStatic stone = false
   /\ Vector3Facts.finite (PhysicsBody.position speck) = true
   /\ Vector3Facts.finite (PhysicsBody.velocity speck) = true
   /\ Vector3Facts.finite (PhysicsBody.velocity stone) = true
   /\ F32.valid (PhysicsBody.mass speck) = true
   /\ PhysicsBody.isCollidingWith speck stone = true
   /\ PhysicsBody.getInverseMass speck = S754_infinity false
   /\ resolveCollision 2147483647 (fun _ => 0)
        (OfPhysicsBody speck) (OfPhysicsBody stone) 0
      = (OfPhysicsBody
           (PhysicsBody.set_velocity allNaN (PhysicsBody.set_position allNaN speck)),
         OfPhysicsBody stone, 0%nat))
  /\ (PhysicsBody.position rightward = PhysicsBody.position leftward
      /\ PhysicsBody.isStatic rightward = false /\ PhysicsBody.isStatic leftward = false
      /\ Vector3Facts.finite (PhysicsBody.position rightward) = true
      /\ Vector3Facts.finite (PhysicsBody.velocity rightward) = true
      /\ Vector3Facts.finite (PhysicsBody.velocity leftward) = true
      /\ PhysicsBody.isCollidingWith rightward leftward = true
      /\ Vector3.sub (PhysicsBody.velocity rightward) (PhysicsBody.velocity leftward)
         = at_x (S754_infinity false)
      /\ resolveCollision 2147483647 (fun _ => 0)
           (OfPhysicsBody rightward) (OfPhysicsBody leftward) 0
         = (OfPhysicsBody (PhysicsBody.set_velocity allNaN rightward),
            OfPhysicsBody (PhysicsBody.set_velocity allNaN leftward), 0%nat)).
Proof. repeat split; vm_compute; reflexivity. Qed.

(** Two overlapping static bodies of radius 0.25, centres 0.25 apart. *)
Definition staticA : PhysicsBody :=
  PhysicsBody.setStatic true (PhysicsBody.create (at_x Lit.f0_25) F32.one Lit.f0_25).
Definition staticB : PhysicsBody :=
  PhysicsBody.setStatic true (PhysicsBody.create (at_x F32.zero) F32.one Lit.f0_25).

(** C1: the code at the failing input.  Both bodies are static and
    overlap, the combined inverse mass is [0]; [resolveCollision] does
    not skip the pair, the positional correction divides by that zero,
    and the position of each body becomes NaN in all three components.
    The same happens through one [update] of a world holding the two
    bodies. *)
Theorem static_pair_position_becomes_nan (RAND_MAX : Z) (rand : nat -> Z) (calls : nat) :
  PhysicsBody.isCollidingWith staticA staticB = true
  /\ PhysicsBody.getInverseMass staticA + PhysicsBody.getInverseMass staticB = F32.zero
  /\ CollisionFacts.nan_free staticA = true
  /\ CollisionFacts.nan_free staticB = true
  /\ resolveCollision RAND_MAX rand (OfPhysicsBody staticA) (OfPhysicsBody staticB) calls
     = (OfPhysicsBody
          (PhysicsBody.set_position (Vector3.mk S754_nan S754_nan S754_nan) staticA),
        OfPhysicsBody
          (PhysicsBody.set_position (Vector3.mk S754_nan S754_nan S754_nan) staticB),
        calls)
  /\ bodies (update RAND_MAX rand (F32.one / Lit.f60)
               (addBody (OfPhysicsBody staticB)
                  (addBody (OfPhysicsBody staticA) create), calls)).1
     = [OfPhysicsBody
          (PhysicsBody.set_position (Vector3.mk S754_nan S754_nan S754_nan) staticA);
        OfPhysicsBody
          (PhysicsBody.set_position (Vector3.mk S754_nan S754_nan S754_nan) staticB)].
Proof. repeat split; vm_compute; reflexivity. Qed.

(** Two movable bodies of mass 0.5, radius 0.25 and restitution 0.5,
    centres 0.25 apart on the x axis; the first approaches the second
    at speed 1. *)
Definition moverA : PhysicsBody :=
  PhysicsBody.setRestitution Lit.f0_5
    (PhysicsBody.set_velocity (at_x (- F32.one))
       (PhysicsBody.create (at_x Lit.f0_25) Lit.f0_5 Lit.f0_25)).
Definition moverB : PhysicsBody :=
  PhysicsBody.setRestitution Lit.f0_5
    (PhysicsBody.create (at_x F32.zero) Lit.f0_5 Lit.f0_25).

(** The locals [normal] and [impulseScalar] of [resolveCollision]. *)
Definition normalOf (a b : PhysicsBody) : Vector3 :=
  Vector3.normalized (Vector3.sub (PhysicsBody.position a) (PhysicsBody.position b)).

Definition impulseScalarOf (a b : PhysicsBody) : F32.float :=
  - (F32.one + F32.min (PhysicsBody.restitution a) (PhysicsBody.restitution b))
    * Vector3.dot (Vector3.sub (PhysicsBody.velocity a) (PhysicsBody.velocity b))
                  (normalOf a b)
  / (PhysicsBody.getInverseMass a + PhysicsBody.getInverseMass b).

(** What [resolveCollision] does to the velocities of a pair that is
    not separating: each movable body receives the scaled impulse
    divided once more by its mass. *)
Lemma resolveCollision_velocity (RAND_MAX : Z) (rand : nat -> Z)
    (a b : PhysicsBody) (calls : nat) :
  (Vector3.dot (Vector3.sub (PhysicsBody.velocity a) (PhysicsBody.velocity b))
               (normalOf a b) >? F32.zero) = false ->
  let r := resolveCollision RAND_MAX rand (OfPhysicsBody a) (OfPhysicsBody b) calls in
  let impulse := Vector3.scale (normalOf a b) (impulseScalarOf a b) in
  PhysicsBody.velocity (base r.1.1)
  = PhysicsBody.velocity
      (PhysicsBody.applyImpulse
         (Vector3.scale impulse (PhysicsBody.getInverseMass a)) a)
  /\ PhysicsBody.velocity (base r.1.2)
     = PhysicsBody.velocity
         (PhysicsBody.applyImpulse
            (Vector3.scale impulse (- PhysicsBody.getInverseMass b)) b).
Proof.
  intros Hsep r impulse. subst r impulse.
  unfold resolveCollision, impulseScalarOf, normalOf in *.
  cbn [base is_ball andb]. rewrite Hsep.
  match goal with
  | |- context [if ?c then (_, _) else (_, _)] => destruct c
  end; split; reflexivity.
Qed.

(** C2: the code at the failing input.  The pair is not separating,
    [normal = (1, 0, 0)], [impulseScalar = 0.375] and both inverse
    masses are 2, so the velocity changes the claim states are
    [+0.75] for the first body and [-0.75] for the second, giving
    [-0.25] and [-0.75].  The code passes the scaled impulse to
    [applyImpulse], which divides by the mass again: the velocities
    become [0.5] and [-1.5], a change of [+1.5] and [-1.5]. *)
Theorem impulse_is_divided_by_mass_twice (RAND_MAX : Z) (rand : nat -> Z) (calls : nat) :
  let r := resolveCollision RAND_MAX rand
             (OfPhysicsBody moverA) (OfPhysicsBody moverB) calls in
  let impulse := Vector3.scale (normalOf moverA moverB) (impulseScalarOf moverA moverB) in
  normalOf moverA moverB = at_x F32.one
  /\ impulseScalarOf moverA moverB = F32.dec 3 8
  /\ Vector3.add (PhysicsBody.velocity moverA)
       (Vector3.scale impulse (PhysicsBody.getInverseMass moverA))
     = at_x (- F32.dec 1 4)
  /\ Vector3.sub (PhysicsBody.velocity moverB)
       (Vector3.scale impulse (PhysicsBody.getInverseMass moverB))
     = at_x (- F32.dec 3 4)
  /\ PhysicsBody.velocity (base r.1.1) = at_x (F32.dec 1 2)
  /\ PhysicsBody.velocity (base r.1.2) = at_x (- F32.dec 3 2).
Proof. repeat split; vm_compute; reflexivity. Qed.

End CollisionScenarios.

(** ** The world: which bodies a substep touches *)

Module WorldFacts.

Import PhysicsWorld.
Local Open Scope f32_scope.

(** The six tests of [handleWorldBoundaries] are all false. *)
Definition inside (wb : Bounds) (b : PhysicsBody) : bool :=
  let p := PhysicsBody.position b in
  let r := PhysicsBody.radius b in
  negb (Vector3.x p - r <? minX wb) && negb (Vector3.x p + r >? maxX wb)
  && negb (Vector3.y p - r <? minY wb) && negb (Vector3.y p + r >? maxY wb)
  && negb (Vector3.z p - r <? minZ wb) && negb (Vector3.z p + r >? maxZ wb).


Lemma body_update_held (dt : F32.float) (b : Ball) :
  Ball.isHeld b = true -> Ball.update dt b = b.
Proof. unfold Ball.update. intros ->. reflexivity. Qed.

Lemma Ball_update_isActive (dt : F32.float) (b : Ball) :
  PhysicsBody.isActive (Ball.body (Ball.update dt b))
  = PhysicsBody.isActive (Ball.body b).
Proof.
  unfold Ball.update. destruct (Ball.isHeld b); [reflexivity|].
  cbn [Ball.body Ball.set_body].
  repeat match goal with
         | |- context [if ?c then _ else _] => destruct c
         end; cbn; apply PhysicsBodyFacts.update_isActive.
Qed.

Lemma body_update_isActive (dt : F32.float) (o : Body) :
  PhysicsBody.isActive (base (body_update dt o)) = PhysicsBody.isActive (base o).
Proof.
  destruct o as [pb|b]; cbn [body_update base].
  - apply PhysicsBodyFacts.update_isActive.
  - apply Ball_update_isActive.
Qed.


Lemma boundAxis_inside (lo hi r e p v : F32.float) :
  (p - r <? lo) = false -> (p + r >? hi) = false ->
  boundAxis lo hi r e p v = (p, v, false).
Proof. unfold boundAxis. intros -> ->. reflexivity. Qed.

Lemma boundBody_isActive (wb : Bounds) (o : Body) :
  PhysicsBody.isActive (base (boundBody wb o)) = PhysicsBody.isActive (base o).
Proof.
  unfold boundBody. destruct (PhysicsBody.isStatic (base o)); [reflexivity|].
  repeat match goal with
         | |- context [let '(_, _) := ?c in _] => destruct c
         end.
  rewrite CollisionFacts.base_set_base. reflexivity.
Qed.



(** A body that passes the six tests is left as it is. *)
Lemma boundBody_inside (wb : Bounds) (o : Body) :
  inside wb (base o) = true -> boundBody wb o = o.
Proof.
  unfold inside, boundBody.
  intros [[[[[Hx1 Hx2]%andb_prop Hy1]%andb_prop Hy2]%andb_prop Hz1]%andb_prop Hz2]%andb_prop.
  apply negb_true_iff in Hx1, Hx2, Hy1, Hy2, Hz1, Hz2.
  destruct (PhysicsBody.isStatic (base o)); [reflexivity|].
  rewrite !boundAxis_inside by assumption.
  cbn [orb]. rewrite andb_false_r.
  destruct o as [pb|[pb c h s i]]; cbn [base set_base Ball.set_body Ball.body];
    destruct pb as [[px py pz] [vx vy vz] acc f m e fr r st ac]; reflexivity.
Qed.


End WorldFacts.

(** ** The world across substeps and updates *)

Module WorldInvariants.

Import PhysicsWorld WorldFacts.
Local Open Scope f32_scope.

(** The pairs of indices that [handleCollisions] tests, in the order
    of its two loops. *)
Definition testedPairs (size : nat) : list (nat * nat) :=
  i ← seq 0 size; pair i <$> seq (S i) (size - S i).

(** The test of [handleCollisions] for the bodies stored at [j] and
    [k]: [isCollidingWith], called on the first with the second. *)
Definition pairCollides (j k : nat) (bs : list Body) : bool :=
  match bs !! j, bs !! k with
  | Some bodyA, Some bodyB => PhysicsBody.isCollidingWith (base bodyA) (base bodyB)
  | _, _ => false
  end.

(** Every body but the one at index [i] is inactive. *)
Definition othersInactive (i : nat) (bs : list Body) : Prop :=
  forall (j : nat) (o : Body),
    j <> i -> bs !! j = Some o -> PhysicsBody.isActive (base o) = false.

Section WithRand.

Variable RAND_MAX : Z.
Variable rand : nat -> Z.

(** The collision pass over the pairs [ps] never finds the body at
    index [i] overlapping another one: each time a pair with [i] in it
    is reached, the test of the code is false for the bodies as they
    are at that moment. *)
Fixpoint passSpares (i : nat) (ps : list (nat * nat)) (st : list Body * nat) : bool :=
  match ps with
  | [] => true
  | (j, k) :: ps' =>
      negb ((bool_decide (j = i) || bool_decide (k = i)) && pairCollides j k st.1)
      && passSpares i ps' (collidePair RAND_MAX rand j k st)
  end.

(** The same for the collision passes of the substeps of lengths
    [hs], each run after the integration of its substep. *)
Fixpoint substepsSpare (wb : Bounds) (i : nat) (hs : list F32.float)
    (st : list Body * nat) : bool :=
  match hs with
  | [] => true
  | h :: hs' =>
      passSpares i (testedPairs (length st.1)) (body_update h <$> st.1, st.2)
      && substepsSpare wb i hs' (substep RAND_MAX rand wb h st)
  end.

(** The same for the calls [update(dt)] with [dt] taken from [dts]. *)
Fixpoint neverHit (i : nat) (dts : list F32.float) (ws : PhysicsWorld * nat) : bool :=
  match dts with
  | [] => true
  | dt :: dts' =>
      substepsSpare (worldBounds ws.1) i
        (LoopFacts.substepSizes (timeStep ws.1) (Z.to_nat (maxSubsteps ws.1)) dt)
        (bodies ws.1, ws.2)
      && neverHit i dts' (update RAND_MAX rand dt ws)
  end.

Lemma foldl_bind {A B C : Type} (f : A -> C -> A) (g : B -> list C) (a : A)
    (l : list B) :
  foldl f a (l ≫= g) = foldl (fun a x => foldl f a (g x)) a l.
Proof.
  revert a. induction l as [|x l IH]; intros a; [reflexivity|].
  cbn. rewrite foldl_app. apply IH.
Qed.

(** [handleCollisions] runs the loop body over [testedPairs]. *)
Lemma handleCollisions_testedPairs (st : list Body * nat) :
  handleCollisions RAND_MAX rand st
  = foldl (fun st p => collidePair RAND_MAX rand p.1 p.2 st) st
          (testedPairs (length st.1)).
Proof.
  unfold handleCollisions, testedPairs, collideRow.
  rewrite foldl_bind. generalize (length st.1) at 1 3. intros size.
  generalize (seq 0 (length st.1)). intros rows. revert st.
  induction rows as [|i rows IH]; intros st; [reflexivity|].
  cbn [foldl]. rewrite foldl_fmap. cbn [fst snd]. apply IH.
Qed.

(** A pair that does not contain [i] leaves the body at [i] alone. *)
Lemma collidePair_other (i j k : nat) (st : list Body * nat) :
  j <> i -> k <> i ->
  (collidePair RAND_MAX rand j k st).1 !! i = st.1 !! i.
Proof.
  intros Hj Hk. unfold collidePair.
  destruct (st.1 !! j) as [a|]; [|reflexivity].
  destruct (st.1 !! k) as [b|]; [|reflexivity].
  destruct (PhysicsBody.isCollidingWith (base a) (base b)); [|reflexivity].
  destruct (resolveCollision RAND_MAX rand a b st.2) as [[a' b'] calls].
  cbn [fst]. rewrite !list_lookup_insert_ne by congruence. reflexivity.
Qed.

(** A pair whose test is false changes nothing. *)
Lemma collidePair_apart (j k : nat) (st : list Body * nat) :
  pairCollides j k st.1 = false -> collidePair RAND_MAX rand j k st = st.
Proof.
  unfold pairCollides, collidePair.
  destruct (st.1 !! j) as [a|]; [|reflexivity].
  destruct (st.1 !! k) as [b|]; [|reflexivity].
  intros ->. reflexivity.
Qed.

Lemma pass_spared (i : nat) (ps : list (nat * nat)) :
  forall st : list Body * nat,
    passSpares i ps st = true ->
    (foldl (fun st p => collidePair RAND_MAX rand p.1 p.2 st) st ps).1 !! i
    = st.1 !! i.
Proof.
  induction ps as [|[j k] ps IH]; intros st H; [reflexivity|].
  cbn [passSpares] in H. apply andb_prop in H as [Ht Hps].
  cbn [foldl fst snd]. rewrite (IH _ Hps).
  apply negb_true_iff in Ht.
  destruct (decide (j = i)) as [Hj|Hj]; [|destruct (decide (k = i)) as [Hk|Hk]].
  - rewrite (bool_decide_eq_true_2 _ Hj) in Ht. cbn [orb andb] in Ht.
    rewrite (collidePair_apart _ _ _ Ht). reflexivity.
  - rewrite (bool_decide_eq_true_2 _ Hk), orb_true_r in Ht. cbn [andb] in Ht.
    rewrite (collidePair_apart _ _ _ Ht). reflexivity.
  - apply collidePair_other; assumption.
Qed.

(** One substep keeps a held ball that lies inside the room and that
    no test of the collision pass finds overlapping another body. *)
Lemma substep_spared (wb : Bounds) (h : F32.float) (i : nat) (b : Ball)
    (st : list Body * nat) :
  Ball.isHeld b = true ->
  inside wb (Ball.body b) = true ->
  st.1 !! i = Some (OfBall b) ->
  passSpares i (testedPairs (length st.1)) (body_update h <$> st.1, st.2) = true ->
  (substep RAND_MAX rand wb h st).1 !! i = Some (OfBall b).
Proof.
  intros Hheld Hin Hi Hp. unfold substep, handleWorldBoundaries. cbn [fst snd].
  rewrite list_lookup_fmap, handleCollisions_testedPairs. cbn [fst].
  rewrite length_fmap, (pass_spared i _ _ Hp). cbn [fst].
  rewrite list_lookup_fmap, Hi. cbn.
  rewrite (body_update_held _ _ Hheld).
  rewrite (boundBody_inside wb (OfBall b)) by exact Hin. reflexivity.
Qed.

Lemma substeps_spared (wb : Bounds) (i : nat) (b : Ball) (hs : list F32.float) :
  Ball.isHeld b = true ->
  inside wb (Ball.body b) = true ->
  forall st : list Body * nat,
    st.1 !! i = Some (OfBall b) ->
    substepsSpare wb i hs st = true ->
    (foldl (fun st h => substep RAND_MAX rand wb h st) st hs).1 !! i
    = Some (OfBall b).
Proof.
  intros Hheld Hin. induction hs as [|h hs IH]; intros st Hi H; [exact Hi|].
  cbn [substepsSpare] in H. apply andb_prop in H as [Hp Hs].
  cbn [foldl]. apply IH; [|exact Hs].
  apply substep_spared; assumption.
Qed.

(** C3, amended.  A held ball is excluded from integration only: its
    [update] is the identity for every [dt].  [handleCollisions] and
    [handleWorldBoundaries] do not look at [isHeld].  The ball stays
    exactly as it is across any number of [update] calls, for any
    [dt], in a world whose other bodies may be active, move and
    collide with one another, as long as nothing acts on the ball
    itself: it passes the six boundary tests of the room, and no
    collision test made on it during these updates finds it
    overlapping another body. *)
Theorem held_ball_frozen (w : PhysicsWorld) (calls : nat) (i : nat) (b : Ball)
    (dts : list F32.float) :
  bodies w !! i = Some (OfBall b) ->
  Ball.isHeld b = true ->
  inside (worldBounds w) (Ball.body b) = true ->
  neverHit i dts (w, calls) = true ->
  (forall dt, Ball.update dt b = b)
  /\ bodies (foldl (fun ws dt => update RAND_MAX rand dt ws) (w, calls) dts).1 !! i
     = Some (OfBall b).
Proof.
  intros Hi Hheld Hin Hn. split.
  - intros dt. apply body_update_held, Hheld.
  - revert w calls Hi Hin Hn.
    induction dts as [|dt dts IH]; intros w calls Hi Hin Hn; [exact Hi|].
    cbn [neverHit fst snd] in Hn. apply andb_prop in Hn as [Hs Hn].
    cbn [foldl].
    assert (Hu : update RAND_MAX rand dt (w, calls)
                 = ((update RAND_MAX rand dt (w, calls)).1,
                    (update RAND_MAX rand dt (w, calls)).2))
      by (destruct (update _ _ _ _); reflexivity).
    rewrite Hu in Hn |- *. apply IH; [| exact Hin | exact Hn].
    unfold update. cbn [fst snd bodies set_bodies].
    rewrite LoopFacts.updateLoop_substepSizes.
    apply substeps_spared; assumption.
Qed.

(** [handleCollisions] never tests a body against itself. *)
Lemma testedPairs_distinct (size : nat) (p : nat * nat) :
  p ∈ testedPairs size -> p.1 <> p.2.
Proof.
  unfold testedPairs. intros (i & Hp & _)%list_elem_of_bind.
  apply list_elem_of_fmap in Hp as (j & -> & Hj%elem_of_seq). cbn. lia.
Qed.

Lemma pairCollides_othersInactive (i j k : nat) (bs : list Body) :
  othersInactive i bs -> j <> k -> pairCollides j k bs = false.
Proof.
  intros Hq Hjk. unfold pairCollides.
  destruct (bs !! j) as [a|] eqn:Ea; [|reflexivity].
  destruct (bs !! k) as [b|] eqn:Eb; [|reflexivity].
  apply PhysicsBodyFacts.isCollidingWith_inactive.
  destruct (decide (j = i)) as [->|Hj].
  - right. apply (Hq k b); [congruence | exact Eb].
  - left. apply (Hq j a); assumption.
Qed.

Lemma passSpares_othersInactive (i : nat) (ps : list (nat * nat))
    (st : list Body * nat) :
  othersInactive i st.1 -> (forall p, p ∈ ps -> p.1 <> p.2) ->
  passSpares i ps st = true
  /\ foldl (fun st p => collidePair RAND_MAX rand p.1 p.2 st) st ps = st.
Proof.
  intros Hq. induction ps as [|[j k] ps IH]; intros Hps; [split; reflexivity|].
  assert (Hjk : pairCollides j k st.1 = false).
  { apply (pairCollides_othersInactive i); [exact Hq|]. apply (Hps (j, k)). left. }
  cbn [passSpares foldl fst snd].
  rewrite Hjk, andb_false_r, (collidePair_apart _ _ _ Hjk). cbn [negb andb].
  apply IH. intros p Hp. apply Hps. right. exact Hp.
Qed.

Lemma substep_othersInactive (wb : Bounds) (h : F32.float) (i : nat)
    (st : list Body * nat) :
  othersInactive i st.1 ->
  passSpares i (testedPairs (length st.1)) (body_update h <$> st.1, st.2) = true
  /\ othersInactive i (substep RAND_MAX rand wb h st).1.
Proof.
  intros Hq.
  assert (Hq1 : othersInactive i (body_update h <$> st.1)).
  { intros j o Hj Ho. rewrite list_lookup_fmap in Ho.
    destruct (st.1 !! j) as [o0|] eqn:E0; [|discriminate].
    injection Ho as <-. rewrite body_update_isActive. eauto. }
  destruct (passSpares_othersInactive i (testedPairs (length st.1))
              (body_update h <$> st.1, st.2) Hq1 (testedPairs_distinct _))
    as [Hp Hf].
  split; [exact Hp|].
  unfold substep, handleWorldBoundaries. cbn [fst snd].
  rewrite handleCollisions_testedPairs. cbn [fst]. rewrite length_fmap, Hf.
  cbn [fst]. intros j o Hj Ho. rewrite list_lookup_fmap in Ho.
  destruct ((body_update h <$> st.1) !! j) as [o0|] eqn:E0; [|discriminate].
  injection Ho as <-. rewrite boundBody_isActive. eauto.
Qed.

Lemma substepsSpare_othersInactive (wb : Bounds) (i : nat) (hs : list F32.float) :
  forall st : list Body * nat,
    othersInactive i st.1 ->
    substepsSpare wb i hs st = true
    /\ othersInactive i (foldl (fun st h => substep RAND_MAX rand wb h st) st hs).1.
Proof.
  induction hs as [|h hs IH]; intros st Hq; [split; [reflexivity | exact Hq]|].
  destruct (substep_othersInactive wb h i st Hq) as [Hp Hq'].
  cbn [substepsSpare foldl]. rewrite Hp. apply IH, Hq'.
Qed.

(** In particular no test finds the ball overlapping when every other
    body is inactive: [isCollidingWith] is then false for every pair,
    whatever the positions are. *)
Lemma neverHit_othersInactive (i : nat) (dts : list F32.float) :
  forall (w : PhysicsWorld) (calls : nat),
    othersInactive i (bodies w) -> neverHit i dts (w, calls) = true.
Proof.
  induction dts as [|dt dts IH]; intros w calls Hq; [reflexivity|].
  destruct (substepsSpare_othersInactive (worldBounds w) i
              (LoopFacts.substepSizes (timeStep w) (Z.to_nat (maxSubsteps w)) dt)
              (bodies w, calls) Hq) as [Hs Hq'].
  cbn [neverHit fst snd]. rewrite Hs. cbn [andb].
  assert (Hu : update RAND_MAX rand dt (w, calls)
               = ((update RAND_MAX rand dt (w, calls)).1,
                  (update RAND_MAX rand dt (w, calls)).2))
    by (destruct (update _ _ _ _); reflexivity).
  rewrite Hu. apply IH.
  unfold update. cbn [fst snd bodies set_bodies].
  rewrite LoopFacts.updateLoop_substepSizes. exact Hq'.
Qed.



End WithRand.

End WorldInvariants.

(** ** Containment in the room *)

Module Containment.

Import Rounding Magnitude PhysicsWorld WorldFacts.
Local Open Scope f32_scope.







Section WithRand.

Variable RAND_MAX : Z.
Variable rand : nat -> Z.


End WithRand.

End Containment.

(** ** Scenarios for the world update *)

Module WorldScenarios.

Import PhysicsWorld WorldFacts.
Local Open Scope f32_scope.

Definition RAND_MAX : Z := 2147483647.
(** A [rand()] that always returns [2^30], so that every component of
    the random offset is [(0.5 - 0.5) * 0.1 = 0]. *)
Definition rand (k : nat) : Z := 1073741824.

Definition frame : F32.float := F32.one / Lit.f60.
Definition f5 : F32.float := Eval vm_compute in F32.of_int 5.
Definition f20 : F32.float := Eval vm_compute in F32.of_int 20.

(** A held ball in the middle of the room, and a free ball resting
    on top of it (centres 0.25 apart, radii 0.25). *)
Definition heldBall : Ball :=
  Ball.setHeld true (Ball.create (Vector3.mk F32.zero f5 F32.zero) Vector3.ZERO 1).
Definition freeBall : Ball :=
  Ball.create (Vector3.mk F32.zero (f5 + Lit.f0_25) F32.zero) Vector3.ZERO 2.

(** A held ball carried above the ceiling ([maxY = 10]). *)
Definition heldOutside : Ball :=
  Ball.setHeld true (Ball.create (Vector3.mk F32.zero f20 F32.zero) Vector3.ZERO 1).

(** Where the two held balls are after one frame. *)
Definition clampedPosition : Vector3 :=
  Vector3.mk F32.zero (Lit.f10 - Lit.f0_25) F32.zero.
Definition pushedPosition : Vector3 :=
  Vector3.mk F32.zero (S754_finite false 10282150 (-21)) F32.zero.

(** C3, as stated, fails.  A held ball above the ceiling is clamped by
    the boundary pass to [maxY - radius = 9.75]; a held ball hit from
    above by a falling ball is pushed down by the collision (its
    [y] goes from 5 to about 4.90).  In both cases one [update(1/60)]
    changes the position of a ball whose [isHeld] is true. *)
Lemma held_ball_is_moved :
  (Ball.isHeld heldOutside = true
   /\ (PhysicsBody.position ∘ base
         <$> bodies (update RAND_MAX rand frame
                       (addBody (OfBall heldOutside) create, 0%nat)).1)
      = [clampedPosition]
   /\ clampedPosition <> PhysicsBody.position (Ball.body heldOutside))
  /\ (Ball.isHeld heldBall = true
      /\ (PhysicsBody.position ∘ base
            <$> bodies (update RAND_MAX rand frame
                          (addBody (OfBall freeBall)
                             (addBody (OfBall heldBall) create), 0%nat)).1) !! 0%nat
         = Some pushedPosition
      /\ pushedPosition <> PhysicsBody.position (Ball.body heldBall)).
Proof.
  repeat split; try (vm_compute; reflexivity); vm_compute; discriminate.
Qed.

(** The held ball in a busy world: two free balls, one resting on the
    other, five units away from it.  They fall, and the collision pass
    resolves their contact in every substep. *)
Definition farBall : Ball :=
  Ball.create (Vector3.mk f5 f5 F32.zero) Vector3.ZERO 2.
Definition farBallAbove : Ball :=
  Ball.create (Vector3.mk f5 (f5 + Lit.f0_25) F32.zero) Vector3.ZERO 3.

Definition busyWorld : PhysicsWorld :=
  addBody (OfBall farBallAbove)
    (addBody (OfBall farBall) (addBody (OfBall heldBall) create)).

Lemma held_ball_frozen_witness :
  (PhysicsBody.isActive (Ball.body farBall) = true
   /\ PhysicsBody.isActive (Ball.body farBallAbove) = true
   /\ (foldl (fun ws dt => update RAND_MAX rand dt ws)
         (busyWorld, 0%nat) [frame; Lit.f2]).2 = 15%nat)
  /\ (forall dt, Ball.update dt heldBall = heldBall)
  /\ bodies (foldl (fun ws dt => update RAND_MAX rand dt ws)
               (busyWorld, 0%nat) [frame; Lit.f2]).1 !! 0%nat
     = Some (OfBall heldBall).
Proof.
  split; [repeat split; vm_compute; reflexivity|].
  apply (WorldInvariants.held_ball_frozen RAND_MAX rand
           busyWorld 0 0 heldBall [frame; Lit.f2]).
  - reflexivity.
  - reflexivity.
  - reflexivity.
  - vm_compute. reflexivity.
Defined.

(** The two conditions are the ones that fail where a held ball is
    moved: the ball above the ceiling does not pass the boundary
    tests, and the ball under the falling one is found overlapping it
    by the collision pass. *)
Lemma moved_ball_conditions :
  inside (worldBounds create) (Ball.body heldOutside) = false
  /\ inside (worldBounds create) (Ball.body heldBall) = true
  /\ WorldInvariants.neverHit RAND_MAX rand 0 [frame]
       (addBody (OfBall freeBall) (addBody (OfBall heldBall) create), 0%nat)
     = false.
Proof. repeat split; vm_compute; reflexivity. Qed.






(** An inactive ball moving along x at speed 1 inside the room, and an
    inactive plain body left of [minX = -15]. *)
Definition inactiveBall : Ball :=
  let b := Ball.create (Vector3.mk F32.zero f5 F32.zero) Vector3.ZERO 1 in
  Ball.set_body
    (PhysicsBody.set_isActive false
       (PhysicsBody.set_velocity (Vector3.mk F32.one F32.zero F32.zero) (Ball.body b))) b.
Definition inactiveOutside : PhysicsBody :=
  PhysicsBody.set_isActive false
    (PhysicsBody.create (Vector3.mk (- f20) f5 F32.zero) F32.one Lit.f0_5).

(** C8: the code at the failing inputs.  [Ball::update] returns from
    the base-class step at once for an inactive ball but then applies
    its own spin damping: the velocity [(1, 0, 0)] becomes
    [(0.95, 0, 0)].  [handleWorldBoundaries] skips static bodies only:
    the inactive body at [x = -20] is moved to [minX + radius = -14.5]. *)
Theorem inactive_body_is_modified :
  PhysicsBody.isActive (Ball.body inactiveBall) = false
  /\ PhysicsBody.velocity (Ball.body inactiveBall) = Vector3.mk F32.one F32.zero F32.zero
  /\ base <$> bodies (update RAND_MAX rand frame
                        (addBody (OfBall inactiveBall) create, 0%nat)).1
     = [PhysicsBody.set_velocity (Vector3.mk Lit.f0_95 F32.zero F32.zero)
          (Ball.body inactiveBall)]
  /\ PhysicsBody.isActive inactiveOutside = false
  /\ base <$> bodies (update RAND_MAX rand frame
                        (addBody (OfPhysicsBody inactiveOutside) create, 0%nat)).1
     = [PhysicsBody.set_position (Vector3.mk (- F32.dec 29 2) f5 F32.zero)
          inactiveOutside].
Proof. repeat split; vm_compute; reflexivity. Qed.

End WorldScenarios.

(** ** The world: what an update never writes *)

Module WorldFrame.

Import PhysicsWorld WorldFacts.
Local Open Scope f32_scope.

(** The members of a body that no statement of [update],
    [handleCollisions] or [handleWorldBoundaries] assigns. *)
Definition fixedBase (b : PhysicsBody)
  : F32.float * F32.float * F32.float * F32.float * bool * bool :=
  (PhysicsBody.mass b, PhysicsBody.restitution b, PhysicsBody.friction b,
   PhysicsBody.radius b, PhysicsBody.isStatic b, PhysicsBody.isActive b).

Definition fixedBall (o : Body) : option (Vector3 * bool * F32.float * Z) :=
  match o with
  | OfBall b => Some (Ball.color b, Ball.isHeld b, Ball.spinDamping b, Ball.ballId b)
  | OfPhysicsBody _ => None
  end.

Definition fixedPart (o : Body) :=
  (is_ball o, fixedBase (base o), fixedBall o).

Lemma fixedPart_set_base (pb : PhysicsBody) (o : Body) :
  fixedBase pb = fixedBase (base o) -> fixedPart (set_base pb o) = fixedPart o.
Proof.
  unfold fixedPart. intros H. destruct o as [pb0|b]; cbn in *; rewrite H; reflexivity.
Qed.

Lemma PhysicsBody_update_fixed (dt : F32.float) (b : PhysicsBody) :
  fixedBase (PhysicsBody.update dt b) = fixedBase b.
Proof.
  unfold PhysicsBody.update. destruct (_ || _); reflexivity.
Qed.

Lemma Ball_update_fixed (dt : F32.float) (b : Ball) :
  fixedPart (OfBall (Ball.update dt b)) = fixedPart (OfBall b).
Proof.
  unfold Ball.update. destruct (Ball.isHeld b) eqn:Eh; [reflexivity|].
  unfold fixedPart. cbn [is_ball base fixedBall Ball.body Ball.set_body
                         Ball.color Ball.isHeld Ball.spinDamping Ball.ballId].
  f_equal. f_equal.
  repeat match goal with
         | |- context [if ?c then _ else _] => destruct c
         end; cbn; apply PhysicsBody_update_fixed.
Qed.

Lemma body_update_fixed (dt : F32.float) (o : Body) :
  fixedPart (body_update dt o) = fixedPart o.
Proof.
  destruct o as [pb|b]; cbn [body_update].
  - unfold fixedPart. cbn. rewrite PhysicsBody_update_fixed. reflexivity.
  - apply Ball_update_fixed.
Qed.

Lemma applyImpulse_fixed (i : Vector3) (b : PhysicsBody) :
  fixedBase (PhysicsBody.applyImpulse i b) = fixedBase b.
Proof. unfold PhysicsBody.applyImpulse. destruct (negb _); reflexivity. Qed.

Lemma boundBody_fixed (wb : Bounds) (o : Body) :
  fixedPart (boundBody wb o) = fixedPart o.
Proof.
  unfold boundBody. destruct (PhysicsBody.isStatic (base o)); [reflexivity|].
  repeat match goal with
         | |- context [let '(_, _) := ?c in _] => destruct c
         end.
  apply fixedPart_set_base. reflexivity.
Qed.

Section WithRand.

Variable RAND_MAX : Z.
Variable rand : nat -> Z.

Lemma resolveCollision_fixed (bodyA bodyB : Body) (calls : nat) :
  let r := resolveCollision RAND_MAX rand bodyA bodyB calls in
  fixedPart r.1.1 = fixedPart bodyA /\ fixedPart r.1.2 = fixedPart bodyB.
Proof.
  unfold resolveCollision.
  destruct (Vector3.dot _ _ >? F32.zero); [cbn; auto|].
  match goal with
  | |- context [if ?c then (PhysicsBody.set_position _ _, _) else _] => destruct c
  end;
    (destruct (is_ball bodyA && is_ball bodyB); cbn [fst snd]; split;
     apply fixedPart_set_base; cbn; rewrite ?applyImpulse_fixed;
     unfold fixedBase; cbn; try reflexivity;
     unfold PhysicsBody.applyImpulse;
     repeat match goal with
            | |- context [if ?c then _ else _] => destruct c
            end; reflexivity).
Qed.

Lemma collidePair_fixed (i j : nat) (st : list Body * nat) :
  fixedPart <$> (collidePair RAND_MAX rand i j st).1 = fixedPart <$> st.1.
Proof.
  unfold collidePair. destruct st as [bs calls]. cbn [fst snd].
  destruct (bs !! i) as [a|] eqn:Ea; [|reflexivity].
  destruct (bs !! j) as [b|] eqn:Eb; [|reflexivity].
  destruct (PhysicsBody.isCollidingWith _ _); [|reflexivity].
  pose proof (resolveCollision_fixed a b calls) as [Ha Hb].
  destruct (resolveCollision RAND_MAX rand a b calls) as [[a' b'] calls'].
  cbn [fst snd] in *.
  rewrite !list_fmap_insert, Ha, Hb.
  rewrite (list_insert_id (fixedPart <$> bs) i (fixedPart a))
    by (rewrite list_lookup_fmap, Ea; reflexivity).
  apply list_insert_id. rewrite list_lookup_fmap, Eb. reflexivity.
Qed.

Lemma foldl_invariant {A B : Type} (P : A -> Prop) (f : A -> B -> A) (l : list B) :
  (forall a x, P a -> P (f a x)) -> forall a, P a -> P (foldl f a l).
Proof.
  intros Hf. induction l as [|x l IH]; intros a Ha; simpl; auto.
Qed.

Lemma handleCollisions_fixed (st : list Body * nat) :
  fixedPart <$> (handleCollisions RAND_MAX rand st).1 = fixedPart <$> st.1.
Proof.
  unfold handleCollisions.
  apply (foldl_invariant (fun s => fixedPart <$> s.1 = fixedPart <$> st.1));
    [|reflexivity].
  intros s i Hs. unfold collideRow.
  apply (foldl_invariant (fun s => fixedPart <$> s.1 = fixedPart <$> st.1));
    [|exact Hs].
  intros s' j Hs'. rewrite collidePair_fixed. exact Hs'.
Qed.

Lemma substep_fixed (wb : Bounds) (h : F32.float) (st : list Body * nat) :
  fixedPart <$> (substep RAND_MAX rand wb h st).1 = fixedPart <$> st.1.
Proof.
  unfold substep, handleWorldBoundaries. cbn [fst snd].
  rewrite <- list_fmap_compose.
  rewrite (list_fmap_ext (fixedPart ∘ boundBody wb) fixedPart)
    by (intros; apply boundBody_fixed).
  rewrite handleCollisions_fixed. cbn [fst].
  rewrite <- list_fmap_compose.
  apply list_fmap_ext. intros; apply body_update_fixed.
Qed.

Lemma updateLoop_fixed (wb : Bounds) (ts : F32.float) (left : nat) :
  forall (remaining : F32.float) (st : list Body * nat),
    fixedPart <$> (updateLoop RAND_MAX rand wb ts left remaining st).1
    = fixedPart <$> st.1.
Proof.
  induction left as [|left IH]; intros remaining st; simpl; [reflexivity|].
  destruct (remaining >? F32.zero); [|reflexivity].
  rewrite IH. apply substep_fixed.
Qed.

(** X1.  A world [update] writes positions, velocities, accelerations
    and forces only.  Whatever [dt] is, the world holds the same number
    of bodies afterwards, each index holds the same kind of body (plain
    body or ball) with the same mass, restitution, friction, radius,
    [isStatic] and [isActive], and a ball keeps its colour, [isHeld],
    [spinDamping] and [ballId]; gravity, bounds, time step and substep
    cap of the world are unchanged. *)
Theorem update_keeps_fixed_part (w : PhysicsWorld) (calls : nat) (dt : F32.float) :
  let w' := (update RAND_MAX rand dt (w, calls)).1 in
  fixedPart <$> bodies w' = fixedPart <$> bodies w
  /\ getBodyCount w' = getBodyCount w
  /\ gravity w' = gravity w /\ worldBounds w' = worldBounds w
  /\ timeStep w' = timeStep w /\ maxSubsteps w' = maxSubsteps w.
Proof.
  cbv zeta. unfold update. cbn [fst snd bodies set_bodies gravity worldBounds
                              timeStep maxSubsteps].
  pose proof (updateLoop_fixed (worldBounds w) (timeStep w)
                (Z.to_nat (maxSubsteps w)) dt (bodies w, calls)) as H.
  cbn [fst] in H. split; [exact H|]. split; [|auto].
  unfold getBodyCount. cbn [bodies].
  apply (f_equal length) in H. rewrite !length_fmap in H. exact H.
Qed.

(** *** A body that nothing touches *)

(** Inactive, static, and not a ball that integrates on its own. *)
Definition parked (o : Body) : bool :=
  negb (PhysicsBody.isActive (base o)) && PhysicsBody.isStatic (base o)
  && match o with OfBall b => Ball.isHeld b | OfPhysicsBody _ => true end.

Lemma body_update_parked (dt : F32.float) (o : Body) :
  parked o = true -> body_update dt o = o.
Proof.
  unfold parked. intros [[Ha Hs]%andb_prop Hh]%andb_prop.
  destruct o as [pb|b]; cbn [body_update base] in *.
  - unfold PhysicsBody.update. rewrite Hs, orb_true_r. reflexivity.
  - rewrite body_update_held by exact Hh. reflexivity.
Qed.

Lemma boundBody_parked (wb : Bounds) (o : Body) :
  parked o = true -> boundBody wb o = o.
Proof.
  unfold parked, boundBody. intros [[Ha Hs]%andb_prop Hh]%andb_prop.
  rewrite Hs. reflexivity.
Qed.

Lemma collidePair_inactive (i j k : nat) (bs : list Body) (calls : nat) (o : Body) :
  bs !! k = Some o -> PhysicsBody.isActive (base o) = false ->
  (collidePair RAND_MAX rand i j (bs, calls)).1 !! k = Some o.
Proof.
  intros Hk Ho. unfold collidePair. cbn [fst snd].
  destruct (bs !! i) as [a|] eqn:Ea; [|exact Hk].
  destruct (bs !! j) as [b|] eqn:Eb; [|exact Hk].
  destruct (PhysicsBody.isCollidingWith (base a) (base b)) eqn:Ec; [|exact Hk].
  assert (Hi : k <> i).
  { intros ->. rewrite PhysicsBodyFacts.isCollidingWith_inactive in Ec;
      [discriminate|]. left. congruence. }
  assert (Hj : k <> j).
  { intros ->. rewrite PhysicsBodyFacts.isCollidingWith_inactive in Ec;
      [discriminate|]. right. congruence. }
  destruct (resolveCollision RAND_MAX rand a b calls) as [[a' b'] calls'].
  cbn [fst]. rewrite !list_lookup_insert_ne by congruence. exact Hk.
Qed.

Lemma handleCollisions_inactive (k : nat) (st : list Body * nat) (o : Body) :
  st.1 !! k = Some o -> PhysicsBody.isActive (base o) = false ->
  (handleCollisions RAND_MAX rand st).1 !! k = Some o.
Proof.
  intros Hk Ho. unfold handleCollisions.
  apply (foldl_invariant (fun s => s.1 !! k = Some o)); [|exact Hk].
  intros s i Hs. unfold collideRow.
  apply (foldl_invariant (fun s => s.1 !! k = Some o)); [|exact Hs].
  intros [bs c] j Hs'. apply collidePair_inactive; assumption.
Qed.

Lemma substep_parked (wb : Bounds) (h : F32.float) (k : nat)
    (st : list Body * nat) (o : Body) :
  st.1 !! k = Some o -> parked o = true ->
  (substep RAND_MAX rand wb h st).1 !! k = Some o.
Proof.
  intros Hk Hp. unfold substep, handleWorldBoundaries. cbn [fst snd].
  rewrite list_lookup_fmap.
  rewrite (handleCollisions_inactive k _ o).
  - cbn. rewrite boundBody_parked by exact Hp. reflexivity.
  - cbn [fst]. rewrite list_lookup_fmap, Hk. cbn.
    rewrite body_update_parked by exact Hp. reflexivity.
  - unfold parked in Hp. apply andb_prop in Hp as [[Ha _]%andb_prop _].
    apply negb_true_iff in Ha. exact Ha.
Qed.

Lemma updateLoop_parked (wb : Bounds) (ts : F32.float) (k : nat) (o : Body)
    (left : nat) :
  parked o = true ->
  forall (remaining : F32.float) (st : list Body * nat),
    st.1 !! k = Some o ->
    (updateLoop RAND_MAX rand wb ts left remaining st).1 !! k = Some o.
Proof.
  intros Hp. induction left as [|left IH]; intros remaining st Hk; simpl.
  - exact Hk.
  - destruct (remaining >? F32.zero); [|exact Hk].
    apply IH. apply substep_parked; assumption.
Qed.

(** X2.  A body that is inactive and static, and that is a plain
    [PhysicsBody] or a held [Ball], is never written by the world:
    after any number of [update] calls, with any [dt] and whatever the
    other bodies do, the same index holds the identical body. *)
Theorem parked_body_is_frozen (w : PhysicsWorld) (calls : nat) (i : nat)
    (o : Body) (dts : list F32.float) :
  bodies w !! i = Some o ->
  parked o = true ->
  bodies (foldl (fun ws dt => update RAND_MAX rand dt ws) (w, calls) dts).1 !! i
  = Some o.
Proof.
  intros Hi Hp. revert w calls Hi.
  induction dts as [|dt dts IH]; intros w calls Hi; simpl; [exact Hi|].
  apply IH. unfold update. cbn [fst snd bodies set_bodies].
  apply updateLoop_parked; assumption.
Qed.

(** *** A frame that fits in one time step *)

Lemma sub_self_not_positive (a : F32.float) : (a - a >? F32.zero) = false.
Proof.
  destruct a as [[]|[]| |s m e]; try reflexivity.
  rewrite F32Facts.sub_diag by reflexivity. reflexivity.
Qed.

(** X3.  When [dt] is positive and not above the fixed time step (and
    the substep cap is at least one), [update] runs exactly one
    substep, of length [dt] itself: the bodies are integrated once by
    [dt], then one collision pass and one boundary pass follow. *)
Theorem update_short_frame_is_one_substep (w : PhysicsWorld) (calls : nat)
    (dt : F32.float) :
  (dt >? F32.zero) = true ->
  (timeStep w <? dt) = false ->
  (0 < maxSubsteps w)%Z ->
  update RAND_MAX rand dt (w, calls)
  = (set_bodies (substep RAND_MAX rand (worldBounds w) dt (bodies w, calls)).1 w,
     (substep RAND_MAX rand (worldBounds w) dt (bodies w, calls)).2).
Proof.
  intros Hdt Hts Hmax. unfold update. cbn [fst snd].
  destruct (Z.to_nat (maxSubsteps w)) as [|left] eqn:El; [lia|].
  cbn [updateLoop]. rewrite Hdt.
  unfold F32.min. rewrite Hts.
  destruct left as [|left]; [reflexivity|].
  cbn [updateLoop]. rewrite sub_self_not_positive. reflexivity.
Qed.

End WithRand.

(** *** Where [rand()] enters *)

(** No two distinct bodies of the list are both balls. *)
Definition noBallPair (bs : list Body) : Prop :=
  forall (i j : nat) (a b : Body),
    i <> j -> bs !! i = Some a -> bs !! j = Some b ->
    is_ball a && is_ball b = false.

Lemma fixed_kinds (bs bs' : list Body) :
  fixedPart <$> bs = fixedPart <$> bs' -> is_ball <$> bs = is_ball <$> bs'.
Proof.
  intros H.
  change is_ball with ((fun f : bool * _ * _ => f.1.1) ∘ fixedPart).
  rewrite !list_fmap_compose, H. reflexivity.
Qed.

Lemma noBallPair_kinds (bs bs' : list Body) :
  is_ball <$> bs = is_ball <$> bs' -> noBallPair bs -> noBallPair bs'.
Proof.
  intros H Hp i j a b Hij Ha Hb.
  assert (Ha' : (is_ball <$> bs) !! i = Some (is_ball a))
    by (rewrite H, list_lookup_fmap, Ha; reflexivity).
  assert (Hb' : (is_ball <$> bs) !! j = Some (is_ball b))
    by (rewrite H, list_lookup_fmap, Hb; reflexivity).
  rewrite list_lookup_fmap in Ha', Hb'.
  destruct (bs !! i) as [a0|] eqn:Ea0; [|discriminate].
  destruct (bs !! j) as [b0|] eqn:Eb0; [|discriminate].
  cbn in Ha', Hb'. injection Ha' as <-. injection Hb' as <-.
  exact (Hp i j a0 b0 Hij Ea0 Eb0).
Qed.

Lemma foldl_agree {A B : Type} (P : A -> Prop) (f g : A -> B -> A) (l : list B) :
  (forall a x, x ∈ l -> P a -> f a x = g a x /\ P (f a x)) ->
  forall a, P a -> foldl f a l = foldl g a l /\ P (foldl f a l).
Proof.
  induction l as [|x l IH]; intros H a Ha; simpl; [auto|].
  destruct (H a x) as [E Hp]; [left | exact Ha |].
  rewrite <- E. apply IH; [|exact Hp].
  intros a' y Hy. apply H. right. exact Hy.
Qed.

Section TwoLibraries.

Variables RAND_MAX RAND_MAX' : Z.
Variables rand rand' : nat -> Z.

Lemma resolveCollision_no_rand (a b : Body) (calls : nat) :
  is_ball a && is_ball b = false ->
  resolveCollision RAND_MAX rand a b calls = resolveCollision RAND_MAX' rand' a b calls
  /\ (resolveCollision RAND_MAX rand a b calls).2 = calls.
Proof.
  intros H. unfold resolveCollision. rewrite H. split; [reflexivity|].
  repeat match goal with
         | |- context [if ?c then _ else _] => destruct c
         end; reflexivity.
Qed.

(** The invariant of the loops: no ball pair, and no call of [rand()]
    made so far. *)
Definition quiet (calls : nat) (st : list Body * nat) : Prop :=
  noBallPair st.1 /\ st.2 = calls.

Lemma collidePair_no_rand (calls i j : nat) (st : list Body * nat) :
  i <> j -> quiet calls st ->
  collidePair RAND_MAX rand i j st = collidePair RAND_MAX' rand' i j st
  /\ quiet calls (collidePair RAND_MAX rand i j st).
Proof.
  intros Hij [Hp Hc].
  assert (Hq : quiet calls (collidePair RAND_MAX rand i j st)
               -> quiet calls (collidePair RAND_MAX rand i j st)) by auto.
  pose proof (collidePair_fixed RAND_MAX rand i j st) as Hf.
  unfold collidePair in *. destruct st as [bs c]. cbn [fst snd] in *. subst c.
  destruct (bs !! i) as [a|] eqn:Ea; [|split; [reflexivity|split; auto]].
  destruct (bs !! j) as [b|] eqn:Eb; [|split; [reflexivity|split; auto]].
  destruct (PhysicsBody.isCollidingWith _ _); [|split; [reflexivity|split; auto]].
  destruct (resolveCollision_no_rand a b calls (Hp i j a b Hij Ea Eb)) as [E Ec].
  rewrite <- E.
  destruct (resolveCollision RAND_MAX rand a b calls) as [[a' b'] calls'].
  cbn [fst snd] in *. split; [reflexivity|]. split; [|exact Ec].
  apply (noBallPair_kinds bs); [|exact Hp].
  symmetry. apply fixed_kinds. exact Hf.
Qed.

Lemma handleCollisions_no_rand (calls : nat) (st : list Body * nat) :
  quiet calls st ->
  handleCollisions RAND_MAX rand st = handleCollisions RAND_MAX' rand' st
  /\ quiet calls (handleCollisions RAND_MAX rand st).
Proof.
  intros Hq. unfold handleCollisions.
  apply (foldl_agree (quiet calls)); [|exact Hq].
  intros s i _ Hs. unfold collideRow.
  apply (foldl_agree (quiet calls)); [|exact Hs].
  intros s' j Hj Hs'. apply elem_of_seq in Hj.
  apply collidePair_no_rand; [lia | exact Hs'].
Qed.

Lemma substep_no_rand (calls : nat) (wb : Bounds) (h : F32.float)
    (st : list Body * nat) :
  quiet calls st ->
  substep RAND_MAX rand wb h st = substep RAND_MAX' rand' wb h st
  /\ quiet calls (substep RAND_MAX rand wb h st).
Proof.
  intros [Hp Hc].
  pose proof (substep_fixed RAND_MAX rand wb h st) as Hf.
  unfold substep in *. cbn [fst snd] in *.
  destruct (handleCollisions_no_rand calls (body_update h <$> st.1, st.2)) as [E [Hp' Hc']].
  { split; [|exact Hc]. cbn [fst].
    apply (noBallPair_kinds st.1); [|exact Hp].
    symmetry. apply fixed_kinds. rewrite <- list_fmap_compose.
    apply list_fmap_ext. intros; apply body_update_fixed. }
  rewrite <- E. split; [reflexivity|]. split; [|exact Hc'].
  cbn [fst]. apply (noBallPair_kinds st.1); [|exact Hp].
  symmetry. apply fixed_kinds. exact Hf.
Qed.

Lemma updateLoop_no_rand (calls : nat) (wb : Bounds) (ts : F32.float) (left : nat) :
  forall (remaining : F32.float) (st : list Body * nat),
    quiet calls st ->
    updateLoop RAND_MAX rand wb ts left remaining st
    = updateLoop RAND_MAX' rand' wb ts left remaining st
    /\ quiet calls (updateLoop RAND_MAX rand wb ts left remaining st).
Proof.
  induction left as [|left IH]; intros remaining st Hq; simpl; [auto|].
  destruct (remaining >? F32.zero); [|auto].
  destruct (substep_no_rand calls wb (F32.min remaining ts) st Hq) as [E Hq'].
  rewrite <- E. apply IH. exact Hq'.
Qed.

(** X4.  [rand()] is called for a colliding pair of balls only.  In a
    world where no two bodies are both balls, [update] makes no call
    of [rand()] and its result is the same for every C library: it
    depends neither on [RAND_MAX] nor on the values [rand()] returns. *)
Theorem update_without_ball_pair_is_deterministic (w : PhysicsWorld)
    (calls : nat) (dt : F32.float) :
  noBallPair (bodies w) ->
  update RAND_MAX rand dt (w, calls) = update RAND_MAX' rand' dt (w, calls)
  /\ (update RAND_MAX rand dt (w, calls)).2 = calls.
Proof.
  intros Hp. unfold update. cbn [fst snd].
  destruct (updateLoop_no_rand calls (worldBounds w) (timeStep w)
              (Z.to_nat (maxSubsteps w)) dt (bodies w, calls)) as [E [_ Hc]].
  { split; [exact Hp | reflexivity]. }
  rewrite <- E. split; [reflexivity | exact Hc].
Qed.

End TwoLibraries.

End WorldFrame.

(** ** The world as a container of bodies *)

Module WorldContainer.

Import PhysicsWorld.

Lemma filter_index_all {A : Type} (g : nat -> nat) (k : nat) (l : list A) :
  (forall n, g n <> k) ->
  snd <$> filter (fun p => p.1 <> k) (imap (fun n x => (g n, x)) l) = l.
Proof.
  revert g. induction l as [|x l IH]; intros g Hg; [reflexivity|].
  cbn [imap]. rewrite filter_cons_True by (cbn; apply Hg).
  cbn [fmap list_fmap snd]. f_equal.
  apply (IH (g ∘ S)). intros n. apply Hg.
Qed.

Lemma filter_index_delete {A : Type} (g : nat -> nat) (i : nat) (l : list A) :
  (forall n m, g n = g m -> n = m) ->
  snd <$> filter (fun p => p.1 <> g i) (imap (fun n x => (g n, x)) l) = delete i l.
Proof.
  revert g i. induction l as [|x l IH]; intros g i Hg; [reflexivity|].
  cbn [imap]. destruct i as [|i].
  - rewrite filter_cons_False by (cbn; intros H; apply H; reflexivity).
    cbn [delete list_delete].
    apply (filter_index_all (g ∘ S)). intros n H. apply Hg in H. discriminate.
  - rewrite filter_cons_True by (cbn; intros H; apply Hg in H; discriminate).
    cbn [fmap list_fmap snd delete list_delete]. f_equal.
    apply (IH (g ∘ S) i). intros n m H. apply Hg in H. congruence.
Qed.

Lemma removeBody_delete (body : nat) (w : PhysicsWorld) :
  bodies (removeBody body w) = delete body (bodies w).
Proof.
  unfold removeBody. cbn [bodies set_bodies].
  apply (filter_index_delete (fun n => n) body). auto.
Qed.

Lemma delete_last {A : Type} (l : list A) (x : A) :
  delete (length l) (l ++ [x]) = l.
Proof. induction l as [|y l IH]; [reflexivity|]. cbn. f_equal. exact IH. Qed.

Lemma set_bodies_id (w : PhysicsWorld) : set_bodies (bodies w) w = w.
Proof. destruct w; reflexivity. Qed.

(** X5.  [removeBody] erases exactly the slot the pointer refers to:
    the bodies before it keep their index, the bodies after it move
    down by one, and nothing else of the world changes.  A pointer
    that refers to no body of the world removes nothing, and removing
    the body that [addBody] has just appended gives back the world as
    it was. *)
Theorem removeBody_erases_one_slot (body : nat) (w : PhysicsWorld) :
  (forall j, (j < body)%nat -> bodies (removeBody body w) !! j = bodies w !! j)
  /\ (forall j, (body <= j)%nat -> bodies (removeBody body w) !! j = bodies w !! S j)
  /\ ((getBodyCount w <= body)%nat -> removeBody body w = w)
  /\ (forall o, removeBody (getBodyCount w) (addBody o w) = w).
Proof.
  pose proof (removeBody_delete body w) as Hd.
  split; [|split; [|split]].
  - intros j Hj. rewrite Hd. apply list_lookup_delete_lt. exact Hj.
  - intros j Hj. rewrite Hd. apply list_lookup_delete_ge. exact Hj.
  - intros Hlen. unfold getBodyCount in Hlen.
    assert (E : delete body (bodies w) = bodies w).
    { apply list_eq. intros j. destruct (decide (j < body)%nat).
      - apply list_lookup_delete_lt. assumption.
      - rewrite list_lookup_delete_ge by lia.
        rewrite !lookup_ge_None_2 by lia. reflexivity. }
    unfold removeBody in *. cbn [bodies set_bodies] in Hd.
    rewrite Hd, E. apply set_bodies_id.
  - intros o. pose proof (removeBody_delete (getBodyCount w) (addBody o w)) as Hd'.
    unfold removeBody in *. cbn [bodies set_bodies addBody] in *.
    rewrite Hd'. unfold getBodyCount. rewrite delete_last.
    destruct w; reflexivity.
Qed.

(** X6.  [createBall] appends one ball at the end of the world:
    [getBodyCount] grows by one and [getBalls] is the former vector
    followed by the pointer to the new ball.  Adding a plain
    [PhysicsBody] leaves [getBalls] as it is, and after [clear] the
    world holds no body and no ball. *)
Theorem createBall_appends_one_ball (position col : Vector3) (id : Z)
    (w : PhysicsWorld) :
  getBodyCount (createBall position col id w) = S (getBodyCount w)
  /\ getBalls (createBall position col id w)
     = getBalls w ++ [(getBodyCount w, Ball.create position col id)]
  /\ (forall pb, getBalls (addBody (OfPhysicsBody pb) w) = getBalls w)
  /\ getBodyCount (clear w) = 0%nat /\ getBalls (clear w) = [].
Proof.
  unfold getBodyCount, getBalls, createBall, addBody, clear.
  cbn [bodies set_bodies]. split; [|split; [|split; [|split]]].
  - rewrite length_app. cbn. lia.
  - rewrite imap_app, omap_app. cbn. rewrite Nat.add_0_r. reflexivity.
  - intros pb. rewrite imap_app, omap_app. cbn. apply app_nil_r.
  - reflexivity.
  - reflexivity.
Qed.

Section WithRand.

Variable RAND_MAX : Z.
Variable rand : nat -> Z.

Lemma update_setGravity (g : Vector3) (w : PhysicsWorld) (calls : nat)
    (dt : F32.float) :
  update RAND_MAX rand dt (setGravity g w, calls)
  = (setGravity g (update RAND_MAX rand dt (w, calls)).1,
     (update RAND_MAX rand dt (w, calls)).2).
Proof. reflexivity. Qed.

(** X7.  The gravity member of the world is never read by the
    simulation: [PhysicsBody::update] adds the constant
    [(0, -9.81, 0)].  After [setGravity(g)], any sequence of [update]
    calls produces the same bodies and makes the same number of
    [rand()] calls as without it, for every [g]; the member itself
    keeps the value [g]. *)
Theorem setGravity_has_no_effect (g : Vector3) (w : PhysicsWorld)
    (calls : nat) (dts : list F32.float) :
  let run := fun w0 => foldl (fun ws dt => update RAND_MAX rand dt ws) (w0, calls) dts in
  bodies (run (setGravity g w)).1 = bodies (run w).1
  /\ (run (setGravity g w)).2 = (run w).2
  /\ gravity (run (setGravity g w)).1 = g.
Proof.
  cbv beta zeta.
  assert (H : foldl (fun ws dt => update RAND_MAX rand dt ws) (setGravity g w, calls) dts
              = (setGravity g
                   (foldl (fun ws dt => update RAND_MAX rand dt ws) (w, calls) dts).1,
                 (foldl (fun ws dt => update RAND_MAX rand dt ws) (w, calls) dts).2)).
  { revert w calls. induction dts as [|dt dts IH]; intros w calls; [reflexivity|].
    cbn [foldl]. rewrite update_setGravity.
    destruct (update RAND_MAX rand dt (w, calls)) as [w1 c1]. cbn [fst snd].
    apply IH. }
  rewrite H. cbn. auto.
Qed.

End WithRand.

End WorldContainer.

(** ** binary32: symmetries of the operations and the order *)

Module F32Algebra.

Import F32.
Local Open Scope f32_scope.

Lemma mul_comm (a b : float) : a * b = b * a.
Proof.
  destruct a as [sa|sa| |sa ma ea], b as [sb|sb| |sb mb eb]; cbn;
    rewrite ?(xorb_comm sa sb); try reflexivity.
  rewrite (Pos.mul_comm ma mb), (Z.add_comm ea eb). reflexivity.
Qed.

Lemma add_comm (a b : float) : a + b = b + a.
Proof.
  destruct a as [sa|sa| |sa ma ea], b as [sb|sb| |sb mb eb]; cbn;
    try (destruct sa, sb; reflexivity); try reflexivity.
  rewrite (Z.min_comm ea eb), Z.add_comm. reflexivity.
Qed.

Lemma binary_round_aux_opp (s : bool) (m e : Z) (l : location) :
  binary_round_aux prec emax (negb s) m e l
  = - binary_round_aux prec emax s m e l.
Proof.
  unfold binary_round_aux.
  destruct (shr_fexp prec emax m e l) as [mrs' e'].
  destruct (shr_fexp prec emax _ e' loc_Exact) as [mrs'' e''].
  destruct (shr_m mrs'') as [|p|p]; try reflexivity.
  destruct (e'' <=? emax - prec)%Z; reflexivity.
Qed.

Lemma binary_normalize_opp (m e : Z) :
  m <> 0%Z ->
  binary_normalize prec emax (- m)%Z e false
  = - binary_normalize prec emax m e false.
Proof.
  intros Hm. destruct m as [|p|p]; [congruence| |].
  - change (- Z.pos p)%Z with (Z.neg p).
    unfold binary_normalize, binary_round.
    destruct (shl_align _ _ _) as [mz ez].
    apply (binary_round_aux_opp false).
  - change (- Z.neg p)%Z with (Z.pos p).
    unfold binary_normalize, binary_round.
    destruct (shl_align _ _ _) as [mz ez].
    change true with (negb false) at 1.
    rewrite binary_round_aux_opp.
    destruct (binary_round_aux _ _ _ _ _ _) as [[]|[]| |[] ? ?]; reflexivity.
Qed.

(** [v] is [u] with the sign changed, or both are [+0]: how [b - a]
    relates to [a - b]. *)
Definition mirrored (u v : float) : Prop := v = - u \/ (u = zero /\ v = zero).

Lemma sub_swap (a b : float) : mirrored (a - b) (b - a).
Proof.
  destruct a as [sa|sa| |sa ma ea], b as [sb|sb| |sb mb eb];
    try (destruct sa, sb; cbn; unfold mirrored; auto; fail);
    try (cbn; unfold mirrored; auto; fail).
  unfold sub, SFsub. rewrite (Z.min_comm eb ea).
  set (x := cond_Zopp sa _). set (y := cond_Zopp sb _).
  destruct (Z.eq_dec (x - y)%Z 0%Z) as [E|E].
  - right. replace (y - x)%Z with 0%Z by lia. rewrite E. split; reflexivity.
  - left. replace (y - x)%Z with (- (x - y))%Z by lia.
    apply binary_normalize_opp. exact E.
Qed.

Lemma mirrored_square (u v : float) : mirrored u v -> u * u = v * v.
Proof.
  intros [->|[-> ->]]; [|reflexivity].
  destruct u as [[]|[]| |[] m e]; reflexivity.
Qed.

(** *** The order *)

Lemma compare_swap (a b : float) :
  SFcompare b a = option_map CompOpp (SFcompare a b).
Proof.
  destruct a as [sa|sa| |sa ma ea], b as [sb|sb| |sb mb eb]; cbn;
    try (destruct sa; reflexivity); try (destruct sb; reflexivity);
    try (destruct sa, sb; reflexivity); try reflexivity.
  pose proof (Pos.compare_cont_antisym ma mb Eq) as Hm. cbn in Hm.
  destruct sa, sb; cbn; try reflexivity;
    rewrite (Z.compare_antisym ea eb); destruct (ea ?= eb)%Z; cbn; try reflexivity;
    rewrite <- Hm; destruct (Pos.compare_cont Eq ma mb); reflexivity.
Qed.

Lemma ltb_asym (a b : float) : (a <? b) = true -> (b <? a) = false.
Proof.
  unfold ltb, SFltb. rewrite (compare_swap a b).
  destruct (SFcompare a b) as [[]|]; cbn; congruence.
Qed.

Lemma ltb_irrefl (a : float) : (a <? a) = false.
Proof.
  destruct (a <? a) eqn:E; [|reflexivity].
  pose proof (ltb_asym a a E). congruence.
Qed.

Lemma ltb_leb (a b : float) : (a <? b) = true -> (a <=? b) = true.
Proof.
  unfold ltb, leb, SFltb, SFleb. destruct (SFcompare a b) as [[]|]; congruence.
Qed.

(** A rank that orders the floats other than NaN as [SFcompare]
    does: the class, then the exponent, then the mantissa. *)
Definition rank (a : float) : Z * Z * Z :=
  match a with
  | S754_infinity true => (-2, 0, 0)
  | S754_finite true m e => (-1, - e, - Z.pos m)
  | S754_zero _ | S754_nan => (0, 0, 0)
  | S754_finite false m e => (1, e, Z.pos m)
  | S754_infinity false => (2, 0, 0)
  end%Z.

Definition rank_lt (r1 r2 : Z * Z * Z) : Prop :=
  (r1.1.1 < r2.1.1
   \/ (r1.1.1 = r2.1.1
       /\ (r1.1.2 < r2.1.2 \/ (r1.1.2 = r2.1.2 /\ r1.2 < r2.2))))%Z.

Lemma ltb_rank (a b : float) :
  (a <? b) = true <-> (is_nan a = false /\ is_nan b = false /\ rank_lt (rank a) (rank b)).
Proof.
  unfold ltb, SFltb, rank_lt.
  destruct a as [sa|sa| |sa ma ea], b as [sb|sb| |sb mb eb]; cbn;
    try (destruct sa); try (destruct sb); cbn;
    try (split; [discriminate | intros (_ & _ & H); lia]);
    try (split; [discriminate | intros (H & _ & _); discriminate]);
    try (split; [discriminate | intros (_ & H & _); discriminate]);
    try (split; [intros _; repeat split; lia | reflexivity]).
  - destruct (Z.compare_spec ea eb) as [E|E|E]; cbn.
    + rewrite Pos.compare_cont_spec. cbn.
      destruct (Pos.compare_spec ma mb) as [M|M|M]; cbn;
        (split; [try discriminate; intros _; repeat split; lia
                | intros (_ & _ & H); try reflexivity; lia]).
    + split; [discriminate | intros (_ & _ & H); lia].
    + split; [intros _; repeat split; lia | reflexivity].
  - destruct (Z.compare_spec ea eb) as [E|E|E]; cbn.
    + rewrite Pos.compare_cont_spec. cbn.
      destruct (Pos.compare_spec ma mb) as [M|M|M]; cbn;
        (split; [try discriminate; intros _; repeat split; lia
                | intros (_ & _ & H); try reflexivity; lia]).
    + split; [intros _; repeat split; lia | reflexivity].
    + split; [discriminate | intros (_ & _ & H); lia].
Qed.

Lemma ltb_trans (a b c : float) :
  (a <? b) = true -> (b <? c) = true -> (a <? c) = true.
Proof.
  rewrite !ltb_rank. unfold rank_lt.
  intros (Ha & Hb & H1) (_ & Hc & H2). repeat split; try assumption. lia.
Qed.

(** [¬ (b < a)] and [a < c], for numbers: then [b < c] fails only if
    ... *)
Lemma not_ltb_trans (a b c : float) :
  (a <? b) = false -> (c <? b) = true -> is_nan a = false -> (c <? a) = true.
Proof.
  intros Hab Hcb Ha.
  destruct (c <? a) eqn:E; [reflexivity|].
  apply ltb_rank in Hcb as (Hc & Hb & H).
  assert (H1 : ~ rank_lt (rank a) (rank b)).
  { intros Hr. rewrite (proj2 (ltb_rank a b)) in Hab; [discriminate|auto]. }
  assert (H2 : ~ rank_lt (rank c) (rank a)).
  { intros Hr. rewrite (proj2 (ltb_rank c a)) in E; [discriminate|auto]. }
  unfold rank_lt in *. lia.
Qed.

(** *** Signs *)

(** NaN, a zero, or a positive number: what [a < 0] being false means. *)
Definition notNegative (a : float) : bool :=
  match a with
  | S754_infinity true | S754_finite true _ _ => false
  | _ => true
  end.

Lemma notNegative_ltb (a : float) : notNegative a = negb (a <? zero).
Proof. destruct a as [[]|[]| |[] m e]; reflexivity. Qed.

Lemma binary_round_aux_notNegative (m e : Z) (l : location) :
  notNegative (binary_round_aux prec emax false m e l) = true.
Proof.
  unfold binary_round_aux.
  destruct (shr_fexp prec emax m e l) as [mrs' e'].
  destruct (shr_fexp prec emax _ e' loc_Exact) as [mrs'' e''].
  destruct (shr_m mrs'') as [|p|p]; try reflexivity.
  destruct (e'' <=? emax - prec)%Z; reflexivity.
Qed.

Lemma mul_notNegative (a b : float) :
  notNegative a = true -> notNegative b = true -> notNegative (a * b) = true.
Proof.
  destruct a as [[]|[]| |[] ma ea], b as [[]|[]| |[] mb eb];
    try discriminate; intros _ _; try reflexivity.
  apply binary_round_aux_notNegative.
Qed.

Lemma square_notNegative (a : float) : notNegative (a * a) = true.
Proof.
  destruct a as [[]|[]| |[] m e]; try reflexivity;
    apply binary_round_aux_notNegative.
Qed.

Lemma add_notNegative (a b : float) :
  notNegative a = true -> notNegative b = true -> notNegative (a + b) = true.
Proof.
  destruct a as [[]|[]| |[] ma ea], b as [[]|[]| |[] mb eb];
    try discriminate; intros _ _; try reflexivity.
  unfold add, SFadd. cbn [cond_Zopp].
  destruct (shl_align ma ea _) as [m1 e1], (shl_align mb eb _) as [m2 e2].
  cbn [fst]. change (Z.pos m1 + Z.pos m2)%Z with (Z.pos (m1 + m2)).
  unfold binary_normalize, binary_round.
  destruct (shl_align _ _ _) as [mz ez]. apply binary_round_aux_notNegative.
Qed.

(** *** Division *)

Lemma div_core_nonneg (m1 m2 : positive) (e1 e2 : Z) :
  0 <= (SFdiv_core_binary prec emax (Z.pos m1) e1 (Z.pos m2) e2).1.1.
Proof.
  unfold SFdiv_core_binary.
  set (s := (e1 - e2 - _)%Z).
  set (m' := match s with Z.pos _ => Z.shiftl (Z.pos m1) s | 0 => Z.pos m1 | Z.neg _ => 0 end%Z).
  assert (Hm : 0 <= m').
  { subst m'. destruct s; try lia. apply Z.shiftl_nonneg. lia. }
  pose proof (Z.div_pos m' (Z.pos m2) Hm ltac:(lia)) as Hq.
  unfold Z.div in Hq.
  destruct (Z.div_eucl m' (Z.pos m2)) as [q r]. exact Hq.
Qed.

(** Only [0/0], [inf/inf] and a NaN operand give NaN. *)
Lemma div_not_nan (a b : float) :
  is_finite a = true -> is_nan b = false -> is_zero b = false ->
  is_nan (a / b) = false.
Proof.
  destruct a as [sa|sa| |sa ma ea], b as [sb|sb| |sb mb eb];
    try discriminate; intros _ _ _; try reflexivity.
  unfold div, SFdiv.
  pose proof (div_core_nonneg ma mb ea eb) as H.
  destruct (SFdiv_core_binary _ _ _ _ _ _) as [[mz ez] lz]. cbn [fst] in H.
  apply F32Facts.binary_round_aux_not_nan. exact H.
Qed.

Lemma gtb_positive (a b : float) :
  notNegative b = true -> (a >? b) = true -> is_nan a = false /\ is_zero a = false.
Proof.
  unfold gtb, SFltb.
  destruct a as [[]|[]| |[] ma ea], b as [[]|[]| |[] mb eb]; cbn;
    try discriminate; auto.
Qed.

End F32Algebra.

(** ** Vectors, bodies and balls: algebraic properties *)

Module Geometry.

Import F32Algebra.
Local Open Scope f32_scope.

(** X8.  The dot product is symmetric in binary32 arithmetic, bit for
    bit and for every input (NaN, infinities and zeros included), and
    [magnitudeSquared] is the dot product of a vector with itself. *)
Theorem dot_is_symmetric (a b : Vector3) :
  Vector3.dot a b = Vector3.dot b a
  /\ Vector3.magnitudeSquared a = Vector3.dot a a.
Proof.
  split; [|reflexivity]. unfold Vector3.dot.
  rewrite (mul_comm (Vector3.x a)), (mul_comm (Vector3.y a)), (mul_comm (Vector3.z a)).
  reflexivity.
Qed.

Lemma magnitude_sub_swap (a b : Vector3) :
  Vector3.magnitude (Vector3.sub a b) = Vector3.magnitude (Vector3.sub b a).
Proof.
  unfold Vector3.magnitude, Vector3.sub.
  cbn [Vector3.x Vector3.y Vector3.z].
  rewrite (mirrored_square _ _ (sub_swap (Vector3.x a) (Vector3.x b))).
  rewrite (mirrored_square _ _ (sub_swap (Vector3.y a) (Vector3.y b))).
  rewrite (mirrored_square _ _ (sub_swap (Vector3.z a) (Vector3.z b))).
  reflexivity.
Qed.

(** X9.  The distance between two bodies and the overlap test do not
    depend on which body is asked: [a.getDistanceTo(b)] equals
    [b.getDistanceTo(a)] bit for bit, and [a.isCollidingWith(b)]
    equals [b.isCollidingWith(a)], for all positions and radii. *)
Theorem collision_test_is_symmetric (a b : PhysicsBody) :
  PhysicsBody.getDistanceTo a b = PhysicsBody.getDistanceTo b a
  /\ PhysicsBody.isCollidingWith a b = PhysicsBody.isCollidingWith b a.
Proof.
  unfold PhysicsBody.getDistanceTo, PhysicsBody.isCollidingWith.
  rewrite (magnitude_sub_swap (PhysicsBody.position a) (PhysicsBody.position b)).
  rewrite (add_comm (PhysicsBody.radius a) (PhysicsBody.radius b)).
  rewrite (orb_comm (negb (PhysicsBody.isActive a))).
  split; reflexivity.
Qed.

(** *** [normalized] *)

Definition is_infinity (a : F32.float) : bool :=
  match a with S754_infinity _ => true | _ => false end.

(** No component is an infinity. *)
Definition bounded (v : Vector3) : bool :=
  negb (is_infinity (Vector3.x v)) && negb (is_infinity (Vector3.y v))
  && negb (is_infinity (Vector3.z v)).

Lemma sqrt_nan (a : F32.float) : F32.is_nan (F32.sqrt a) = false -> F32.is_nan a = false.
Proof. destruct a; [reflexivity | reflexivity | discriminate | reflexivity]. Qed.

Lemma add_nan_operands (a b : F32.float) :
  F32.is_nan (a + b) = false -> F32.is_nan a = false /\ F32.is_nan b = false.
Proof.
  destruct a as [sa|sa| |sa ma ea], b as [sb|sb| |sb mb eb]; cbn;
    try discriminate; auto.
Qed.

Lemma square_nan (a : F32.float) : F32.is_nan (a * a) = false -> F32.is_nan a = false.
Proof. destruct a; [reflexivity | reflexivity | discriminate | reflexivity]. Qed.

Lemma magnitude_nan (v : Vector3) :
  F32.is_nan (Vector3.magnitude v) = false -> Vector3Facts.no_nan v = true.
Proof.
  unfold Vector3.magnitude, Vector3Facts.no_nan. intros H.
  apply sqrt_nan, add_nan_operands in H as [H Hz].
  apply add_nan_operands in H as [Hx Hy].
  apply square_nan in Hx, Hy, Hz. rewrite Hx, Hy, Hz. reflexivity.
Qed.

Lemma finite_of_parts (a : F32.float) :
  F32.is_nan a = false -> is_infinity a = false -> F32.is_finite a = true.
Proof. destruct a; cbn; congruence. Qed.

(** X10.  [normalized()] returns the zero vector whenever [isZero()]
    holds for the default tolerance, and it never returns a NaN
    component for a vector that has no infinite component, a vector
    with a NaN component included. *)
Theorem normalized_is_zero_or_number (v : Vector3) :
  (Vector3.isZero Lit.f0_0001 v = true -> Vector3.normalized v = Vector3.ZERO)
  /\ (bounded v = true -> Vector3Facts.no_nan (Vector3.normalized v) = true).
Proof.
  unfold Vector3.isZero, Vector3.normalized. split.
  - intros H. cbv zeta.
    change (Vector3.magnitude v >? Lit.f0_0001)
      with (Lit.f0_0001 <? Vector3.magnitude v).
    rewrite (ltb_asym _ _ H). reflexivity.
  - intros Hb. destruct (Vector3.magnitude v >? Lit.f0_0001) eqn:E; [|reflexivity].
    apply gtb_positive in E as [Hn Hz]; [|reflexivity].
    pose proof (magnitude_nan v Hn) as Hv.
    unfold Vector3Facts.no_nan, bounded, Vector3.divide in *.
    cbn [Vector3.x Vector3.y Vector3.z].
    apply andb_prop in Hv as [[Nx Ny]%andb_prop Nz].
    apply andb_prop in Hb as [[Bx By]%andb_prop Bz].
    apply negb_true_iff in Nx, Ny, Nz, Bx, By, Bz.
    rewrite !div_not_nan; auto using finite_of_parts.
Qed.

(** *** Restitution and friction *)

Lemma clamp_unit_interval (v : F32.float) :
  let r := F32.max F32.zero (F32.min F32.one v) in
  (F32.zero <=? r) = true /\ (r <=? F32.one) = true
  /\ ((F32.zero <? v) = true -> (v <? F32.one) = true -> r = v)
  /\ (F32.is_nan v = true -> r = F32.one)
  /\ F32.max F32.zero (F32.min F32.one r) = r.
Proof.
  cbv zeta. unfold F32.max, F32.min.
  destruct (v <? F32.one) eqn:E1.
  - destruct (F32.zero <? v) eqn:E2.
    + rewrite E1, E2. repeat split; auto using ltb_leb.
      intros Hn. destruct v; discriminate.
    + change (F32.zero <? F32.one) with true.
      change (F32.zero <? F32.zero) with false. cbn iota.
      repeat split; try reflexivity; try discriminate.
      intros Hn. destruct v; discriminate.
  - change (F32.zero <? F32.one) with true. cbn iota.
    change (F32.one <? F32.one) with false. cbn iota.
    change (F32.zero <? F32.one) with true. cbn iota.
    repeat split; intros; try reflexivity; discriminate.
Qed.

(** X11.  [setRestitution] and [setFriction] store a value of the
    interval [0, 1] whatever the argument: an argument strictly
    between 0 and 1 is stored as given, a NaN is stored as 1, and
    setting the stored value again changes nothing. *)
Theorem setters_clamp_to_unit_interval (v : F32.float) (b : PhysicsBody) :
  let r := PhysicsBody.restitution (PhysicsBody.setRestitution v b) in
  let f := PhysicsBody.friction (PhysicsBody.setFriction v b) in
  r = f
  /\ (F32.zero <=? r) = true /\ (r <=? F32.one) = true
  /\ ((F32.zero <? v) = true -> (v <? F32.one) = true -> r = v)
  /\ (F32.is_nan v = true -> r = F32.one)
  /\ PhysicsBody.setRestitution r (PhysicsBody.setRestitution v b)
     = PhysicsBody.setRestitution v b
  /\ PhysicsBody.setFriction f (PhysicsBody.setFriction v b)
     = PhysicsBody.setFriction v b.
Proof.
  cbv zeta. unfold PhysicsBody.setRestitution, PhysicsBody.setFriction.
  cbn [PhysicsBody.restitution PhysicsBody.friction PhysicsBody.set_restitution
       PhysicsBody.set_friction].
  destruct (clamp_unit_interval v) as (H0 & H1 & Hin & Hnan & Hid).
  repeat split; try assumption.
  - unfold PhysicsBody.set_restitution. cbn. rewrite Hid. reflexivity.
  - unfold PhysicsBody.set_friction. cbn. rewrite Hid. reflexivity.
Qed.

(** *** Static bodies *)

(** The calls that move a body. *)
Inductive Call : Type :=
| ApplyForce (f : Vector3)
| ApplyImpulse (impulse : Vector3)
| Update (deltaTime : F32.float).

Definition call (b : PhysicsBody) (c : Call) : PhysicsBody :=
  match c with
  | ApplyForce f => PhysicsBody.applyForce f b
  | ApplyImpulse i => PhysicsBody.applyImpulse i b
  | Update dt => PhysicsBody.update dt b
  end.

(** X12.  After [setStatic(true)] the body is at rest (zero velocity,
    acceleration and force, position as before, inverse mass 0), and
    no sequence of [applyForce], [applyImpulse] and [update] calls
    changes it in any way. *)
Theorem static_body_ignores_calls (b : PhysicsBody) (calls : list Call) :
  let s := PhysicsBody.setStatic true b in
  foldl call s calls = s
  /\ PhysicsBody.velocity s = Vector3.ZERO
  /\ PhysicsBody.acceleration s = Vector3.ZERO
  /\ PhysicsBody.force s = Vector3.ZERO
  /\ PhysicsBody.position s = PhysicsBody.position b
  /\ PhysicsBody.getInverseMass s = F32.zero.
Proof.
  cbv zeta. split; [|repeat split].
  induction calls as [|c calls IH]; [reflexivity|].
  cbn [foldl]. rewrite <- IH at 2. f_equal.
  destruct c; cbn [call].
  - reflexivity.
  - reflexivity.
  - unfold PhysicsBody.update. cbn. rewrite orb_true_r. reflexivity.
Qed.

(** *** Balls *)

(** X13.  [Ball::update] never leaves a ball that is not held below
    the floor: afterwards [position.y < radius] is false, whatever the
    time step, also for a ball that is static or inactive; the radius
    itself is unchanged. *)
Theorem ball_update_keeps_above_floor (dt : F32.float) (b : Ball) :
  Ball.isHeld b = false ->
  let b' := Ball.update dt b in
  (Vector3.y (PhysicsBody.position (Ball.body b')) <? PhysicsBody.radius (Ball.body b'))
  = false
  /\ PhysicsBody.radius (Ball.body b') = PhysicsBody.radius (Ball.body b).
Proof.
  intros Hh. cbv zeta. unfold Ball.update. rewrite Hh.
  cbn [Ball.body Ball.set_body].
  set (pb := PhysicsBody.set_velocity _ _).
  assert (Hr : PhysicsBody.radius pb = PhysicsBody.radius (Ball.body b)).
  { subst pb. cbn. unfold PhysicsBody.update. destruct (_ || _); reflexivity. }
  destruct (Vector3.y (PhysicsBody.position pb) <? PhysicsBody.radius pb) eqn:E.
  - destruct (Vector3.y (PhysicsBody.velocity _) <? F32.zero);
      cbn; (split; [apply ltb_irrefl | exact Hr]).
  - split; [exact E | exact Hr].
Qed.

Lemma magnitudeSquared_notNegative (v : Vector3) :
  notNegative (Vector3.magnitudeSquared v) = true.
Proof.
  unfold Vector3.magnitudeSquared.
  auto using add_notNegative, square_notNegative.
Qed.

(** X14.  The kinetic energy of a ball is never negative: whenever
    the mass is not negative, [getKineticEnergy() < 0] is false, for
    every velocity (the result is a number at least 0, or NaN). *)
Theorem kinetic_energy_is_not_negative (b : Ball) :
  (PhysicsBody.mass (Ball.body b) <? F32.zero) = false ->
  (Ball.getKineticEnergy b <? F32.zero) = false.
Proof.
  intros Hm. apply negb_true_iff. rewrite <- notNegative_ltb.
  apply negb_true_iff in Hm. rewrite <- notNegative_ltb in Hm.
  unfold Ball.getKineticEnergy.
  apply mul_notNegative; [apply mul_notNegative; [reflexivity | exact Hm]|].
  apply magnitudeSquared_notNegative.
Qed.

End Geometry.

(** ** The input handler *)

Module InputFacts.

Import InputHandler.

Lemma updateKey_recorded (previous : gmap Z bool) (pressed released : gset Z)
    (pair : Z * bool) :
  previous !! pair.1 = Some pair.2 ->
  updateKey (previous, pressed, released) pair = (previous, pressed, released).
Proof.
  intros H. unfold updateKey, subscript. rewrite H.
  destruct pair.2; reflexivity.
Qed.

(** Whatever the order in which the entries are visited. *)
Lemma updateKeys_recorded (previous : gmap Z bool) (pressed released : gset Z)
    (entries : list (Z * bool)) :
  (forall pair, pair ∈ entries -> previous !! pair.1 = Some pair.2) ->
  foldl updateKey (previous, pressed, released) entries
  = (previous, pressed, released).
Proof.
  induction entries as [|pair entries IH]; intros H; [reflexivity|].
  cbn [foldl]. rewrite updateKey_recorded by (apply H; left).
  apply IH. intros p Hp. apply H. right. exact Hp.
Qed.

(** The loop of [update] finds every entry of [keyStates] recorded in
    the copy that has just been made. *)
Lemma update_loop (h : InputHandler) :
  foldl updateKey (keyStates h, ∅, ∅) (map_to_list (keyStates h))
  = (keyStates h, ∅, ∅).
Proof.
  apply updateKeys_recorded.
  intros [k v] Hp. apply elem_of_map_to_list. exact Hp.
Qed.

Lemma wasKeyPressed_update (key : Z) (h : InputHandler) :
  wasKeyPressed key (update h) = false.
Proof.
  unfold update. rewrite update_loop. destruct (mouseGrabbed h); reflexivity.
Qed.

Lemma keyStates_update (h : InputHandler) : keyStates (update h) = keyStates h.
Proof.
  unfold update. rewrite update_loop. destruct (mouseGrabbed h); reflexivity.
Qed.

(** X15.  [update()] copies [keyStates] to [previousKeyStates] before
    it compares them, so that it never finds a change: after every
    [update()], in every state, [keysPressed] and [keysReleased] are
    empty, and [wasKeyPressed(key)] and [wasKeyReleased(key)] are
    false for every key. *)
Theorem update_reports_no_key_change (h : InputHandler) :
  keysPressed (update h) = ∅
  /\ keysReleased (update h) = ∅
  /\ previousKeyStates (update h) = keyStates h
  /\ keyStates (update h) = keyStates h
  /\ forall key, wasKeyPressed key (update h) = false
                 /\ wasKeyReleased key (update h) = false.
Proof.
  unfold update. rewrite update_loop.
  destruct (mouseGrabbed h); cbn; repeat split; reflexivity.
Qed.

(** X16.  [isKeyPressed] reports the last press or release that
    [keyCallbackImpl] has received for the key: true after a press,
    false after a release and for a key never seen; a repeat event
    and the events of other keys leave it as it is, and so does
    [update()]. *)
Theorem isKeyPressed_follows_events (key scancode action mods : Z)
    (h : InputHandler) :
  isKeyPressed key (keyCallbackImpl key scancode GLFW_PRESS mods h) = true
  /\ isKeyPressed key (keyCallbackImpl key scancode GLFW_RELEASE mods h) = false
  /\ (action <> GLFW_PRESS -> action <> GLFW_RELEASE ->
      keyCallbackImpl key scancode action mods h = h)
  /\ (forall other, other <> key ->
        isKeyPressed other (keyCallbackImpl key scancode action mods h)
        = isKeyPressed other h)
  /\ isKeyPressed key (update h) = isKeyPressed key h
  /\ isKeyPressed key create = false.
Proof.
  unfold isKeyPressed, keyCallbackImpl.
  split; [|split; [|split; [|split; [|split]]]].
  - cbn. rewrite lookup_insert_eq. reflexivity.
  - cbn. rewrite lookup_insert_eq. reflexivity.
  - intros Hp Hr.
    destruct (Z.eqb_spec action GLFW_PRESS); [contradiction|].
    destruct (Z.eqb_spec action GLFW_RELEASE); [contradiction|]. reflexivity.
  - intros other Ho.
    destruct (action =? GLFW_PRESS); [cbn; rewrite lookup_insert_ne by congruence; reflexivity|].
    destruct (action =? GLFW_RELEASE); [cbn; rewrite lookup_insert_ne by congruence|];
      reflexivity.
  - rewrite keyStates_update. reflexivity.
  - reflexivity.
Qed.

Lemma sub_diag64 (a : F64.float) :
  F64.is_finite a = true -> F64.sub a a = F64.zero.
Proof.
  destruct a as [[]| | |s m e]; try discriminate; intros _; try reflexivity.
  unfold F64.sub, SFsub. rewrite Z.min_id.
  unfold shl_align. rewrite Z.sub_diag. reflexivity.
Qed.

(** X17.  The first cursor position received after [resetMouseDelta()]
    produces no movement: the [update()] that follows reports the
    delta [(0, 0)], wherever the cursor is.  And while the mouse is
    not grabbed every [update()] reports [(0, 0)]. *)
Theorem first_cursor_event_gives_no_delta (xpos ypos : F64.float)
    (h : InputHandler) :
  F64.is_finite xpos = true -> F64.is_finite ypos = true ->
  getMouseDelta (update (mouseCallbackImpl xpos ypos (resetMouseDelta h)))
  = (F64.zero, F64.zero)
  /\ (mouseGrabbed h = false -> getMouseDelta (update h) = (F64.zero, F64.zero)).
Proof.
  intros Hx Hy. unfold getMouseDelta, update. split.
  - destruct (foldl _ _ _) as [[previous pressed] released].
    cbn. destruct (mouseGrabbed h); cbn; [|reflexivity].
    rewrite !sub_diag64 by assumption. reflexivity.
  - intros ->. destruct (foldl _ _ _) as [[previous pressed] released]. reflexivity.
Qed.

End InputFacts.

(** ** The camera *)

Module CameraFacts.

Import F32Algebra.
Local Open Scope f32_scope.

Lemma leb_of_not_ltb (a b : F32.float) :
  (a <? b) = false -> F32.is_nan a = false -> F32.is_nan b = false ->
  (b <=? a) = true.
Proof.
  unfold F32.ltb, F32.leb, SFltb, SFleb. rewrite (compare_swap a b).
  destruct a as [sa|sa| |sa ma ea], b as [sb|sb| |sb mb eb]; try discriminate;
    cbn; intros H _ _;
    repeat match goal with
           | s : bool |- _ => destruct s
           end; cbn in *; try reflexivity; try discriminate;
    destruct (ea ?= eb)%Z; cbn in *; try reflexivity; try discriminate;
    destruct (Pos.compare_cont Eq ma mb); cbn in *; try reflexivity; discriminate.
Qed.

(** The two tests [if (v < lo) v = lo; if (v > hi) v = hi;]. *)
Definition clamp (lo hi v : F32.float) : F32.float :=
  let v := if v <? lo then lo else v in
  if v >? hi then hi else v.

Lemma clamp_range (lo hi v : F32.float) :
  (lo <=? hi) = true ->
  (F32.is_nan v = true /\ clamp lo hi v = v)
  \/ (F32.is_nan v = false
      /\ (lo <=? clamp lo hi v) = true /\ (clamp lo hi v <=? hi) = true).
Proof.
  intros Hlh.
  assert (Hl : F32.is_nan lo = false) by (destruct lo, hi; try reflexivity; discriminate).
  assert (Hh : F32.is_nan hi = false)
    by (destruct lo as [[]|[]| |[] ? ?], hi; try reflexivity; discriminate).
  assert (Hll : (lo <=? lo) = true).
  { apply leb_of_not_ltb; [apply ltb_irrefl | exact Hl | exact Hl]. }
  assert (Hhh : (hi <=? hi) = true).
  { apply leb_of_not_ltb; [apply ltb_irrefl | exact Hh | exact Hh]. }
  unfold clamp. destruct (F32.is_nan v) eqn:Hn.
  - left. destruct v; try discriminate. split; [reflexivity|].
    destruct hi; reflexivity.
  - right. split; [reflexivity|].
    destruct (v <? lo) eqn:E1.
    + assert (E : (lo >? hi) = false).
      { unfold F32.gtb. change (SFltb hi lo) with (hi <? lo).
        destruct (hi <? lo) eqn:E; [|reflexivity].
        pose proof (ltb_asym _ _ E) as E'.
        unfold F32.ltb, F32.leb, SFltb, SFleb in *.
        rewrite (compare_swap hi lo) in Hlh.
        destruct (SFcompare hi lo) as [[]|]; cbn in *; congruence. }
      rewrite E. auto.
    + destruct (v >? hi) eqn:E2.
      * auto.
      * split; apply leb_of_not_ltb; assumption.
Qed.

(** X18.  The field of view and the pitch are kept inside their
    limits.  After [processMouseScroll] or [setFOV] the field of view
    lies in [1, 120], and after [processMouseMovement] (with the
    constraint) or [setOrientation] the pitch of a camera with the
    limits of the constructor lies in [-89, 89]; the only other
    outcome is a NaN, which the tests let through. *)
Theorem camera_limits (cos sin : F64.float -> F64.float) (c : Camera)
    (xOffset yOffset newFOV newYaw newPitch : F32.float) :
  let inside (lo hi v : F32.float) : Prop :=
    F32.is_nan v = true \/ ((lo <=? v) = true /\ (v <=? hi) = true) in
  inside Lit.f1 Lit.f120 (Camera.fov (Camera.processMouseScroll yOffset c))
  /\ inside Lit.f1 Lit.f120 (Camera.fov (Camera.setFOV newFOV c))
  /\ (Camera.minPitch c = - Lit.f89 -> Camera.maxPitch c = Lit.f89 ->
      inside (- Lit.f89) Lit.f89
        (Camera.pitch (Camera.processMouseMovement cos sin xOffset yOffset true c))
      /\ inside (- Lit.f89) Lit.f89
           (Camera.pitch (Camera.setOrientation cos sin newYaw newPitch c))).
Proof.
  cbv zeta.
  assert (Hfov : forall v,
             F32.is_nan (clamp Lit.f1 Lit.f120 v) = true
             \/ ((Lit.f1 <=? clamp Lit.f1 Lit.f120 v) = true
                 /\ (clamp Lit.f1 Lit.f120 v <=? Lit.f120) = true)).
  { intros v. destruct (clamp_range Lit.f1 Lit.f120 v) as [[Hn ->]|[_ H]];
      [reflexivity | auto | auto]. }
  split; [apply Hfov|]. split; [apply Hfov|].
  intros Hmin Hmax.
  assert (Hpitch : forall v,
             let p := if v >? Lit.f89 then Lit.f89 else v in
             let p := if p <? - Lit.f89 then - Lit.f89 else p in
             F32.is_nan p = true
             \/ ((- Lit.f89 <=? p) = true /\ (p <=? Lit.f89) = true)).
  { intros v. cbv zeta. destruct (F32.is_nan v) eqn:Hn.
    - left. destruct v; try discriminate. reflexivity.
    - right. destruct (v >? Lit.f89) eqn:E1.
      + split; reflexivity.
      + destruct (v <? - Lit.f89) eqn:E2.
        * split; reflexivity.
        * split; apply leb_of_not_ltb; try assumption; reflexivity. }
  unfold Camera.processMouseMovement, Camera.setOrientation,
    Camera.updateCameraVectors, Camera.set_orientation.
  cbn [Camera.pitch Camera.maxPitch Camera.minPitch].
  rewrite Hmin, Hmax. split; apply Hpitch.
Qed.

End CameraFacts.

(** ** The game: picking up a ball *)

Module PlayerFacts.

Import F32Algebra PhysicsWorld.
Local Open Scope f32_scope.

Lemma elem_of_getBalls (w : PhysicsWorld) (p : nat) (b : Ball) :
  (p, b) ∈ getBalls w <-> bodies w !! p = Some (OfBall b).
Proof.
  unfold getBalls. rewrite list_elem_of_omap. split.
  - intros ([q o] & Hq & Ho). apply elem_of_lookup_imap in Hq as (i & y & E & Hy).
    injection E as -> ->. cbn in Ho. destruct y as [pb|b0]; [discriminate|].
    injection Ho as -> ->. exact Hy.
  - intros H. exists (p, OfBall b). split; [|reflexivity].
    apply elem_of_lookup_imap. exists p, (OfBall b). auto.
Qed.

(** The distance that [findNearestBall] computes for a ball. *)
Definition distanceFrom (cameraPos : Vector3) (b : Ball) : F32.float :=
  Vector3.magnitude (Vector3.sub (PhysicsBody.position (Ball.body b)) cameraPos).

(** The loop of [findNearestBall]. *)
Definition nearestStep (cameraPos : Vector3) (st : option nat * F32.float)
    (ball : nat * Ball) : option nat * F32.float :=
  let '(nearestBall, nearestDistance) := st in
  if Ball.isHeld ball.2 then (nearestBall, nearestDistance)
  else
    let distance := distanceFrom cameraPos ball.2 in
    if distance <? nearestDistance then (Some ball.1, distance)
    else (nearestBall, nearestDistance).

(** What holds after the loop has visited the balls [seen]. *)
Definition nearestSoFar (cameraPos : Vector3) (range : F32.float)
    (seen : list (nat * Ball)) (st : option nat * F32.float) : Prop :=
  match st.1 with
  | None =>
      st.2 = range
      /\ forall p b, (p, b) ∈ seen -> Ball.isHeld b = false ->
                     (distanceFrom cameraPos b <? range) = false
  | Some p =>
      exists b, (p, b) ∈ seen /\ Ball.isHeld b = false
                /\ st.2 = distanceFrom cameraPos b
                /\ (distanceFrom cameraPos b <? range) = true
                /\ forall q b', (q, b') ∈ seen -> Ball.isHeld b' = false ->
                                (distanceFrom cameraPos b' <? distanceFrom cameraPos b)
                                = false
  end.

Lemma nearestStep_invariant (cameraPos : Vector3) (range : F32.float)
    (seen : list (nat * Ball)) (st : option nat * F32.float) (ball : nat * Ball) :
  nearestSoFar cameraPos range seen st ->
  nearestSoFar cameraPos range (seen ++ [ball]) (nearestStep cameraPos st ball).
Proof.
  destruct st as [nb nd], ball as [q bq]. unfold nearestSoFar, nearestStep.
  cbn [fst snd]. intros H.
  destruct (Ball.isHeld bq) eqn:Eh.
  - destruct nb as [p|]; cbn [fst snd].
    + destruct H as (b & Hin & Hb & Hd & Hr & Hmin).
      exists b. repeat split; try assumption.
      * apply elem_of_app. left. exact Hin.
      * intros q' b' [Hq|Hq%list_elem_of_singleton]%elem_of_app Hb'.
        -- eauto.
        -- injection Hq as -> ->. congruence.
    + destruct H as [Hd Hall]. split; [exact Hd|].
      intros p b [Hq|Hq%list_elem_of_singleton]%elem_of_app Hb.
      * eauto.
      * injection Hq as -> ->. congruence.
  - destruct (distanceFrom cameraPos bq <? nd) eqn:El; cbn [fst snd].
    + exists bq. split; [apply elem_of_app; right; apply list_elem_of_singleton; reflexivity|].
      split; [exact Eh|]. split; [reflexivity|].
      destruct nb as [p|]; cbn [fst snd] in H.
      * destruct H as (b & Hin & Hb & Hd & Hr & Hmin). subst nd.
        split; [eapply ltb_trans; eassumption|].
        intros q' b' [Hq|Hq%list_elem_of_singleton]%elem_of_app Hb'.
        -- destruct (distanceFrom cameraPos b' <? distanceFrom cameraPos bq) eqn:E;
             [|reflexivity].
           rewrite <- (Hmin q' b' Hq Hb'). symmetry. eapply ltb_trans; eassumption.
        -- injection Hq as -> ->. apply ltb_irrefl.
      * destruct H as [Hd Hall]. subst nd. split; [exact El|].
        intros q' b' [Hq|Hq%list_elem_of_singleton]%elem_of_app Hb'.
        -- destruct (distanceFrom cameraPos b' <? distanceFrom cameraPos bq) eqn:E;
             [|reflexivity].
           rewrite <- (Hall q' b' Hq Hb'). symmetry. eapply ltb_trans; eassumption.
        -- injection Hq as -> ->. apply ltb_irrefl.
    + destruct nb as [p|]; cbn [fst snd] in *.
      * destruct H as (b & Hin & Hb & Hd & Hr & Hmin). subst nd.
        exists b. repeat split; try assumption.
        -- apply elem_of_app. left. exact Hin.
        -- intros q' b' [Hq|Hq%list_elem_of_singleton]%elem_of_app Hb'.
           ++ eauto.
           ++ injection Hq as -> ->. exact El.
      * destruct H as [Hd Hall]. subst nd. split; [reflexivity|].
        intros p b [Hq|Hq%list_elem_of_singleton]%elem_of_app Hb.
        -- eauto.
        -- injection Hq as -> ->. exact El.
Qed.

Lemma nearestLoop_invariant (cameraPos : Vector3) (range : F32.float)
    (balls seen : list (nat * Ball)) (st : option nat * F32.float) :
  nearestSoFar cameraPos range seen st ->
  nearestSoFar cameraPos range (seen ++ balls)
    (foldl (nearestStep cameraPos) st balls).
Proof.
  revert seen st. induction balls as [|ball balls IH]; intros seen st H.
  - rewrite app_nil_r. exact H.
  - cbn [foldl]. replace (seen ++ ball :: balls) with ((seen ++ [ball]) ++ balls)
      by (rewrite <- app_assoc; reflexivity).
    apply IH, nearestStep_invariant, H.
Qed.

(** The loop of [findNearestBall], run over all the balls of the
    world. *)
Lemma findNearestBall_loop (g : Game) :
  exists nearestDistance,
    nearestSoFar (Camera.position (Game.camera g)) (Game.pickupRange g)
      (getBalls (Game.physicsWorld g)) (Game.findNearestBall g, nearestDistance).
Proof.
  unfold Game.findNearestBall, Camera.getPosition.
  pose proof (nearestLoop_invariant (Camera.position (Game.camera g))
                (Game.pickupRange g) (getBalls (Game.physicsWorld g)) []
                (None, Game.pickupRange g)) as H.
  cbn [app] in H.
  change (foldl _ (None, Game.pickupRange g) (getBalls (Game.physicsWorld g)))
    with (foldl (nearestStep (Camera.position (Game.camera g)))
            (None, Game.pickupRange g) (getBalls (Game.physicsWorld g))).
  destruct (foldl _ _ _) as [nb nd]. exists nd. apply H.
  split; [reflexivity|]. intros p0 b0 Hp0. inversion Hp0.
Qed.

(** X19.  [findNearestBall] returns a ball that is not held and
    strictly nearer to the camera than [pickupRange], and no ball that
    is not held is strictly nearer than the one returned.  It returns
    the null pointer exactly when no ball that is not held is nearer
    than [pickupRange] (a ball whose distance is NaN is never
    chosen). *)
Theorem findNearestBall_is_nearest (g : Game) :
  let dist := distanceFrom (Camera.position (Game.camera g)) in
  let balls := bodies (Game.physicsWorld g) in
  match Game.findNearestBall g with
  | Some p =>
      exists b, balls !! p = Some (OfBall b) /\ Ball.isHeld b = false
                /\ (dist b <? Game.pickupRange g) = true
                /\ forall q b', balls !! q = Some (OfBall b') ->
                                Ball.isHeld b' = false ->
                                (dist b' <? dist b) = false
  | None =>
      forall q b', balls !! q = Some (OfBall b') -> Ball.isHeld b' = false ->
                   (dist b' <? Game.pickupRange g) = false
  end.
Proof.
  cbv zeta. destruct (findNearestBall_loop g) as [nd H].
  unfold nearestSoFar in H. cbn [fst snd] in H.
  destruct (Game.findNearestBall g) as [p|].
  - destruct H as (b & Hin & Hb & Hd & Hr & Hmin).
    exists b. rewrite <- elem_of_getBalls. repeat split; try assumption.
    intros q b' Hq. apply (Hmin q). apply elem_of_getBalls. exact Hq.
  - destruct H as [_ Hall].
    intros q b' Hq. apply (Hall q). apply elem_of_getBalls. exact Hq.
Qed.

End PlayerFacts.

(** ** The game: the held ball *)

Module GameFacts.

Import PhysicsWorld WorldFrame.
Local Open Scope f32_scope.

(** *** Writes through a ball pointer *)

Lemma withBall_lookup (ball : nat) (f : Ball -> Ball) (w : PhysicsWorld) (j : nat) :
  bodies (Game.withBall ball f w) !! j
  = match bodies w !! j with
    | Some (OfBall b) => if decide (j = ball) then Some (OfBall (f b)) else Some (OfBall b)
    | o => o
    end.
Proof.
  unfold Game.withBall.
  destruct (bodies w !! ball) as [[pb|b]|] eqn:E.
  - destruct (bodies w !! j) as [[pb'|b']|] eqn:E'; try reflexivity.
    destruct (decide (j = ball)) as [->|]; [congruence | reflexivity].
  - cbn [bodies set_bodies]. destruct (decide (j = ball)) as [->|Hj].
    + rewrite list_lookup_insert_eq by (eapply lookup_lt_Some; eassumption).
      rewrite E. reflexivity.
    + rewrite list_lookup_insert_ne by congruence.
      destruct (bodies w !! j) as [[pb'|b']|]; reflexivity.
  - destruct (bodies w !! j) as [[pb'|b']|] eqn:E'; try reflexivity.
    destruct (decide (j = ball)) as [->|]; [congruence | reflexivity].
Qed.

(** For each index, whether it holds a ball and whether that ball is
    marked as held. *)
Definition heldFlags (w : PhysicsWorld) : list (option bool) :=
  (fun o => match o with OfBall b => Some (Ball.isHeld b) | OfPhysicsBody _ => None end)
    <$> bodies w.

Lemma heldFlags_lookup (w : PhysicsWorld) (i : nat) :
  heldFlags w !! i = Some (Some true)
  <-> exists b, bodies w !! i = Some (OfBall b) /\ Ball.isHeld b = true.
Proof.
  unfold heldFlags. rewrite list_lookup_fmap. split.
  - destruct (bodies w !! i) as [[pb|b]|]; cbn; try discriminate.
    intros H. exists b. split; [reflexivity | congruence].
  - intros (b & -> & Hb). cbn. rewrite Hb. reflexivity.
Qed.

Lemma heldFlags_fixed (w w' : PhysicsWorld) :
  fixedPart <$> bodies w' = fixedPart <$> bodies w -> heldFlags w' = heldFlags w.
Proof.
  intros H. apply list_eq. intros i. unfold heldFlags.
  rewrite !list_lookup_fmap.
  apply (f_equal (fun l => l !! i)) in H. rewrite !list_lookup_fmap in H.
  destruct (bodies w' !! i) as [o'|], (bodies w !! i) as [o|]; cbn in *;
    try discriminate; [|reflexivity].
  assert (E : fixedBall o' = fixedBall o) by (unfold fixedPart in H; congruence).
  destruct o' as [pb'|b'], o as [pb|b]; cbn in E; try discriminate; try reflexivity.
  assert (Hh : Ball.isHeld b' = Ball.isHeld b) by congruence.
  rewrite Hh. reflexivity.
Qed.

Lemma withBall_fixed (ball : nat) (f : Ball -> Ball) (w : PhysicsWorld) :
  (forall b, fixedPart (OfBall (f b)) = fixedPart (OfBall b)) ->
  fixedPart <$> bodies (Game.withBall ball f w) = fixedPart <$> bodies w.
Proof.
  intros Hf. apply list_eq. intros j. rewrite !list_lookup_fmap, withBall_lookup.
  destruct (bodies w !! j) as [[pb|b]|]; try reflexivity.
  destruct (decide (j = ball)); [|reflexivity]. cbn. rewrite Hf. reflexivity.
Qed.

(** *** The balls marked as held *)

(** The balls whose [isHeld] is true are exactly the one that
    [heldBall] points to. *)
Definition consistent (g : Game) : Prop :=
  forall i : nat,
    (exists b, bodies (Game.physicsWorld g) !! i = Some (OfBall b)
               /\ Ball.isHeld b = true)
    <-> Game.heldBall g = Some i.

Lemma consistent_flags (g : Game) :
  consistent g
  <-> forall i, heldFlags (Game.physicsWorld g) !! i = Some (Some true)
                <-> Game.heldBall g = Some i.
Proof.
  unfold consistent. split; intros H i; [rewrite heldFlags_lookup | rewrite <- heldFlags_lookup];
    apply H.
Qed.

Lemma consistent_same (g g' : Game) :
  heldFlags (Game.physicsWorld g') = heldFlags (Game.physicsWorld g) ->
  Game.heldBall g' = Game.heldBall g ->
  consistent g -> consistent g'.
Proof.
  rewrite !consistent_flags. intros Hf Hh H i. rewrite Hf, Hh. apply H.
Qed.

(** The held ball is released by a write that clears its flag. *)
Lemma release_consistent (g : Game) (ball : nat) (f : Ball -> Ball) :
  consistent g -> Game.heldBall g = Some ball ->
  (forall b, Ball.isHeld (f b) = false) ->
  consistent (Game.set_heldBall None
                (Game.set_physicsWorld (Game.withBall ball f (Game.physicsWorld g)) g)).
Proof.
  intros H Hh Hf i. cbn [Game.heldBall Game.set_heldBall Game.physicsWorld
                         Game.set_physicsWorld].
  rewrite withBall_lookup. split; [|discriminate].
  intros (b & Hb & Hheld). exfalso.
  destruct (bodies (Game.physicsWorld g) !! i) as [[pb|b0]|] eqn:E; try discriminate.
  destruct (decide (i = ball)) as [->|Hi].
  - injection Hb as <-. rewrite Hf in Hheld. discriminate.
  - injection Hb as <-.
    assert (Game.heldBall g = Some i) by (apply H; eauto). congruence.
Qed.

Lemma throwBall_releases (v : Vector3) (b : Ball) :
  Ball.isHeld (Ball.throwBall v b) = false.
Proof. unfold Ball.throwBall. destruct (Ball.isHeld b) eqn:E; [reflexivity | exact E]. Qed.

Lemma updatePlayer_consistent (dt : F32.float) (g : Game) :
  consistent g -> consistent (Game.updatePlayer dt g).
Proof.
  intros H. unfold Game.updatePlayer.
  set (g1 := if InputHandler.wasKeyPressed Game.GLFW_KEY_E (Game.inputHandler g)
             then _ else g).
  assert (H1 : consistent g1).
  { subst g1. destruct (InputHandler.wasKeyPressed _ _); [|exact H].
    destruct (Game.heldBall g) as [ball|] eqn:Eh.
    - apply release_consistent; [exact H | exact Eh | reflexivity].
    - destruct (PlayerFacts.findNearestBall_loop g) as [nd Hn].
      unfold PlayerFacts.nearestSoFar in Hn. cbn [fst snd] in Hn.
      destruct (Game.findNearestBall g) as [n|]; [|exact H].
      destruct Hn as (b & Hb & Hfree & _).
      apply PlayerFacts.elem_of_getBalls in Hb.
      intros i. cbn [Game.heldBall Game.set_heldBall Game.physicsWorld
                     Game.set_physicsWorld].
      rewrite withBall_lookup. split.
      + intros (b' & Hb' & Hheld).
        destruct (bodies (Game.physicsWorld g) !! i) as [[pb|b0]|] eqn:E;
          try discriminate.
        destruct (decide (i = n)) as [->|Hi]; [reflexivity|].
        injection Hb' as <-.
        assert (Game.heldBall g = Some i) by (apply H; eauto). congruence.
      + intros [= <-]. rewrite Hb.
        destruct (decide (n = n)); [|contradiction]. eauto. }
  clearbody g1.
  destruct (InputHandler.wasKeyPressed _ _); [|exact H1].
  destruct (Game.heldBall g1) as [ball|] eqn:Eh; [|exact H1].
  apply release_consistent; [exact H1 | exact Eh | apply throwBall_releases].
Qed.

Section Libraries.

Variable RAND_MAX : Z.
Variable rand : nat -> Z.
Variable cos : F64.float -> F64.float.
Variable sin : F64.float -> F64.float.
Variable uniform : nat -> F32.float -> F32.float -> F32.float.
Variable randomColor : nat -> Vector3.
Variable physicsInfo : list string -> Game.State -> Game.State * option string.

Lemma updateCamera_frame (dt : F32.float) (st : Game.State) :
  let g := Game.updateCamera cos sin dt st in
  Game.physicsWorld g = Game.physicsWorld st.2
  /\ Game.heldBall g = Game.heldBall st.2
  /\ Game.inputHandler g = Game.inputHandler st.2
  /\ Game.isPaused g = Game.isPaused st.2
  /\ Game.randCalls g = Game.randCalls st.2.
Proof.
  cbv zeta. unfold Game.updateCamera.
  destruct (Console.getActive st.1); [auto|].
  repeat match goal with
         | |- context [if ?c then _ else _] => destruct c
         end;
    try destruct (InputHandler.getMouseDelta _); cbn; auto.
Qed.

Lemma update_fixed (dt : F32.float) (st : Game.State) :
  (forall key, InputHandler.wasKeyPressed key (Game.inputHandler st.2) = false) ->
  let g := Game.update RAND_MAX rand cos sin dt st in
  Game.heldBall g = Game.heldBall st.2
  /\ fixedPart <$> bodies (Game.physicsWorld g)
     = fixedPart <$> bodies (Game.physicsWorld st.2)
  /\ Game.isRunning g = Game.isRunning st.2.
Proof.
  intros Hk. cbv zeta. unfold Game.update.
  destruct (Game.isPaused st.2); [auto|].
  destruct (updateCamera_frame dt st) as (Hw & Hh & Hi & _ & Hc).
  cbv zeta in *.
  assert (Hrun : Game.isRunning (Game.updateCamera cos sin dt st) = Game.isRunning st.2).
  { unfold Game.updateCamera. destruct (Console.getActive st.1); [reflexivity|].
    repeat match goal with
           | |- context [if ?c then _ else _] => destruct c
           end;
      try destruct (InputHandler.getMouseDelta _); reflexivity. }
  set (g1 := Game.updateCamera cos sin dt st) in *.
  assert (Hp : Game.updatePlayer dt g1 = g1).
  { unfold Game.updatePlayer. rewrite Hi, Hk. cbv beta iota zeta.
    rewrite Hi, Hk. reflexivity. }
  rewrite Hp.
  pose proof (updateLoop_fixed RAND_MAX rand (worldBounds (Game.physicsWorld g1))
                (timeStep (Game.physicsWorld g1))
                (Z.to_nat (maxSubsteps (Game.physicsWorld g1))) dt
                (bodies (Game.physicsWorld g1), Game.randCalls g1)) as Hf.
  cbn [fst] in Hf.
  cbn [Game.heldBall].
  destruct (Game.heldBall g1) as [ball|] eqn:Eh; cbn [Game.heldBall Game.physicsWorld
    Game.set_physicsWorld Game.isRunning].
  - split; [exact Hh|]. split; [|exact Hrun].
    rewrite withBall_fixed by (intros b; reflexivity).
    unfold update. cbn [fst snd bodies set_bodies]. rewrite Hf, Hw. reflexivity.
  - split; [exact Hh|]. split; [|exact Hrun].
    unfold update. cbn [fst snd bodies set_bodies]. rewrite Hf, Hw. reflexivity.
Qed.

Lemma dispatch_frame (st : Game.State) (e : Game.Event) :
  let st' := Game.dispatch st e in
  Game.physicsWorld st'.2 = Game.physicsWorld st.2
  /\ Game.heldBall st'.2 = Game.heldBall st.2.
Proof.
  cbv zeta. destruct e as [key sc action mods|x y|b a m|x y]; cbn [Game.dispatch].
  - unfold Game.keyCallback. cbn [fst snd].
    repeat match goal with
           | |- context [if ?c then _ else _] => destruct c
           end; cbn; auto.
  - cbn. auto.
  - auto.
  - unfold Game.scrollCallback. destruct (negb _); cbn; auto.
Qed.

Lemma frame_fixed (elapsed : F32.float) (events : list Game.Event) (st : Game.State) :
  let st' := Game.frame RAND_MAX rand cos sin elapsed events st in
  Game.heldBall st'.2 = Game.heldBall st.2
  /\ fixedPart <$> bodies (Game.physicsWorld st'.2)
     = fixedPart <$> bodies (Game.physicsWorld st.2).
Proof.
  cbv zeta. unfold Game.frame.
  set (dt := if elapsed >? Lit.f0_1 then Lit.f0_1 else elapsed).
  set (st0 := (st.1, Game.set_deltaTime dt st.2)).
  assert (H0 : Game.physicsWorld (foldl Game.dispatch st0 events).2
               = Game.physicsWorld st.2
               /\ Game.heldBall (foldl Game.dispatch st0 events).2
                  = Game.heldBall st.2).
  { change (Game.physicsWorld st.2) with (Game.physicsWorld st0.2).
    change (Game.heldBall st.2) with (Game.heldBall st0.2).
    generalize st0. induction events as [|e events IH]; intros s; [auto|].
    cbn [foldl]. destruct (dispatch_frame s e) as [<- <-]. apply IH. }
  destruct H0 as [Hw Hh].
  set (st1 := foldl Game.dispatch st0 events) in *.
  set (st2 := (st1.1, Game.set_inputHandler
                        (InputHandler.update (Game.inputHandler st1.2)) st1.2)).
  destruct (update_fixed dt st2) as (Hh2 & Hf2 & _).
  { intros key. cbn.
    apply InputFacts.wasKeyPressed_update. }
  cbv zeta in Hh2, Hf2. cbn [snd]. rewrite Hh2, Hf2. subst st2. cbn.
  rewrite Hw. auto.
Qed.

(** X20.  In the loop of [Run] nothing is ever picked up, dropped or
    thrown.  [inputHandler->update()] runs right before
    [update(deltaTime)] and leaves [keysPressed] empty, so the tests
    of the keys E and F in [updatePlayer] are false in every frame:
    whatever events arrive and however many frames run, [heldBall] is
    what it was at the start, the world holds the same bodies, and no
    ball changes its [isHeld].  From the state that [Initialize]
    builds, [heldBall] stays null. *)
Theorem run_never_changes_the_held_ball
    (frames : list (bool * F32.float * list Game.Event)) (st : Game.State) :
  let st' := Game.Run RAND_MAX rand cos sin frames st in
  Game.heldBall st'.2 = Game.heldBall st.2
  /\ fixedPart <$> bodies (Game.physicsWorld st'.2)
     = fixedPart <$> bodies (Game.physicsWorld st.2)
  /\ Game.heldBall
       (Game.Run RAND_MAX rand cos sin frames
          (Game.Initialize cos sin uniform randomColor)).2 = None.
Proof.
  cbv zeta.
  assert (H : forall s,
             Game.heldBall (Game.runLoop RAND_MAX rand cos sin frames s).2
             = Game.heldBall s.2
             /\ fixedPart <$> bodies (Game.physicsWorld
                                        (Game.runLoop RAND_MAX rand cos sin frames s).2)
                = fixedPart <$> bodies (Game.physicsWorld s.2)).
  { induction frames as [|[[shouldClose elapsed] events] frames IH]; intros s; [auto|].
    cbn [Game.runLoop]. destruct (_ && _); [|auto].
    destruct (frame_fixed elapsed events s) as [Hh Hf]. cbv zeta in Hh, Hf.
    destruct (IH (Game.frame RAND_MAX rand cos sin elapsed events s)) as [Hh' Hf'].
    rewrite Hh', Hf'. auto. }
  unfold Game.Run. split; [|split].
  - apply (H (st.1, Game.set_isRunning true st.2)).
  - apply (H (st.1, Game.set_isRunning true st.2)).
  - rewrite (proj1 (H _)). cbn [snd Game.heldBall Game.set_isRunning].
    unfold Game.Initialize. cbn [snd]. unfold Game.summonBalls.
    generalize (Camera.getPosition
                  (Game.camera
                     (Game.mk create
                        (Camera.create cos sin (Vector3.mk F32.zero Lit.f3 Lit.f8)
                           (Vector3.mk F32.zero F32.one F32.zero) (- Lit.f90) F32.zero)
                        (InputHandler.setMouseGrab true InputHandler.create)
                        false false None Lit.f3 Lit.f15 F32.zero
                        (F32.one / Lit.f60) 0 0 0 0))).
    intros pos. generalize (Z.to_nat 5). intros n.
    induction n as [|n IHn]; [reflexivity|]. rewrite Nat.iter_succ. exact IHn.
Qed.

(** *** Summoning balls *)

(** The ball that one turn of the loop of [summonBalls] creates. *)
Definition summoned (cameraPos : Vector3) (g : Game) : Ball :=
  let k := Game.draws g in
  let b :=
    Ball.create
      (Vector3.mk (Vector3.x cameraPos + uniform k (- Lit.f5) Lit.f5)
                  (uniform (k + 1) Lit.f2 Lit.f8)
                  (Vector3.z cameraPos + uniform (k + 2) (- Lit.f5) Lit.f5))
      (randomColor (Game.colorCalls g)) (Game.ballCount g + 1)%Z in
  Ball.set_body
    (PhysicsBody.set_velocity
       (Vector3.mk (uniform (k + 3) (- Lit.f2) Lit.f2) F32.zero
                   (uniform (k + 4) (- Lit.f2) Lit.f2))
       (Ball.body b)) b.

Lemma summonBall_appends (cameraPos : Vector3) (g : Game) :
  let g' := Game.summonBall uniform randomColor cameraPos g in
  bodies (Game.physicsWorld g')
  = bodies (Game.physicsWorld g) ++ [OfBall (summoned cameraPos g)]
  /\ Game.heldBall g' = Game.heldBall g
  /\ Game.camera g' = Game.camera g.
Proof.
  cbv zeta. unfold Game.summonBall, Game.withBall, createBall.
  cbn [Game.physicsWorld Game.heldBall Game.camera bodies set_bodies].
  rewrite lookup_app_r by lia. rewrite Nat.sub_diag. cbn [lookup list_lookup].
  cbn [bodies set_bodies].
  rewrite insert_app_r_alt by lia. rewrite Nat.sub_diag. cbn. auto.
Qed.

(** Freshly made balls: not held, with the mass and the radius of the
    constructor. *)
Definition fresh (o : Body) : Prop :=
  exists b, o = OfBall b /\ Ball.isHeld b = false
            /\ PhysicsBody.mass (Ball.body b) = Lit.f0_5
            /\ PhysicsBody.radius (Ball.body b) = Lit.f0_25.

Lemma summonBalls_appends (n : nat) (cameraPos : Vector3) (g : Game) :
  let g' := Nat.iter n (Game.summonBall uniform randomColor cameraPos) g in
  (exists new, bodies (Game.physicsWorld g') = bodies (Game.physicsWorld g) ++ new
               /\ length new = n /\ Forall fresh new)
  /\ Game.heldBall g' = Game.heldBall g.
Proof.
  cbv zeta. induction n as [|n IH].
  - split; [|reflexivity]. exists []. rewrite app_nil_r. auto.
  - rewrite !Nat.iter_succ. destruct IH as [(new & Hb & Hl & Hf) Hh].
    destruct (summonBall_appends cameraPos
                (Nat.iter n (Game.summonBall uniform randomColor cameraPos) g))
      as (Hb' & Hh' & _).
    cbv zeta in Hb', Hh'. split; [|congruence].
    eexists (new ++ [_]). rewrite Hb', Hb, <- app_assoc. split; [reflexivity|].
    split; [rewrite length_app; cbn; lia|].
    apply Forall_app. split; [exact Hf|]. apply Forall_cons. split; [|constructor].
    eexists. split; [reflexivity|]. cbn. auto.
Qed.

(** X21.  The [summon] command creates exactly the number of balls
    it is asked for, when the number is between 1 and 100: the bodies
    that were in the world keep their places and their state, and
    [count] new balls follow them, none of them held, each with mass
    0.5 and radius 0.25.  Without an argument, with an argument that
    [std::stoi] rejects, or with a number outside 1..100, the world is
    left as it is.  In every case one line is added to the console
    and [heldBall] is unchanged. *)
Theorem summon_creates_the_requested_balls (args : list string) (st : Game.State) :
  let st' := Game.summonCommand uniform randomColor args st in
  let before := bodies (Game.physicsWorld st.2) in
  let after := bodies (Game.physicsWorld st'.2) in
  Game.heldBall st'.2 = Game.heldBall st.2
  /\ (exists line, st'.1 = Console.addOutput line st.1)
  /\ match args with
     | [] => after = before
     | arg :: _ =>
         match Game.stoi arg with
         | Some count =>
             if ((1 <=? count) && (count <=? 100))%Z
             then exists new, after = before ++ new
                              /\ length new = Z.to_nat count /\ Forall fresh new
             else after = before
         | None => after = before
         end
     end.
Proof.
  cbv zeta. unfold Game.summonCommand.
  destruct args as [|arg args]; [cbn; eauto|].
  destruct (Game.stoi arg) as [count|]; [|cbn; eauto].
  destruct (Z.leb_spec count 0) as [H0|H0].
  - replace (1 <=? count)%Z with false by (symmetry; apply Z.leb_gt; lia).
    cbn. eauto.
  - replace (1 <=? count)%Z with true by (symmetry; apply Z.leb_le; lia).
    destruct (Z.gtb_spec count 100) as [H1|H1].
    + replace (count <=? 100)%Z with false by (symmetry; apply Z.leb_gt; lia).
      cbn. eauto.
    + replace (count <=? 100)%Z with true by (symmetry; apply Z.leb_le; lia).
      cbn [fst snd andb]. unfold Game.summonBalls.
      destruct (summonBalls_appends (Z.to_nat count)
                  (Camera.getPosition (Game.camera st.2)) st.2) as [Hn Hh].
      cbv zeta in Hn, Hh. eauto.
Qed.

(** *** The held flag and the pointer *)

Lemma heldFlags_consistent_update (dt : F32.float) (st : Game.State) :
  consistent st.2 -> consistent (Game.update RAND_MAX rand cos sin dt st).
Proof.
  intros H. unfold Game.update.
  destruct (Game.isPaused st.2); [exact H|].
  destruct (updateCamera_frame dt st) as (Hw & Hh & _).
  cbv zeta in Hw, Hh.
  assert (H1 : consistent (Game.updateCamera cos sin dt st)).
  { apply (consistent_same st.2); [rewrite Hw; reflexivity | exact Hh | exact H]. }
  apply (updatePlayer_consistent dt) in H1.
  set (g2 := Game.updatePlayer dt (Game.updateCamera cos sin dt st)) in *.
  pose proof (updateLoop_fixed RAND_MAX rand (worldBounds (Game.physicsWorld g2))
                (timeStep (Game.physicsWorld g2))
                (Z.to_nat (maxSubsteps (Game.physicsWorld g2))) dt
                (bodies (Game.physicsWorld g2), Game.randCalls g2)) as Hf.
  cbn [fst] in Hf. cbn [Game.heldBall].
  destruct (Game.heldBall g2) as [ball|] eqn:Eh.
  - apply (consistent_same g2); [|cbn; congruence|exact H1].
    apply heldFlags_fixed. cbn [Game.physicsWorld Game.set_physicsWorld].
    rewrite withBall_fixed by (intros b; reflexivity). exact Hf.
  - apply (consistent_same g2); [|cbn; congruence|exact H1].
    apply heldFlags_fixed. exact Hf.
Qed.

Lemma summonBalls_consistent (count : Z) (g : Game) :
  consistent g -> consistent (Game.summonBalls uniform randomColor count g).
Proof.
  intros H. unfold Game.summonBalls.
  destruct (summonBalls_appends (Z.to_nat count)
              (Camera.getPosition (Game.camera g)) g) as [(new & Hb & _ & Hf) Hh].
  cbv zeta in Hb, Hh. intros i. rewrite Hh, Hb. rewrite <- (H i). split.
  - intros (b & Hb' & Hheld).
    apply lookup_app_Some in Hb' as [Hb'|[_ Hb']]; [eauto|].
    exfalso. apply list_elem_of_lookup_2 in Hb'.
    apply (proj1 (Forall_forall _ _) Hf) in Hb' as (b0 & E & Hfree & _).
    congruence.
  - intros (b & Hb' & Hheld). exists b. split; [|exact Hheld].
    apply lookup_app_l_Some. exact Hb'.
Qed.

(** X22.  The game keeps the [isHeld] flags and the [heldBall]
    pointer in agreement: if the balls marked as held are exactly the
    one [heldBall] points to (none when it is null), this is still so
    after [updatePlayer], whatever keys were pressed, after
    [update(dt)], after [summonBalls] and after the [clear_balls]
    command; and it holds in the state that [Initialize] builds. *)
Theorem held_flag_agrees_with_heldBall (dt : F32.float) (count : Z)
    (args : list string) (st : Game.State) :
  consistent (Game.Initialize cos sin uniform randomColor).2
  /\ (consistent st.2 ->
      consistent (Game.updatePlayer dt st.2)
      /\ consistent (Game.update RAND_MAX rand cos sin dt st)
      /\ consistent (Game.summonBalls uniform randomColor count st.2)
      /\ consistent (Game.clearBallsCommand args st).2).
Proof.
  split.
  - unfold Game.Initialize. cbn [snd]. apply summonBalls_consistent.
    intros i. cbn. split; [|discriminate].
    intros (b & Hb & _). rewrite lookup_nil in Hb. discriminate.
  - intros H. split; [|split; [|split]].
    + apply updatePlayer_consistent, H.
    + apply heldFlags_consistent_update, H.
    + apply summonBalls_consistent, H.
    + intros i. cbn. split; [|discriminate].
      intros (b & Hb & _). rewrite lookup_nil in Hb. discriminate.
Qed.

End Libraries.

End GameFacts.

(** ** The console *)

Module ConsoleFacts.

Import Console.

(** *** Command lines *)

Fixpoint noSpace (s : string) : bool :=
  match s with
  | EmptyString => true
  | String a s' => negb (isspace a) && noSpace s'
  end.

(** A word: at least one character, none of them white space. *)
Definition word (s : string) : Prop := s <> EmptyString /\ noSpace s = true.

(** The words separated by one space. *)
Fixpoint joinWords (ts : list string) : string :=
  match ts with
  | [] => EmptyString
  | [t] => t
  | t :: ts' => t +:+ String " " (joinWords ts')
  end.

Lemma append_cons (a : ascii) (s t : string) :
  String a s +:+ t = String a (s +:+ t).
Proof. reflexivity. Qed.

Lemma append_nil_r (s : string) : s +:+ EmptyString = s.
Proof.
  induction s as [|a s IH]; [reflexivity|]. rewrite append_cons, IH. reflexivity.
Qed.

Lemma append_assoc (s t u : string) : (s +:+ t) +:+ u = s +:+ (t +:+ u).
Proof.
  induction s as [|a s IH]; [reflexivity|]. rewrite !append_cons, IH. reflexivity.
Qed.

Lemma noSpace_app (s t : string) :
  noSpace (s +:+ t) = noSpace s && noSpace t.
Proof.
  induction s as [|a s IH]; [reflexivity|]. rewrite append_cons. cbn [noSpace].
  rewrite IH. apply andb_assoc.
Qed.

Lemma append_empty (s t : string) : s +:+ t = EmptyString -> s = EmptyString.
Proof. destruct s; [reflexivity | discriminate]. Qed.

Lemma extractTokens_words (s token : string) :
  noSpace token = true -> Forall word (extractTokens token s).
Proof.
  revert token. induction s as [|a s IH]; intros token Ht; cbn.
  - destruct token; [constructor|]. repeat constructor; [discriminate | exact Ht].
  - destruct (isspace a) eqn:Ea.
    + destruct token as [|b token]; [apply IH; reflexivity|].
      constructor; [split; [discriminate | exact Ht]|]. apply IH. reflexivity.
    + apply IH. rewrite noSpace_app, Ht. cbn. rewrite Ea. reflexivity.
Qed.

Lemma extractTokens_word (t rest token : string) :
  noSpace t = true ->
  extractTokens token (t +:+ rest) = extractTokens (token +:+ t) rest.
Proof.
  revert token. induction t as [|a t IH]; intros token Ht.
  - rewrite append_nil_r. reflexivity.
  - cbn in Ht. apply andb_prop in Ht as [Ha Ht]. apply negb_true_iff in Ha.
    rewrite append_cons. cbn [extractTokens]. rewrite Ha, IH by exact Ht.
    rewrite append_assoc. reflexivity.
Qed.

Lemma parseCommand_joinWords (ts : list string) :
  Forall word ts -> parseCommand (joinWords ts) = ts.
Proof.
  unfold parseCommand. induction 1 as [|t ts [Hne Ht] Hts IH]; [reflexivity|].
  destruct ts as [|t' ts].
  - cbn [joinWords]. rewrite <- (append_nil_r t) at 1.
    rewrite extractTokens_word by exact Ht. cbn. destruct t; [contradiction | reflexivity].
  - change (joinWords (t :: t' :: ts)) with (t +:+ String " " (joinWords (t' :: ts))).
    rewrite extractTokens_word by exact Ht. cbn [append extractTokens].
    change (isspace " ") with true. cbn iota.
    destruct t; [contradiction|]. rewrite IH. reflexivity.
Qed.

Lemma parseCommand_leading_space (a : ascii) (s : string) :
  isspace a = true -> parseCommand (String a s) = parseCommand s.
Proof. intros H. unfold parseCommand. cbn. rewrite H. reflexivity. Qed.

(** X23.  [parseCommand] splits a line at white space: every token
    it returns is a non-empty string without white space; a line made
    of words separated by single spaces is split into exactly these
    words; and white space at the start of a line is ignored. *)
Theorem parseCommand_splits_at_white_space (commandLine : string)
    (ts : list string) (a : ascii) :
  Forall word (parseCommand commandLine)
  /\ (Forall word ts -> parseCommand (joinWords ts) = ts)
  /\ (isspace a = true ->
      parseCommand (String a commandLine) = parseCommand commandLine).
Proof.
  split; [|split].
  - apply extractTokens_words. reflexivity.
  - apply parseCommand_joinWords.
  - apply parseCommand_leading_space.
Qed.

(** *** Sizes of the output and of the history *)

Section Callbacks.

Variable H : Type.
Variable Env : Type.
Variable external : H -> list string -> Console H * Env -> Console H * Env * option string.

(** What a callback does to the console: it adds lines of output. *)
Definition speaks (c c' : Console H) : Prop :=
  exists lines, c' = foldl (fun c line => addOutput line c) c lines.

(** The callbacks registered from outside reach the console through
    [addOutput] only, as the lambdas of the game do. *)
Hypothesis external_speaks :
  forall h args st, speaks st.1 (external h args st).1.1.

Lemma speaks_refl (c : Console H) : speaks c c.
Proof. exists []. reflexivity. Qed.

Lemma speaks_addOutput (line : string) (c : Console H) : speaks c (addOutput line c).
Proof. exists [line]. reflexivity. Qed.

Lemma speaks_trans (c1 c2 c3 : Console H) :
  speaks c1 c2 -> speaks c2 c3 -> speaks c1 c3.
Proof.
  intros [l1 ->] [l2 ->]. exists (l1 ++ l2). rewrite foldl_app. reflexivity.
Qed.

Lemma speaks_showHelp (c : Console H) : speaks c (showHelp c).
Proof. unfold showHelp. eexists. reflexivity. Qed.

(** A property of consoles that [addOutput] keeps is kept by
    everything that speaks. *)
Lemma speaks_invariant (P : Console H -> Prop) :
  (forall line c, P c -> P (addOutput line c)) ->
  forall c c', speaks c c' -> P c -> P c'.
Proof.
  intros HP c c' [lines ->]. revert c.
  induction lines as [|line lines IH]; intros c Hc; [exact Hc|].
  cbn [foldl]. apply IH, HP, Hc.
Qed.

Lemma showHistory_invariant (P : Console H -> Prop) (c : Console H) :
  (forall line c, P c -> P (addOutput line c)) -> P c -> P (showHistory c).
Proof.
  intros HP Hc. unfold showHistory.
  destruct (history c) as [|x l]; [apply HP, Hc|].
  generalize (seq 0 (length (x :: l))). intros indices.
  assert (Hc' : P (addOutput "Command history:" c)) by apply HP, Hc.
  revert Hc'. generalize (addOutput "Command history:" c).
  induction indices as [|i indices IH]; intros c0 Hc0; [exact Hc0|].
  cbn [foldl]. apply IH, HP, Hc0.
Qed.

(** The output holds at most 50 lines. *)
Definition outputBounded (c : Console H) : Prop :=
  maxOutputMessages c = 50 /\ (length (outputMessages c) <= 50)%nat.

Lemma addOutput_bounded (line : string) (c : Console H) :
  outputBounded c ->
  outputBounded (addOutput line c)
  /\ last (outputMessages (addOutput line c)) = Some line.
Proof.
  intros [Hm Hl]. unfold outputBounded, addOutput.
  cbn [maxOutputMessages outputMessages set_outputMessages]. rewrite Hm.
  change (size_t_of_int 50) with 50.
  destruct (Z.gtb_spec (Z.of_nat (length (outputMessages c ++ [line]))) 50) as [Hg|Hg];
    rewrite length_app in Hg; cbn in Hg.
  - split; [split; [reflexivity|]|].
    + rewrite length_drop, length_app. cbn. lia.
    + destruct (outputMessages c) as [|x l]; [cbn in Hg; lia|].
      cbn. apply last_snoc.
  - split; [split; [reflexivity|]|].
    + rewrite length_app. cbn. lia.
    + apply last_snoc.
Qed.

Lemma invoke_invariant (P : Console H -> Prop) (callback : Callback H)
    (args : list string) (st : Console H * Env) :
  (forall line c, P c -> P (addOutput line c)) ->
  (forall c, P c -> P (set_outputMessages [] c)) ->
  P st.1 -> P (invoke external callback args st).1.1.
Proof.
  intros HP Hclear Hc. destruct callback as [| | |h]; cbn [invoke fst].
  - apply (speaks_invariant P HP st.1); [apply speaks_showHelp | exact Hc].
  - unfold clearOutput. apply HP, Hclear, Hc.
  - apply showHistory_invariant; assumption.
  - apply (speaks_invariant P HP st.1); [apply external_speaks | exact Hc].
Qed.

Lemma executeCommand_invariant (P : Console H -> Prop) (commandLine : string)
    (st : Console H * Env) :
  (forall line c, P c -> P (addOutput line c)) ->
  (forall c, P c -> P (set_outputMessages [] c)) ->
  (forall h c, P c -> P (set_history h c)) ->
  P st.1 -> P (executeCommand external commandLine st).1.
Proof.
  intros HP Hclear Hhist Hc. unfold executeCommand.
  destruct commandLine as [|a s]; [exact Hc|].
  set (c1 := if _ || _ then _ else st.1).
  assert (H1 : P c1) by (subst c1; destruct (_ || _); [apply Hhist|]; exact Hc).
  clearbody c1.
  assert (H2 : P (addOutput ("> " +:+ String a s) c1)) by apply HP, H1.
  destruct (parseCommand (String a s)) as [|command args]; [exact H2|].
  destruct (commands _ !! command) as [callback|].
  - pose proof (invoke_invariant P callback args
                  (addOutput ("> " +:+ String a s) c1, st.2) HP Hclear H2) as H3.
    destruct (invoke external callback args _) as [st' [what|]]; cbn [fst] in *.
    + apply HP, H3.
    + exact H3.
  - cbn [fst]. apply HP, HP, H2.
Qed.

Lemma processChar_invariant (P : Console H -> Prop) (ch : ascii)
    (st : Console H * Env) :
  (forall line c, P c -> P (addOutput line c)) ->
  (forall c, P c -> P (set_outputMessages [] c)) ->
  (forall h c, P c -> P (set_history h c)) ->
  (forall s c, P c -> P (set_currentInput s c)) ->
  (forall i c, P c -> P (set_historyIndex i c)) ->
  P st.1 -> P (processChar external ch st).1.
Proof.
  intros HP Hclear Hhist Hin Hidx Hc. unfold processChar.
  destruct (negb (isActive st.1)); [exact Hc|].
  destruct (_ || _).
  { destruct (currentInput st.1); [exact Hc | apply Hin, Hc]. }
  destruct (_ || _).
  { cbn [fst]. apply Hidx, Hin, executeCommand_invariant; assumption. }
  destruct (_ && _); [cbn [fst]; apply Hidx, Hin, Hc | exact Hc].
Qed.

(** X24.  The console never shows more than 50 lines.  The output
    of a new console fits, and it still fits after [addOutput] (whose
    line is then the last one), [clearOutput] (which leaves its own
    line only), [executeCommand] and [processChar], whatever is
    executed, as long as the registered callbacks reach the console
    through [addOutput]. *)
Theorem output_is_bounded (line commandLine : string) (ch : ascii)
    (st : Console H * Env) :
  outputBounded (Console.create (H := H))
  /\ (outputBounded st.1 ->
      outputBounded (addOutput line st.1)
      /\ last (outputMessages (addOutput line st.1)) = Some line
      /\ outputMessages (clearOutput st.1) = ["Console cleared"]
      /\ outputBounded (executeCommand external commandLine st).1
      /\ outputBounded (processChar external ch st).1).
Proof.
  assert (HP : forall line (c : Console H),
             outputBounded c -> outputBounded (addOutput line c))
    by (intros l c Hc; apply addOutput_bounded, Hc).
  assert (Hclear : forall c : Console H,
             outputBounded c -> outputBounded (set_outputMessages [] c))
    by (intros c [Hm _]; split; [exact Hm | cbn; lia]).
  split; [split; [reflexivity | vm_compute; lia]|].
  intros Hc. split; [apply HP, Hc|]. split; [apply addOutput_bounded, Hc|].
  split.
  - unfold clearOutput, addOutput. cbn. destruct Hc as [-> _]. reflexivity.
  - split.
    + apply executeCommand_invariant; auto.
    + apply processChar_invariant; auto.
Qed.

(** *** The history *)

(** No two neighbours are equal. *)
Definition noRepeat (l : list string) : Prop :=
  forall (i : nat) (x y : string),
    l !! i = Some x -> l !! S i = Some y -> x <> y.

(** At most 100 lines, none of them empty, no line twice in a row. *)
Definition historyTidy (c : Console H) : Prop :=
  maxHistorySize c = 100
  /\ (length (history c) <= 100)%nat
  /\ (EmptyString ∉ history c)
  /\ noRepeat (history c).

Lemma elem_of_drop_1 {A : Type} (x : A) (n : nat) (l : list A) :
  x ∈ drop n l -> x ∈ l.
Proof.
  intros [i Hi]%list_elem_of_lookup_1. rewrite lookup_drop in Hi.
  eapply list_elem_of_lookup_2. exact Hi.
Qed.

Lemma noRepeat_snoc (l : list string) (x : string) :
  noRepeat l -> last l <> Some x -> noRepeat (l ++ [x]).
Proof.
  intros Hl Hx i a b Ha Hb.
  destruct (decide (S i < length l)%nat) as [Hi|Hi].
  - rewrite lookup_app_l in Ha by lia. rewrite lookup_app_l in Hb by lia. eauto.
  - assert (Hlen : (i < length (l ++ [x]))%nat) by (eapply lookup_lt_Some; eassumption).
    assert (Hlen' : (S i < length (l ++ [x]))%nat)
      by (eapply lookup_lt_Some; eassumption).
    rewrite length_app in Hlen, Hlen'. cbn in Hlen, Hlen'.
    assert (E : S i = length l) by lia.
    rewrite lookup_app_l in Ha by lia.
    rewrite lookup_app_r in Hb by lia. rewrite E, Nat.sub_diag in Hb.
    injection Hb as <-. intros ->. apply Hx.
    rewrite last_lookup. replace (pred (length l)) with i by lia. exact Ha.
Qed.

Lemma noRepeat_drop (l : list string) : noRepeat l -> noRepeat (drop 1 l).
Proof.
  intros Hl i a b Ha Hb. rewrite lookup_drop in Ha, Hb.
  apply (Hl (1 + i)%nat a b); assumption.
Qed.

Lemma executeCommand_history (commandLine : string) (st : Console H * Env) :
  let c' := (executeCommand external commandLine st).1 in
  historyTidy st.1 ->
  historyTidy c'
  /\ (commandLine <> EmptyString -> last (history c') = Some commandLine).
Proof.
  cbv zeta. intros Ht.
  assert (Hkeep : forall P : Console H -> Prop,
             (forall line c, P c -> P (addOutput line c)) ->
             (forall c, P c -> P (set_outputMessages [] c)) ->
             forall c0, P c0 ->
             P (match parseCommand commandLine with
                | [] => (addOutput ("> " +:+ commandLine) c0, st.2)
                | command :: args =>
                    match commands (addOutput ("> " +:+ commandLine) c0) !! command with
                    | Some callback =>
                        let '(st', thrown) :=
                          invoke external callback args
                            (addOutput ("> " +:+ commandLine) c0, st.2) in
                        match thrown with
                        | Some what =>
                            (addOutput ("Error executing command: " +:+ what) st'.1, st'.2)
                        | None => st'
                        end
                    | None =>
                        (addOutput "Type 'help' for available commands"
                           (addOutput ("Unknown command: " +:+ command)
                              (addOutput ("> " +:+ commandLine) c0)), st.2)
                    end
                end).1).
  { intros P HP Hclear c0 H0.
    assert (H2 : P (addOutput ("> " +:+ commandLine) c0)) by apply HP, H0.
    destruct (parseCommand commandLine) as [|command args]; [exact H2|].
    destruct (commands _ !! command) as [callback|].
    - pose proof (invoke_invariant P callback args
                    (addOutput ("> " +:+ commandLine) c0, st.2) HP Hclear H2) as H3.
      destruct (invoke external callback args _) as [st' [what|]]; cbn [fst] in *.
      + apply HP, H3.
      + exact H3.
    - cbn [fst]. apply HP, HP, H2. }
  unfold executeCommand.
  destruct commandLine as [|a s]; [split; [exact Ht | congruence]|].
  set (line := String a s) in *.
  set (c1 := if _ || _ then _ else st.1).
  assert (H1 : historyTidy c1 /\ last (history c1) = Some line).
  { subst c1. destruct Ht as (Hm & Hl & He & Hr).
    destruct (bool_decide (history st.1 = [])
              || negb (bool_decide (last (history st.1) = Some line))) eqn:E.
    - assert (Hlast : last (history st.1) <> Some line).
      { apply orb_true_iff in E as [E|E].
        - apply bool_decide_eq_true in E. rewrite E. discriminate.
        - apply negb_true_iff, bool_decide_eq_false in E. exact E. }
      rewrite Hm. change (size_t_of_int 100) with 100.
      destruct (Z.gtb_spec (Z.of_nat (length (history st.1 ++ [line]))) 100) as [Hg|Hg];
        rewrite length_app in Hg; cbn in Hg.
      + split; [split; [exact Hm|split; [|split]]|]; cbn [history set_history].
        * rewrite length_drop, length_app. cbn. lia.
        * intros Hin. apply elem_of_drop_1 in Hin.
          apply elem_of_app in Hin as [Hin|Hin%list_elem_of_singleton];
            [contradiction | discriminate].
        * apply noRepeat_drop, noRepeat_snoc; assumption.
        * destruct (history st.1) as [|x l]; [cbn in Hg; lia|]. cbn. apply last_snoc.
      + split; [split; [exact Hm|split; [|split]]|]; cbn [history set_history].
        * rewrite length_app. cbn. lia.
        * intros [Hin|Hin%list_elem_of_singleton]%elem_of_app;
            [contradiction | discriminate].
        * apply noRepeat_snoc; assumption.
        * apply last_snoc.
    - split; [repeat split; assumption|].
      apply orb_false_iff in E as [_ E].
      apply negb_false_iff, bool_decide_eq_true in E. exact E. }
  clearbody c1. split.
  - apply (Hkeep historyTidy); [intros l c Hc; exact Hc | intros c Hc; exact Hc | apply H1].
  - intros _.
    apply (Hkeep (fun c => last (history c) = Some line));
      [intros l c Hc; exact Hc | intros c Hc; exact Hc | apply H1].
Qed.

(** X25.  The history holds at most 100 lines, no empty line and no
    line twice in a row.  This is so in a new console and it is kept
    by [executeCommand] and [processChar], as long as the registered
    callbacks reach the console through [addOutput]; after a line that
    is not empty has been executed, it is the last entry of the
    history. *)
Theorem history_is_tidy (commandLine : string) (ch : ascii) (st : Console H * Env) :
  historyTidy (Console.create (H := H))
  /\ (historyTidy st.1 ->
      historyTidy (executeCommand external commandLine st).1
      /\ (commandLine <> EmptyString ->
          last (history (executeCommand external commandLine st).1) = Some commandLine)
      /\ historyTidy (processChar external ch st).1).
Proof.
  assert (Hnew : history (Console.create (H := H)) = []) by reflexivity.
  split.
  - unfold historyTidy. rewrite Hnew. split; [reflexivity|]. split; [cbn; lia|]. split.
    + apply not_elem_of_nil.
    + intros i x y Hx. rewrite lookup_nil in Hx. discriminate.
  - intros Ht. destruct (executeCommand_history commandLine st Ht) as [H1 H2].
    split; [exact H1|]. split; [exact H2|].
    unfold processChar.
    destruct (negb (isActive st.1)); [exact Ht|].
    destruct (_ || _).
    { destruct (currentInput st.1); exact Ht. }
    destruct (_ || _).
    { cbn [fst]. apply (executeCommand_history (currentInput st.1) st Ht). }
    destruct (_ && _); exact Ht.
Qed.

(** *** Browsing the history *)

(** X26.  [navigateHistory] keeps [historyIndex] between -1 and the
    last index of the history, and never touches the history.  When
    the index it leaves is not -1, the input line is the history
    entry at that index.  The up arrow on a console that is not
    browsing selects the newest entry; the down arrow on the newest
    entry ends the browsing with an empty input line; with an empty
    history nothing happens. *)
Theorem navigateHistory_stays_in_range (direction : Z) (c : Console H) :
  let c' := navigateHistory direction c in
  let size := Z.of_nat (length (history c)) in
  -1 <= historyIndex c < size ->
  history c' = history c
  /\ -1 <= historyIndex c' < size
  /\ (0 <= historyIndex c' ->
      history c !! Z.to_nat (historyIndex c') = Some (currentInput c'))
  /\ (direction < 0 -> historyIndex c = -1 -> history c <> [] ->
      historyIndex c' = size - 1)
  /\ (0 <= direction -> historyIndex c = size - 1 -> history c <> [] ->
      historyIndex c' = -1 /\ currentInput c' = EmptyString)
  /\ (history c = [] -> c' = c).
Proof.
  cbv zeta. intros Hr. unfold navigateHistory.
  destruct (history c) as [|x l] eqn:Eh.
  { cbn in Hr. rewrite Eh. repeat split; try congruence; try lia. }
  assert (Hpos : 0 < Z.of_nat (length (history c))) by (rewrite Eh; cbn; lia).
  rewrite <- Eh in *. clear x l Eh.
  assert (Hload : forall i, 0 <= i < Z.of_nat (length (history c)) ->
            let c0 := set_historyIndex i c in
            (if (0 <=? historyIndex c0) && (historyIndex c0 <? Z.of_nat (length (history c)))
             then set_currentInput
                    (default EmptyString (history c0 !! Z.to_nat (historyIndex c0))) c0
             else c0)
            = set_currentInput (default EmptyString (history c !! Z.to_nat i))
                (set_historyIndex i c)
            /\ history c !! Z.to_nat i
               = Some (default EmptyString (history c !! Z.to_nat i))).
  { intros i Hi. cbn [historyIndex set_historyIndex history].
    replace (0 <=? i) with true by (symmetry; apply Z.leb_le; lia).
    replace (i <? Z.of_nat (length (history c))) with true
      by (symmetry; apply Z.ltb_lt; lia).
    split; [reflexivity|].
    destruct (lookup_lt_is_Some_2 (history c) (Z.to_nat i)) as [y Hy]; [lia|].
    rewrite Hy. reflexivity. }
  assert (Hsame : set_historyIndex (historyIndex c) c = c) by (destruct c; reflexivity).
  assert (Hne : history c = [] -> False)
    by (intros E; rewrite E in Hpos; cbn in Hpos; lia).
  destruct (Z.ltb_spec direction 0) as [Hd|Hd].
  - destruct (Z.ltb_spec (historyIndex c) 0) as [Hi|Hi].
    + destruct (Hload (Z.of_nat (length (history c)) - 1)) as [-> Hl]; [lia|].
      cbn [history historyIndex currentInput set_currentInput set_historyIndex].
      repeat split; intros; try lia; try assumption; exfalso; first [lia | auto].
    + destruct (Z.gtb_spec (historyIndex c) 0) as [Hg|Hg].
      * destruct (Hload (historyIndex c - 1)) as [-> Hl]; [lia|].
        cbn [history historyIndex currentInput set_currentInput set_historyIndex].
        repeat split; intros; try lia; try assumption; exfalso; first [lia | auto].
      * assert (E : historyIndex c = 0) by lia.
        destruct (Hload (historyIndex c)) as [Hc Hl]; [lia|].
        cbv zeta in Hc. rewrite Hsame in Hc. rewrite Hc.
        cbn [history historyIndex currentInput set_currentInput set_historyIndex].
        repeat split; intros; try lia; try assumption; exfalso; first [lia | auto].
  - destruct (Z.leb_spec 0 (historyIndex c)) as [Hi|Hi].
    + cbn [historyIndex set_historyIndex].
      destruct (Z.leb_spec (Z.of_nat (length (history c))) (historyIndex c + 1)) as [Hs|Hs].
      * cbn [history historyIndex currentInput set_currentInput set_historyIndex].
        repeat split; intros; try lia; try reflexivity; exfalso; first [lia | auto].
      * destruct (Hload (historyIndex c + 1)) as [Hc Hl]; [lia|].
        cbv zeta in Hc. cbn [history historyIndex set_historyIndex] in Hc |- *.
        rewrite Hc.
        cbn [history historyIndex currentInput set_currentInput set_historyIndex].
        repeat split; intros; try lia; try assumption; exfalso; first [lia | auto].
    + cbn [andb].
      repeat split; intros; try lia; try reflexivity; exfalso; first [lia | auto].
Qed.

(** *** Typing *)

Definition printable (ch : ascii) : bool :=
  ((32 <=? nat_of_ascii ch) && (nat_of_ascii ch <=? 126))%nat.

Fixpoint allPrintable (s : string) : bool :=
  match s with
  | EmptyString => true
  | String ch s' => printable ch && allPrintable s'
  end.

(** The characters of a string, typed one after the other. *)
Definition type (s : string) (st : Console H * Env) : Console H * Env :=
  foldl (fun st ch => processChar external ch st) st (list_ascii_of_string s).

Lemma printable_char (ch : ascii) (st : Console H * Env) :
  isActive st.1 = true -> printable ch = true ->
  processChar external ch st
  = (set_historyIndex (-1)
       (set_currentInput (currentInput st.1 +:+ String ch EmptyString) st.1), st.2).
Proof.
  intros Ha Hp. unfold processChar. rewrite Ha. cbn [negb].
  unfold printable in Hp. apply andb_prop in Hp as [H1 H2].
  apply Nat.leb_le in H1, H2.
  replace ((nat_of_ascii ch =? 8)%nat || (nat_of_ascii ch =? 127)%nat) with false
    by (symmetry; apply orb_false_iff; split; apply Nat.eqb_neq; lia).
  replace ((nat_of_ascii ch =? 13)%nat || (nat_of_ascii ch =? 10)%nat) with false
    by (symmetry; apply orb_false_iff; split; apply Nat.eqb_neq; lia).
  replace ((32 <=? nat_of_ascii ch)%nat && (nat_of_ascii ch <=? 126)%nat) with true
    by (symmetry; apply andb_true_iff; split; apply Nat.leb_le; lia).
  reflexivity.
Qed.

Lemma type_printable (s : string) (st : Console H * Env) :
  isActive st.1 = true -> allPrintable s = true ->
  type s st
  = match s with
    | EmptyString => st
    | _ => (set_historyIndex (-1) (set_currentInput (currentInput st.1 +:+ s) st.1), st.2)
    end.
Proof.
  unfold type. revert st. induction s as [|ch s IH]; intros st Ha Hp; [reflexivity|].
  cbn in Hp. apply andb_prop in Hp as [Hc Hs].
  cbn [list_ascii_of_string foldl]. rewrite printable_char by assumption.
  rewrite IH by assumption. destruct s as [|ch' s]; [reflexivity|].
  cbn [fst snd currentInput set_currentInput set_historyIndex].
  rewrite append_assoc. reflexivity.
Qed.

Lemma length_append (s t : string) :
  String.length (s +:+ t) = (String.length s + String.length t)%nat.
Proof.
  induction s as [|a s IH]; [reflexivity|].
  rewrite append_cons. cbn [String.length]. rewrite IH. reflexivity.
Qed.

Lemma pop_back (s : string) (ch : ascii) :
  substring 0 (String.length (s +:+ String ch EmptyString) - 1)
    (s +:+ String ch EmptyString) = s.
Proof.
  induction s as [|a s IH]; [reflexivity|].
  rewrite append_cons. cbn [String.length].
  replace (S (String.length (s +:+ String ch EmptyString)) - 1)%nat
    with (S (String.length (s +:+ String ch EmptyString) - 1))%nat.
  - cbn [substring]. rewrite IH. reflexivity.
  - rewrite length_append. cbn [String.length]. lia.
Qed.

(** X27.  Typing into the console.  While the console is active,
    the printable characters (codes 32 to 126) are appended to the
    input line in the order typed and end any browsing of the
    history; the backspace that follows a printable character gives
    back the line as it was; and the Enter key executes exactly the
    line that was typed, then empties the input line.  While the
    console is not active, [processChar] and [processSpecialKey]
    change nothing. *)
Theorem typing_into_the_console (s : string) (ch : ascii) (key : Z)
    (st : Console H * Env) :
  (isActive st.1 = true -> allPrintable s = true -> s <> EmptyString ->
   type s st
   = (set_historyIndex (-1) (set_currentInput (currentInput st.1 +:+ s) st.1), st.2)
   /\ processChar external "010" (type s st)
      = (set_historyIndex (-1)
           (set_currentInput EmptyString
              (executeCommand external (currentInput st.1 +:+ s) (type s st)).1),
         (executeCommand external (currentInput st.1 +:+ s) (type s st)).2))
  /\ (isActive st.1 = true -> printable ch = true ->
      currentInput (processChar external "008" (processChar external ch st)).1
      = currentInput st.1)
  /\ (isActive st.1 = false ->
      processChar external ch st = st /\ processSpecialKey key st.1 = st.1).
Proof.
  split; [|split].
  - intros Ha Hp Hne. rewrite type_printable by assumption.
    destruct s as [|a s]; [contradiction|]. split; [reflexivity|].
    unfold processChar at 1. cbn [fst snd isActive set_historyIndex set_currentInput
                                 currentInput].
    rewrite Ha. reflexivity.
  - intros Ha Hp. rewrite (printable_char ch st) by assumption.
    unfold processChar. cbn [fst snd isActive set_historyIndex set_currentInput
                             currentInput].
    rewrite Ha. cbn [negb]. change ((nat_of_ascii "008" =? 8)%nat) with true.
    cbn [orb].
    destruct (currentInput st.1 +:+ String ch EmptyString) eqn:E.
    + destruct (currentInput st.1); discriminate.
    + cbn [fst currentInput set_currentInput]. rewrite <- E. apply pop_back.
  - intros Ha. unfold processChar, processSpecialKey. rewrite Ha. auto.
Qed.

End Callbacks.

End ConsoleFacts.

(** ** Scenarios for the further properties *)

Module MoreScenarios.

Import PhysicsWorld WorldScenarios.
Local Open Scope f32_scope.

(** A body switched off and made static, and a ball that overlaps it. *)
Definition parkedBody : PhysicsBody :=
  PhysicsBody.set_isActive false
    (PhysicsBody.setStatic true
       (PhysicsBody.create (Vector3.mk F32.zero f5 F32.zero) F32.one Lit.f0_5)).

Definition parkedWorld : PhysicsWorld :=
  addBody (OfBall freeBall) (addBody (OfPhysicsBody parkedBody) create).

Lemma parked_body_is_frozen_witness :
  bodies (foldl (fun ws dt => update RAND_MAX rand dt ws) (parkedWorld, 0%nat)
            [frame; Lit.f2]).1 !! 0%nat
  = Some (OfPhysicsBody parkedBody).
Proof.
  apply (WorldFrame.parked_body_is_frozen RAND_MAX rand parkedWorld 0 0
           (OfPhysicsBody parkedBody) [frame; Lit.f2]); reflexivity.
Defined.

Lemma update_short_frame_is_one_substep_witness :
  update RAND_MAX rand frame (parkedWorld, 0%nat)
  = (set_bodies (substep RAND_MAX rand (worldBounds parkedWorld) frame
                   (bodies parkedWorld, 0%nat)).1 parkedWorld,
     (substep RAND_MAX rand (worldBounds parkedWorld) frame
        (bodies parkedWorld, 0%nat)).2).
Proof.
  apply (WorldFrame.update_short_frame_is_one_substep RAND_MAX rand parkedWorld 0 frame);
    [reflexivity | reflexivity | reflexivity].
Defined.

Lemma update_without_ball_pair_is_deterministic_witness :
  update RAND_MAX rand frame (parkedWorld, 0%nat)
  = update 32767 (fun k => Z.of_nat k) frame (parkedWorld, 0%nat)
  /\ (update RAND_MAX rand frame (parkedWorld, 0%nat)).2 = 0%nat.
Proof.
  apply (WorldFrame.update_without_ball_pair_is_deterministic
           RAND_MAX 32767 rand (fun k => Z.of_nat k) parkedWorld 0 frame).
  intros [|[|i]] [|[|j]] a b Hij Ha Hb; cbn in Ha, Hb;
    try discriminate; try congruence;
    injection Ha as <-; injection Hb as <-; reflexivity.
Defined.

Lemma ball_update_keeps_above_floor_witness :
  (Vector3.y (PhysicsBody.position (Ball.body (Ball.update Lit.f2 freeBall)))
   <? PhysicsBody.radius (Ball.body (Ball.update Lit.f2 freeBall))) = false
  /\ PhysicsBody.radius (Ball.body (Ball.update Lit.f2 freeBall))
     = PhysicsBody.radius (Ball.body freeBall).
Proof.
  apply (Geometry.ball_update_keeps_above_floor Lit.f2 freeBall). reflexivity.
Defined.

Lemma kinetic_energy_is_not_negative_witness :
  (Ball.getKineticEnergy (Ball.throwBall (Vector3.mk Lit.f2 F32.zero (- Lit.f15)) heldBall)
   <? F32.zero) = false.
Proof.
  apply (Geometry.kinetic_energy_is_not_negative
           (Ball.throwBall (Vector3.mk Lit.f2 F32.zero (- Lit.f15)) heldBall)).
  reflexivity.
Defined.

(** A cursor position, as [double]. *)
Definition cursorX : F64.float := Eval vm_compute in F64.of_f32 (F32.of_int 640).
Definition cursorY : F64.float := Eval vm_compute in F64.of_f32 (F32.of_int 360).

Lemma first_cursor_event_gives_no_delta_witness :
  InputHandler.getMouseDelta
    (InputHandler.update
       (InputHandler.mouseCallbackImpl cursorX cursorY
          (InputHandler.resetMouseDelta
             (InputHandler.setMouseGrab true InputHandler.create))))
  = (F64.zero, F64.zero)
  /\ (InputHandler.mouseGrabbed (InputHandler.setMouseGrab true InputHandler.create) = false ->
      InputHandler.getMouseDelta
        (InputHandler.update (InputHandler.setMouseGrab true InputHandler.create))
      = (F64.zero, F64.zero)).
Proof.
  apply (InputFacts.first_cursor_event_gives_no_delta cursorX cursorY
          (InputHandler.setMouseGrab true InputHandler.create)); reflexivity.
Defined.

(** *** The console of the game *)

(** A [physics_info] callback that does nothing. *)
Definition noInfo (args : list string) (st : Game.State) : Game.State * option string :=
  (st, None).

Definition uniform (k : nat) (a b : F32.float) : F32.float := a.
Definition randomColor (k : nat) : Vector3 := Vector3.mk F32.one F32.one F32.one.
Definition cos (a : F64.float) : F64.float := F64.zero.
Definition sin (a : F64.float) : F64.float := F64.zero.

Definition command : Game.Command -> list string -> Game.State -> Game.State * option string :=
  Game.command uniform randomColor noInfo.

Lemma command_speaks (h : Game.Command) (args : list string) (st : Game.State) :
  ConsoleFacts.speaks Game.Command st.1 (command h args st).1.1.
Proof.
  destruct h; unfold command, Game.command; cbn [fst].
  - unfold Game.summonCommand.
    destruct args as [|arg args]; [eexists [_]; reflexivity|].
    destruct (Game.stoi arg) as [count|]; [|eexists [_]; reflexivity].
    destruct (count <=? 0)%Z; [eexists [_]; reflexivity|].
    destruct (count >? 100)%Z; eexists [_]; reflexivity.
  - eexists [_]. reflexivity.
  - exists []. reflexivity.
Qed.

Definition initial : Game.State := Game.Initialize cos sin uniform randomColor.

Lemma output_is_bounded_witness :
  ConsoleFacts.outputBounded Game.Command (Console.create (H := Game.Command))
  /\ (ConsoleFacts.outputBounded Game.Command initial.1 ->
      ConsoleFacts.outputBounded Game.Command (Console.addOutput "ready" initial.1)
      /\ last (Console.outputMessages (Console.addOutput "ready" initial.1)) = Some "ready"%string
      /\ Console.outputMessages (Console.clearOutput initial.1) = ["Console cleared"%string]
      /\ ConsoleFacts.outputBounded Game.Command
           (Console.executeCommand command "summon 3" initial).1
      /\ ConsoleFacts.outputBounded Game.Command
           (Console.processChar command "010" initial).1).
Proof.
  apply (ConsoleFacts.output_is_bounded Game.Command Game command command_speaks
           "ready" "summon 3" "010" initial).
Defined.

Lemma history_is_tidy_witness :
  ConsoleFacts.historyTidy Game.Command (Console.create (H := Game.Command))
  /\ (ConsoleFacts.historyTidy Game.Command initial.1 ->
      ConsoleFacts.historyTidy Game.Command
        (Console.executeCommand command "summon 3" initial).1
      /\ ("summon 3"%string <> EmptyString ->
          last (Console.history (Console.executeCommand command "summon 3" initial).1)
          = Some "summon 3"%string)
      /\ ConsoleFacts.historyTidy Game.Command
           (Console.processChar command "010" initial).1).
Proof.
  apply (ConsoleFacts.history_is_tidy Game.Command Game command command_speaks
           "summon 3" "010" initial).
Defined.

Local Close Scope f32_scope.

(** A console that is browsing a history of two lines. *)
Definition browsing : Console Game.Command :=
  Console.set_historyIndex 1
    (Console.set_history ["summon 3"%string; "clear_balls"%string]
       (Console.setVisible true Console.create)).

Lemma navigateHistory_stays_in_range_witness :
  Console.history (Console.navigateHistory (-1) browsing) = Console.history browsing
  /\ -1 <= Console.historyIndex (Console.navigateHistory (-1) browsing) < 2
  /\ (0 <= Console.historyIndex (Console.navigateHistory (-1) browsing) ->
      Console.history browsing
        !! Z.to_nat (Console.historyIndex (Console.navigateHistory (-1) browsing))
      = Some (Console.currentInput (Console.navigateHistory (-1) browsing)))
  /\ (-1 < 0 -> Console.historyIndex browsing = -1 -> Console.history browsing <> [] ->
      Console.historyIndex (Console.navigateHistory (-1) browsing) = 2 - 1)
  /\ (0 <= -1 -> Console.historyIndex browsing = 2 - 1 -> Console.history browsing <> [] ->
      Console.historyIndex (Console.navigateHistory (-1) browsing) = -1
      /\ Console.currentInput (Console.navigateHistory (-1) browsing) = EmptyString)
  /\ (Console.history browsing = [] -> Console.navigateHistory (-1) browsing = browsing).
Proof.
  apply (ConsoleFacts.navigateHistory_stays_in_range Game.Command (-1) browsing).
  cbn. lia.
Defined.

End MoreScenarios.
